(** * Parallel parking expert system: rule engine, phase machine, vehicle model

    A shallow embedding of [main.py].  Python floats and ints are modelled by
    exact rationals ([Q]): comparisons are exact, arithmetic does not round,
    and the special values inf and nan are outside the model.  The speed
    limiter, where rounding decides, is modelled a second time in double
    precision (section "Double precision").  The functions
    of Python's [math] module are operations of the class [Math]; nothing is
    assumed about them unless a theorem says so.  Exceptions are values of
    [exn], carried by [result]. *)

From Stdlib Require Import QArith Qabs Qminmax Qround Qpower ZArith List String Ascii
  Bool Lia Lqa.
Import ListNotations.

Local Open Scope string_scope.
Local Open Scope list_scope.
Local Open Scope Q_scope.

(** ** Module constants *)

Definition WIDTH : Q := 1400.
Definition HEIGHT : Q := 700.
Definition FPS : Q := 60.
Definition CAR_LENGTH : Q := 80.
Definition CAR_WIDTH : Q := 40.
Definition SENSOR_RANGE : Q := 400.

(** ** Exceptions *)

Inductive exn : Type :=
| NameError | TypeError | AttributeError | SyntaxError | ValueError
| IndexError | KeyError.

Inductive result (A : Type) : Type :=
| Ok (a : A)
| Raise (e : exn).

Arguments Ok {A} a.
Arguments Raise {A} e.

Definition bind {A B : Type} (r : result A) (k : A -> result B) : result B :=
  match r with
  | Ok a => k a
  | Raise e => Raise e
  end.

Notation "x <- r ;; k" := (bind r (fun x => k))
  (at level 61, r at next level, right associativity).

(** ** Enumerations *)

Inductive ParkingPhase : Type :=
| SEARCHING | APPROACH | POSITIONING | PREPARE_REVERSE | REVERSE_RIGHT
| REVERSE_LEFT | FINAL_ADJUST | PARKED | ABORTED.

Definition phase_value (p : ParkingPhase) : string :=
  match p with
  | SEARCHING => "searching"
  | APPROACH => "approach"
  | POSITIONING => "positioning"
  | PREPARE_REVERSE => "prepare_reverse"
  | REVERSE_RIGHT => "reverse_right"
  | REVERSE_LEFT => "reverse_left"
  | FINAL_ADJUST => "final_adjust"
  | PARKED => "parked"
  | ABORTED => "aborted"
  end.

(** [list(ParkingPhase)]: the members in declaration order. *)
Definition all_phases : list ParkingPhase :=
  [SEARCHING; APPROACH; POSITIONING; PREPARE_REVERSE; REVERSE_RIGHT;
   REVERSE_LEFT; FINAL_ADJUST; PARKED; ABORTED].

Definition phase_eqb (p q : ParkingPhase) : bool :=
  String.eqb (phase_value p) (phase_value q).

Inductive Direction : Type := FORWARD | BACKWARD.

Definition direction_eqb (a b : Direction) : bool :=
  match a, b with
  | FORWARD, FORWARD | BACKWARD, BACKWARD => true
  | _, _ => false
  end.

Inductive RulePriority : Type := HIGH | MEDIUM | LOW.

Definition priority_value (p : RulePriority) : Z :=
  match p with
  | HIGH => 3
  | MEDIUM => 2
  | LOW => 1
  end%Z.

(** ** Data classes *)

Module ParkingSpot.
Record t : Type := Build
  { x : Q;
    y : Q;
    width : Q;
    length : Q;
    occupied : bool;
    suitable : bool }.

(** The [__eq__] a dataclass generates: field by field. *)
Definition eqb (a b : t) : bool :=
  Qeq_bool (x a) (x b) && Qeq_bool (y a) (y b)
  && Qeq_bool (width a) (width b) && Qeq_bool (length a) (length b)
  && Bool.eqb (occupied a) (occupied b) && Bool.eqb (suitable a) (suitable b).
End ParkingSpot.

Module ParkingConfig.
Record t : Type := Build
  { turn_radius_ratio : Q;
    sensor_range : Q;
    max_speed : Q;
    max_reverse_speed : Q;
    preferred_direction : Direction;
    safety_margin : Q;
    steering_sensitivity : Q }.

Definition eqb (a b : t) : bool :=
  Qeq_bool (turn_radius_ratio a) (turn_radius_ratio b)
  && Qeq_bool (sensor_range a) (sensor_range b)
  && Qeq_bool (max_speed a) (max_speed b)
  && Qeq_bool (max_reverse_speed a) (max_reverse_speed b)
  && direction_eqb (preferred_direction a) (preferred_direction b)
  && Qeq_bool (safety_margin a) (safety_margin b)
  && Qeq_bool (steering_sensitivity a) (steering_sensitivity b).

(** The field defaults of the dataclass. *)
Definition default : t :=
  Build 2.5 SENSOR_RANGE 2.5 1.5 FORWARD 30 0.3.
End ParkingConfig.

(** ** Python values *)

(** Values an expression of the rule table can compute. *)
Inductive value : Type :=
| VNum (q : Q)
| VBool (b : bool)
| VStr (s : string)
| VNone
| VSpot (s : ParkingSpot.t)
| VConfig (c : ParkingConfig.t)
| VDirection (d : Direction).

(** Values the fact store holds.  The program stores numbers, the flag
    [emergency], the phase as the string [phase.value], the selected spot or
    [None], and the configuration object. *)
Inductive fact_value : Type :=
| FNum (q : Q)
| FBool (b : bool)
| FPhase (p : ParkingPhase)
| FNone
| FSpot (s : ParkingSpot.t)
| FConfig (c : ParkingConfig.t).

Definition value_of (f : fact_value) : value :=
  match f with
  | FNum q => VNum q
  | FBool b => VBool b
  | FPhase p => VStr (phase_value p)
  | FNone => VNone
  | FSpot s => VSpot s
  | FConfig c => VConfig c
  end.

(** [bool] is a subclass of [int]: [True] counts as 1 in arithmetic. *)
Definition as_num (v : value) : option Q :=
  match v with
  | VNum q => Some q
  | VBool b => Some (if b then 1 else 0)
  | _ => None
  end.

Definition Qltb (a b : Q) : bool := negb (Qle_bool b a).

(** Truth value of an object ([bool(v)]); dataclass instances and enum
    members are always true. *)
Definition truthy (v : value) : bool :=
  match v with
  | VNum q => negb (Qeq_bool q 0)
  | VBool b => b
  | VStr s => negb (String.eqb s "")
  | VNone => false
  | VSpot _ | VConfig _ | VDirection _ => true
  end.

(** [a == b]; never raises on these types. *)
Definition py_eq (a b : value) : bool :=
  match as_num a, as_num b with
  | Some p, Some q => Qeq_bool p q
  | _, _ =>
      match a, b with
      | VStr s, VStr t => String.eqb s t
      | VNone, VNone => true
      | VSpot s, VSpot t => ParkingSpot.eqb s t
      | VConfig c, VConfig d => ParkingConfig.eqb c d
      | VDirection c, VDirection d => direction_eqb c d
      | _, _ => false
      end
  end.

(** Comparison and arithmetic operators, named as in Python's [ast]. *)
Inductive cmpop : Type := OpLt | OpGt | OpLtE | OpGtE | OpEq | OpNotEq.

Inductive binop : Type := OpAdd | OpSub | OpMult.

(** Ordering comparisons: numbers with numbers, strings with strings,
    anything else is a [TypeError]. *)
Definition py_order (op : cmpop) (a b : value) : result value :=
  match as_num a, as_num b with
  | Some p, Some q =>
      Ok (VBool match op with
                | OpLt => Qltb p q
                | OpGt => Qltb q p
                | OpLtE => Qle_bool p q
                | OpGtE => Qle_bool q p
                | OpEq | OpNotEq => false
                end)
  | _, _ =>
      match a, b with
      | VStr s, VStr t =>
          Ok (VBool match op with
                    | OpLt => String.ltb s t
                    | OpGt => String.ltb t s
                    | OpLtE => String.leb s t
                    | OpGtE => String.leb t s
                    | OpEq | OpNotEq => false
                    end)
      | _, _ => Raise TypeError
      end
  end.

Definition py_compare (op : cmpop) (a b : value) : result value :=
  match op with
  | OpEq => Ok (VBool (py_eq a b))
  | OpNotEq => Ok (VBool (negb (py_eq a b)))
  | _ => py_order op a b
  end.

(** Arithmetic.  Two strings concatenate under [+]; every other operand
    pair that is not numeric is a [TypeError].  (Sequence repetition
    [str * int] is not modelled: the rule table multiplies by float literals
    only, for which Python raises [TypeError] as well.) *)
Definition py_binop (op : binop) (a b : value) : result value :=
  match as_num a, as_num b with
  | Some p, Some q =>
      Ok (VNum match op with
               | OpAdd => p + q
               | OpSub => p - q
               | OpMult => p * q
               end)
  | _, _ =>
      match op, a, b with
      | OpAdd, VStr s, VStr t => Ok (VStr (String.append s t))
      | _, _, _ => Raise TypeError
      end
  end.

Definition py_neg (a : value) : result value :=
  match as_num a with
  | Some p => Ok (VNum (- p))
  | None => Raise TypeError
  end.

Definition py_abs (a : value) : result value :=
  match as_num a with
  | Some p => Ok (VNum (Qabs p))
  | None => Raise TypeError
  end.

(** Attribute access on the two dataclasses; no other object of the model
    has an attribute the rule table reads. *)
Definition py_getattr (v : value) (attr : string) : result value :=
  match v with
  | VSpot s =>
      if String.eqb attr "x" then Ok (VNum (ParkingSpot.x s))
      else if String.eqb attr "y" then Ok (VNum (ParkingSpot.y s))
      else if String.eqb attr "width" then Ok (VNum (ParkingSpot.width s))
      else if String.eqb attr "length" then Ok (VNum (ParkingSpot.length s))
      else if String.eqb attr "occupied" then Ok (VBool (ParkingSpot.occupied s))
      else if String.eqb attr "suitable" then Ok (VBool (ParkingSpot.suitable s))
      else Raise AttributeError
  | VConfig c =>
      if String.eqb attr "turn_radius_ratio"
      then Ok (VNum (ParkingConfig.turn_radius_ratio c))
      else if String.eqb attr "sensor_range"
      then Ok (VNum (ParkingConfig.sensor_range c))
      else if String.eqb attr "max_speed"
      then Ok (VNum (ParkingConfig.max_speed c))
      else if String.eqb attr "max_reverse_speed"
      then Ok (VNum (ParkingConfig.max_reverse_speed c))
      else if String.eqb attr "preferred_direction"
      then Ok (VDirection (ParkingConfig.preferred_direction c))
      else if String.eqb attr "safety_margin"
      then Ok (VNum (ParkingConfig.safety_margin c))
      else if String.eqb attr "steering_sensitivity"
      then Ok (VNum (ParkingConfig.steering_sensitivity c))
      else Raise AttributeError
  | _ => Raise AttributeError
  end.

(** ** The fact store *)

(** The names [ExpertSystem.make_decision], [KnowledgeBase.update_facts] and
    [KnowledgeBase.infer] store facts under. *)
Inductive fact_key : Type :=
| k_phase | k_car_x | k_car_y | k_car_angle | k_selected_spot
| k_front_left_sensor | k_front_sensor | k_front_right_sensor
| k_left_sensor | k_right_sensor
| k_rear_left_sensor | k_rear_right_sensor | k_rear_sensor
| k_distance_to_spot
| k_config | k_CAR_LENGTH | k_CAR_WIDTH
| k_throttle | k_steering | k_emergency.

Definition key_name (k : fact_key) : string :=
  match k with
  | k_phase => "phase"
  | k_car_x => "car_x"
  | k_car_y => "car_y"
  | k_car_angle => "car_angle"
  | k_selected_spot => "selected_spot"
  | k_front_left_sensor => "front_left_sensor"
  | k_front_sensor => "front_sensor"
  | k_front_right_sensor => "front_right_sensor"
  | k_left_sensor => "left_sensor"
  | k_right_sensor => "right_sensor"
  | k_rear_left_sensor => "rear_left_sensor"
  | k_rear_right_sensor => "rear_right_sensor"
  | k_rear_sensor => "rear_sensor"
  | k_distance_to_spot => "distance_to_spot"
  | k_config => "config"
  | k_CAR_LENGTH => "CAR_LENGTH"
  | k_CAR_WIDTH => "CAR_WIDTH"
  | k_throttle => "throttle"
  | k_steering => "steering"
  | k_emergency => "emergency"
  end.

Definition all_keys : list fact_key :=
  [k_phase; k_car_x; k_car_y; k_car_angle; k_selected_spot;
   k_front_left_sensor; k_front_sensor; k_front_right_sensor;
   k_left_sensor; k_right_sensor;
   k_rear_left_sensor; k_rear_right_sensor; k_rear_sensor;
   k_distance_to_spot; k_config; k_CAR_LENGTH; k_CAR_WIDTH;
   k_throttle; k_steering; k_emergency].

Definition key_eqb (a b : fact_key) : bool :=
  String.eqb (key_name a) (key_name b).

Definition key_of_name (id : string) : option fact_key :=
  find (fun k => String.eqb (key_name k) id) all_keys.

(** A Python [dict] in insertion order: assigning to a key that is present
    keeps its place, a new key goes to the end. *)
Definition dict : Type := list (fact_key * fact_value).

Fixpoint dict_get (k : fact_key) (d : dict) : option fact_value :=
  match d with
  | [] => None
  | (k', v) :: rest => if key_eqb k k' then Some v else dict_get k rest
  end.

Definition dict_mem (k : fact_key) (d : dict) : bool :=
  match dict_get k d with
  | Some _ => true
  | None => false
  end.

Fixpoint dict_set (k : fact_key) (v : fact_value) (d : dict) : dict :=
  match d with
  | [] => [(k, v)]
  | (k', v') :: rest =>
      if key_eqb k k' then (k, v) :: rest else (k', v') :: dict_set k v rest
  end.

(** [d.update(items)] *)
Definition dict_update (d : dict) (items : list (fact_key * fact_value)) : dict :=
  fold_left (fun acc kv => dict_set (fst kv) (snd kv) acc) items d.

(** [if k not in d: d[k] = v] *)
Definition dict_setdefault (k : fact_key) (v : fact_value) (d : dict) : dict :=
  if dict_mem k d then d else dict_set k v d.

Definition lookup_name (id : string) (locals : dict) : option fact_value :=
  match key_of_name id with
  | Some k => dict_get k locals
  | None => None
  end.

(** ** Expressions *)

(** The strings of the rule table are Python expressions; [expr] is the
    syntax tree Python's parser builds for them, restricted to the forms the
    table uses.  [IsNone e] is [e is None], [IsNotNone e] is
    [e is not None], [CallAbs e] is the call [abs(e)].  [Corrupt] stands for
    a piece of text that no longer names anything after a textual
    replacement (see [replace_name]). *)
Inductive expr : Type :=
| Constant (v : value)
| Name (id : string)
| Attribute (e : expr) (attr : string)
| USub (e : expr)
| CallAbs (e : expr)
| BinOp (op : binop) (l r : expr)
| Compare (op : cmpop) (l r : expr)
| IsNone (e : expr)
| IsNotNone (e : expr)
| BoolOr (l r : expr)
| Corrupt.

(** A string of the table with the tree it parses to. *)
Record py_source : Type := Source
  { text : string;
    ast : expr }.

(** [eval(text, globals, locals)].  [builtins] tells whether the globals
    give access to the builtins ([abs]); names are looked up in [locals].
    Operands are evaluated left to right and the first exception aborts the
    evaluation; [or] evaluates its right operand only when the left one is
    false.  The table reads no global ([math]) and no builtin name other
    than [abs], so a name that is not a fact is a [NameError]. *)
Fixpoint eval (builtins : bool) (locals : dict) (e : expr) : result value :=
  match e with
  | Constant v => Ok v
  | Name id =>
      match lookup_name id locals with
      | Some v => Ok (value_of v)
      | None => Raise NameError
      end
  | Attribute e' attr =>
      v <- eval builtins locals e' ;; py_getattr v attr
  | USub e' =>
      v <- eval builtins locals e' ;; py_neg v
  | CallAbs e' =>
      if builtins then v <- eval builtins locals e' ;; py_abs v
      else Raise NameError
  | BinOp op l r =>
      a <- eval builtins locals l ;;
      b <- eval builtins locals r ;;
      py_binop op a b
  | Compare op l r =>
      a <- eval builtins locals l ;;
      b <- eval builtins locals r ;;
      py_compare op a b
  | IsNone e' =>
      v <- eval builtins locals e' ;;
      Ok (VBool match v with VNone => true | _ => false end)
  | IsNotNone e' =>
      v <- eval builtins locals e' ;;
      Ok (VBool match v with VNone => false | _ => true end)
  | BoolOr l r =>
      a <- eval builtins locals l ;;
      if truthy a then Ok a else eval builtins locals r
  | Corrupt => Raise SyntaxError
  end.

(** ** Textual replacement, on the syntax tree *)

(** [needle in hay] for strings. *)
Fixpoint contains (needle hay : string) : bool :=
  prefix needle hay
  || match hay with
     | EmptyString => false
     | String _ rest => contains needle rest
     end.

Definition ends_with (suffix s : string) : bool :=
  let n := String.length suffix in
  let m := String.length s in
  Nat.leb n m && String.eqb (substring (m - n) n s) suffix.

(** [name in eval_condition]: the fact names are identifiers, so they can
    occur in the text of a table condition only inside an identifier or an
    attribute name (no string literal of the table contains a fact name,
    lemma [table_literals_clean]). *)
Fixpoint occurs (name : string) (e : expr) : bool :=
  match e with
  | Constant _ => false
  | Name id => contains name id
  | Attribute e' attr => occurs name e' || contains name attr
  | USub e' | CallAbs e' | IsNone e' | IsNotNone e' => occurs name e'
  | BinOp _ l r | Compare _ l r | BoolOr l r => occurs name l || occurs name r
  | Corrupt => false
  end.

(** [eval_condition.replace(name, str(value))] for a numeric value: every
    occurrence of [name] becomes the number.  An identifier equal to [name]
    becomes the literal; a longer identifier that contains [name] (as
    [front_right_sensor] contains [right_sensor]) is cut in pieces that name
    nothing, and so is an attribute name.  Python rejects such a text when
    it compiles it or when evaluation reaches the piece, depending on the
    digits written; the model raises when evaluation reaches it.  The only
    such name of the table, [front_right_sensor], is the left operand of a
    whole condition, where both give an exception. *)
Fixpoint replace_name (name : string) (lit : value) (e : expr) : expr :=
  match e with
  | Constant v => Constant v
  | Name id =>
      if String.eqb id name then Constant lit
      else if contains name id then Corrupt
      else Name id
  | Attribute e' attr =>
      if contains name attr then Corrupt
      else Attribute (replace_name name lit e') attr
  | USub e' => USub (replace_name name lit e')
  | CallAbs e' => CallAbs (replace_name name lit e')
  | BinOp op l r => BinOp op (replace_name name lit l) (replace_name name lit r)
  | Compare op l r =>
      Compare op (replace_name name lit l) (replace_name name lit r)
  | IsNone e' => IsNone (replace_name name lit e')
  | IsNotNone e' => IsNotNone (replace_name name lit e')
  | BoolOr l r => BoolOr (replace_name name lit l) (replace_name name lit r)
  | Corrupt => Corrupt
  end.

Definition cmpop_eqb (a b : cmpop) : bool :=
  match a, b with
  | OpLt, OpLt | OpGt, OpGt | OpLtE, OpLtE | OpGtE, OpGtE
  | OpEq, OpEq | OpNotEq, OpNotEq => true
  | _, _ => false
  end.

(** [f"{name} ==" in eval_condition] (or with [!=]): an identifier that ends
    in [name] stands directly to the left of the operator. *)
Fixpoint has_cmp_left (op : cmpop) (name : string) (e : expr) : bool :=
  match e with
  | Constant _ | Name _ | Corrupt => false
  | Attribute e' _ | USub e' | CallAbs e' | IsNone e' | IsNotNone e' =>
      has_cmp_left op name e'
  | BinOp _ l r | BoolOr l r => has_cmp_left op name l || has_cmp_left op name r
  | Compare op' l r =>
      (cmpop_eqb op op'
       && match l with
          | Name id => ends_with name id
          | _ => false
          end)
      || has_cmp_left op name l || has_cmp_left op name r
  end.

(** [eval_condition.replace(f"{name} ==", f"'{value}' ==")] for a string
    value. *)
Fixpoint replace_cmp_left (op : cmpop) (name : string) (lit : value) (e : expr)
  : expr :=
  match e with
  | Constant _ | Name _ | Corrupt => e
  | Attribute e' attr => Attribute (replace_cmp_left op name lit e') attr
  | USub e' => USub (replace_cmp_left op name lit e')
  | CallAbs e' => CallAbs (replace_cmp_left op name lit e')
  | IsNone e' => IsNone (replace_cmp_left op name lit e')
  | IsNotNone e' => IsNotNone (replace_cmp_left op name lit e')
  | BinOp o l r =>
      BinOp o (replace_cmp_left op name lit l) (replace_cmp_left op name lit r)
  | BoolOr l r =>
      BoolOr (replace_cmp_left op name lit l) (replace_cmp_left op name lit r)
  | Compare op' l r =>
      let r' := replace_cmp_left op name lit r in
      match l with
      | Name id =>
          if cmpop_eqb op op' && ends_with name id
          then Compare op' (if String.eqb id name then Constant lit else Corrupt) r'
          else Compare op' l r'
      | _ => Compare op' (replace_cmp_left op name lit l) r'
      end
  end.

(** ** Rules *)

Module Actions.
(** A value of the [actions] dictionary of a rule under the keys
    [throttle], [steering] and [reasoning]: a float, or a string. *)
Inductive entry : Type :=
| Float (q : Q)
| Str (src : py_source).

Record t : Type := Build
  { throttle : entry;
    steering : entry;
    reasoning : entry;
    emergency : bool }.
End Actions.

Module Rule.
Record t : Type := Build
  { name : string;
    priority : RulePriority;
    conditions : list py_source;
    actions : Actions.t;
    description : string }.

(** One round of the loop over [context.items()]: a numeric value (a
    [bool] is an [int]) replaces the key wherever it occurs, a string
    value replaces it only in front of [==], or else in front of [!=];
    values of other types leave the condition alone. *)
Definition substitute (eval_condition : expr) (item : fact_key * fact_value)
  : expr :=
  let key := key_name (fst item) in
  match snd item with
  | FNum _ | FBool _ =>
      if occurs key eval_condition
      then replace_name key (value_of (snd item)) eval_condition
      else eval_condition
  | FPhase _ =>
      if occurs key eval_condition then
        if has_cmp_left OpEq key eval_condition
        then replace_cmp_left OpEq key (value_of (snd item)) eval_condition
        else if has_cmp_left OpNotEq key eval_condition
        then replace_cmp_left OpNotEq key (value_of (snd item)) eval_condition
        else eval_condition
      else eval_condition
  | FNone | FSpot _ | FConfig _ => eval_condition
  end.

(** The condition as it is handed to [eval]: the facts substituted in
    dictionary order, then the two module constants. *)
Definition prepare (context : dict) (condition : expr) : expr :=
  let c1 := fold_left substitute context condition in
  let c2 := if occurs "CAR_LENGTH" c1
            then replace_name "CAR_LENGTH" (VNum CAR_LENGTH) c1 else c1 in
  if occurs "CAR_WIDTH" c2
  then replace_name "CAR_WIDTH" (VNum CAR_WIDTH) c2 else c2.

(** The body of the [try]: the conditions in order, stopping at the first
    one that is false, or at the first exception. *)
Fixpoint check (context : dict) (conds : list py_source) : result bool :=
  match conds with
  | [] => Ok true
  | condition :: rest =>
      v <- eval true context (prepare context (ast condition)) ;;
      if negb (truthy v) then Ok false else check context rest
  end.

(** [Rule.evaluate]: any exception makes the rule evaluate to [False]. *)
Definition evaluate (self : t) (context : dict) : bool :=
  match check context (conditions self) with
  | Ok b => b
  | Raise _ => false
  end.
End Rule.

(** Abbreviations for writing the syntax trees of the table. *)
Definition num (q : Q) : expr := Constant (VNum q).
Definition lit (s : string) : expr := Constant (VStr s).
Definition spot_x : expr := Attribute (Name "selected_spot") "x".
Definition spot_y : expr := Attribute (Name "selected_spot") "y".

(** [car_y - (selected_spot.y - CAR_WIDTH * 1.5)] *)
Definition lateral_offset : expr :=
  BinOp OpSub (Name "car_y")
    (BinOp OpSub spot_y (BinOp OpMult (Name "CAR_WIDTH") (num 1.5))).

(** [selected_spot.x + CAR_LENGTH * 1.5] *)
Definition stop_line : expr :=
  BinOp OpAdd spot_x (BinOp OpMult (Name "CAR_LENGTH") (num 1.5)).

(** A [reasoning] string: prose, which is no Python expression. *)
Definition say (s : string) : Actions.entry := Actions.Str (Source s Corrupt).

Definition phase_is (s : string) : py_source :=
  Source ("phase == '" ++ s ++ "'") (Compare OpEq (Name "phase") (lit s)).

Definition spot_chosen : py_source :=
  Source "selected_spot is not None" (IsNotNone (Name "selected_spot")).

Definition throttle_positive : py_source :=
  Source "throttle > 0" (Compare OpGt (Name "throttle") (num 0)).

Definition speed_factor (text : string) (q : Q) : Actions.entry :=
  Actions.Str
    (Source text (BinOp OpMult (Attribute (Name "config") "max_speed") (num q))).

Definition reverse_factor (text : string) (q : Q) : Actions.entry :=
  Actions.Str
    (Source text
       (BinOp OpMult (USub (Attribute (Name "config") "max_reverse_speed"))
          (num q))).

(** ** Library functions *)

(** The functions of Python's [math] module the program calls. *)
Class Math : Type :=
  { math_hypot : Q -> Q -> Q;
    math_cos : Q -> Q;
    math_sin : Q -> Q;
    math_radians : Q -> Q;
    math_degrees : Q -> Q }.

(** [max(a, b)] returns its first argument unless the second is larger. *)
Definition py_max (a b : Q) : Q := if Qltb a b then b else a.

(** [sorted(l, key=key, reverse=True)]: a stable sort into descending key
    order; elements with equal keys keep their original order. *)
Fixpoint insert_desc {A : Type} (key : A -> Z) (a : A) (l : list A) : list A :=
  match l with
  | [] => [a]
  | b :: rest =>
      if (key a <? key b)%Z then b :: insert_desc key a rest else a :: b :: rest
  end.

Definition sorted_reverse {A : Type} (key : A -> Z) (l : list A) : list A :=
  fold_right (insert_desc key) [] l.

(** [any(char in value for char in ['+', '-', '*', '/', '(', ')'])] *)
Definition has_operator_char (s : string) : bool :=
  existsb (fun c => contains c s) ["+"; "-"; "*"; "/"; "("; ")"].

Module DecisionInfo.
Record t : Type := Build
  { throttle : value;
    steering : value;
    reasoning : value;
    emergency : bool;
    rule_applied : string;
    rule_description : string }.
End DecisionInfo.

Module KnowledgeBase.

Definition initial_start : Rule.t :=
  Rule.Build "Начало движения" HIGH
    [ phase_is "searching";
      Source "car_x < 300" (Compare OpLt (Name "car_x") (num 300)) ]
    (Actions.Build (speed_factor "config.max_speed * 0.7" 0.7) (Actions.Float 0)
       (say "Начало движения по дороге") false)
    "Начальное движение при старте системы".

Definition emergency_stop : Rule.t :=
  Rule.Build "Экстренная остановка" HIGH
    [ Source "front_sensor < 30" (Compare OpLt (Name "front_sensor") (num 30));
      throttle_positive ]
    (Actions.Build (Actions.Float 0) (Actions.Float 0)
       (say "Экстренная остановка: препятствие впереди") true)
    "Остановка при опасном сближении".

Definition slow_down : Rule.t :=
  Rule.Build "Замедление" HIGH
    [ Source "front_sensor < 100" (Compare OpLt (Name "front_sensor") (num 100));
      throttle_positive ]
    (Actions.Build
       (Actions.Str
          (Source "throttle * 0.5" (BinOp OpMult (Name "throttle") (num 0.5))))
       (Actions.Float 0)
       (say "Замедление: препятствие впереди") false)
    "Замедление при приближении к препятствию".

Definition straight_search : Rule.t :=
  Rule.Build "Прямой поиск" MEDIUM
    [ phase_is "searching";
      Source "selected_spot is None" (IsNone (Name "selected_spot")) ]
    (Actions.Build (speed_factor "config.max_speed * 0.7" 0.7) (Actions.Float 0)
       (say "Поиск свободного парковочного места") false)
    "Прямое движение для поиска места".

Definition center_correction : Rule.t :=
  Rule.Build "Коррекция центра" MEDIUM
    [ phase_is "searching";
      Source "abs(left_sensor - right_sensor) > 50"
        (Compare OpGt
           (CallAbs (BinOp OpSub (Name "left_sensor") (Name "right_sensor")))
           (num 50)) ]
    (Actions.Build (speed_factor "config.max_speed * 0.7" 0.7)
       (Actions.Str
          (Source "(right_sensor - left_sensor) * 0.01"
             (BinOp OpMult
                (BinOp OpSub (Name "right_sensor") (Name "left_sensor"))
                (num 0.01))))
       (say "Коррекция для движения по центру") false)
    "Коррекция положения на дороге".

Definition spot_found : Rule.t :=
  Rule.Build "Место найдено" MEDIUM
    [ phase_is "searching";
      spot_chosen;
      Source "car_x < selected_spot.x - 100"
        (Compare OpLt (Name "car_x") (BinOp OpSub spot_x (num 100))) ]
    (Actions.Build (speed_factor "config.max_speed * 0.6" 0.6) (Actions.Float 0)
       (say "Найдено место, продолжаем движение") false)
    "Движение к найденному месту".

Definition approach_spot : Rule.t :=
  Rule.Build "Подъезд к месту" MEDIUM
    [ phase_is "approach";
      spot_chosen;
      Source "car_x < selected_spot.x + CAR_LENGTH * 1.5"
        (Compare OpLt (Name "car_x") stop_line) ]
    (Actions.Build (speed_factor "config.max_speed * 0.5" 0.5)
       (Actions.Str
          (Source "-(car_y - (selected_spot.y - CAR_WIDTH * 1.5)) * 0.008"
             (BinOp OpMult (USub lateral_offset) (num 0.008))))
       (say "Подъезд к позиции для парковки") false)
    "Подъезд к позиции перед парковкой".

Definition stop_for_maneuver : Rule.t :=
  Rule.Build "Остановка для маневра" MEDIUM
    [ phase_is "approach";
      spot_chosen;
      Source "car_x >= selected_spot.x + CAR_LENGTH * 1.5 - 40"
        (Compare OpGtE (Name "car_x") (BinOp OpSub stop_line (num 40)));
      Source "car_x <= selected_spot.x + CAR_LENGTH * 1.5 + 40"
        (Compare OpLtE (Name "car_x") (BinOp OpAdd stop_line (num 40))) ]
    (Actions.Build (Actions.Float 0) (Actions.Float 0)
       (say "Позиция достигнута, подготовка к парковке") false)
    "Остановка на позиции для парковки".

Definition align_parallel : Rule.t :=
  Rule.Build "Выравнивание" MEDIUM
    [ phase_is "positioning";
      spot_chosen;
      Source
        "abs(car_angle) > 2 or abs(car_y - (selected_spot.y - CAR_WIDTH * 1.5)) > 15"
        (BoolOr
           (Compare OpGt (CallAbs (Name "car_angle")) (num 2))
           (Compare OpGt (CallAbs lateral_offset) (num 15))) ]
    (Actions.Build (speed_factor "config.max_speed * 0.3" 0.3)
       (Actions.Str
          (Source
             "-car_angle * 0.15 - (car_y - (selected_spot.y - CAR_WIDTH * 1.5)) * 0.01"
             (BinOp OpSub
                (BinOp OpMult (USub (Name "car_angle")) (num 0.15))
                (BinOp OpMult lateral_offset (num 0.01)))))
       (say "Выравнивание параллельно парковке") false)
    "Выравнивание автомобиля".

Definition ready_for_reverse : Rule.t :=
  Rule.Build "Готовность к реверсу" MEDIUM
    [ phase_is "positioning";
      spot_chosen;
      Source "abs(car_angle) < 3"
        (Compare OpLt (CallAbs (Name "car_angle")) (num 3));
      Source "abs(car_y - (selected_spot.y - CAR_WIDTH * 1.5)) < 15"
        (Compare OpLt (CallAbs lateral_offset) (num 15));
      Source "front_right_sensor < 120"
        (Compare OpLt (Name "front_right_sensor") (num 120)) ]
    (Actions.Build (Actions.Float 0) (Actions.Float 0)
       (say "Готовность к заднему маневру") false)
    "Автомобиль готов к заднему маневру".

Definition start_reverse : Rule.t :=
  Rule.Build "Начало заднего маневра" HIGH
    [ phase_is "reverse_right";
      Source "car_angle > -35"
        (Compare OpGt (Name "car_angle") (USub (num 35))) ]
    (Actions.Build (reverse_factor "-config.max_reverse_speed * 0.3" 0.3)
       (Actions.Str (Source "20" (num 20)))
       (say "Задний маневр с поворотом") false)
    "Начало заднего маневра".

Definition transition_to_align : Rule.t :=
  Rule.Build "Переход к выравниванию" HIGH
    [ phase_is "reverse_right";
      Source "car_angle <= -30"
        (Compare OpLtE (Name "car_angle") (USub (num 30))) ]
    (Actions.Build (reverse_factor "-config.max_reverse_speed * 0.2" 0.2)
       (Actions.Str (Source "0" (num 0)))
       (say "Переход к выравниванию") false)
    "Переход к фазе выравнивания".

Definition reverse_align : Rule.t :=
  Rule.Build "Выравнивание задним ходом" MEDIUM
    [ phase_is "reverse_left";
      Source "abs(car_angle) > 3"
        (Compare OpGt (CallAbs (Name "car_angle")) (num 3)) ]
    (Actions.Build (reverse_factor "-config.max_reverse_speed * 0.25" 0.25)
       (Actions.Str
          (Source "-12 - car_angle * 0.1"
             (BinOp OpSub (USub (num 12))
                (BinOp OpMult (Name "car_angle") (num 0.1)))))
       (say "Выравнивание задним ходом") false)
    "Выравнивание автомобиля".

Definition default_stop : Rule.t :=
  Rule.Build "Остановка по умолчанию" LOW
    [ Source "phase != 'parked'" (Compare OpNotEq (Name "phase") (lit "parked")) ]
    (Actions.Build (Actions.Float 0) (Actions.Float 0)
       (say "Ожидание команд") false)
    "Правило по умолчанию".

Definition parking_complete : Rule.t :=
  Rule.Build "Парковка завершена" MEDIUM
    [ phase_is "parked" ]
    (Actions.Build (Actions.Float 0) (Actions.Float 0)
       (say "Парковка успешно завершена!") false)
    "Завершение парковки".

(** The rule dictionary, in the order its keys are assigned. *)
Definition _build_rules : list (string * Rule.t) :=
  [ ("initial_start", initial_start);
    ("emergency_stop", emergency_stop);
    ("slow_down", slow_down);
    ("straight_search", straight_search);
    ("center_correction", center_correction);
    ("spot_found", spot_found);
    ("approach_spot", approach_spot);
    ("stop_for_maneuver", stop_for_maneuver);
    ("align_parallel", align_parallel);
    ("ready_for_reverse", ready_for_reverse);
    ("start_reverse", start_reverse);
    ("transition_to_align", transition_to_align);
    ("reverse_align", reverse_align);
    ("default_stop", default_stop);
    ("parking_complete", parking_complete) ].

Record t : Type := Build
  { config : ParkingConfig.t;
    rules : list (string * Rule.t);
    facts : dict;
    initialized : bool }.

Definition __init__ (config : ParkingConfig.t) : t :=
  Build config _build_rules [] false.

Definition set_facts (self : t) (d : dict) : t :=
  Build (config self) (rules self) d (initialized self).

Section WithMath.
Context {M : Math}.

(** ["k" in facts] and [facts["k"]] on the keyword arguments. *)
Definition getitem (k : fact_key) (d : dict) : result value :=
  match dict_get k d with
  | Some v => Ok (value_of v)
  | None => Raise KeyError
  end.

Definition to_float (v : value) : result Q :=
  match as_num v with
  | Some q => Ok q
  | None => Raise TypeError
  end.

(** [update_facts], called with the keyword arguments [kwargs].  The
    store is updated first; the derived fact [distance_to_spot] is added
    when the call passes [car_x] and a true [selected_spot], and
    computing it can raise. *)
Definition update_facts (self : t) (kwargs : dict) : result t :=
  let self1 := set_facts self (dict_update (facts self) kwargs) in
  if dict_mem k_car_x kwargs && dict_mem k_selected_spot kwargs
     && match dict_get k_selected_spot kwargs with
        | Some v => truthy (value_of v)
        | None => false
        end
  then
    car_x <- getitem k_car_x kwargs ;;
    spot <- getitem k_selected_spot kwargs ;;
    sx <- py_getattr spot "x" ;;
    dx <- py_binop OpSub car_x sx ;;
    car_y <- getitem k_car_y kwargs ;;
    sy <- py_getattr spot "y" ;;
    dy <- py_binop OpSub car_y sy ;;
    a <- to_float dx ;;
    b <- to_float dy ;;
    Ok (set_facts self1
          (dict_set k_distance_to_spot (FNum (math_hypot a b)) (facts self1)))
  else Ok self1.
End WithMath.

(** The first lines of [infer]: the configuration and the constants are
    stored, and the three facts the rules may read get a default when they
    are missing. *)
Definition prologue (config : ParkingConfig.t) (facts : dict) : dict :=
  let f1 := dict_set k_config (FConfig config) facts in
  let f2 := dict_set k_CAR_LENGTH (FNum CAR_LENGTH) f1 in
  let f3 := dict_set k_CAR_WIDTH (FNum CAR_WIDTH) f2 in
  let f4 := dict_setdefault k_throttle (FNum 0) f3 in
  let f5 := dict_setdefault k_steering (FNum 0) f4 in
  dict_setdefault k_emergency (FBool false) f5.

Definition sorted_rules (self : t) : list Rule.t :=
  sorted_reverse (fun r => priority_value (Rule.priority r))
    (map snd (rules self)).

(** [eval_context]: the configuration and the constants, overwritten by
    the facts. *)
Definition eval_context (config : ParkingConfig.t) (facts : dict) : dict :=
  dict_update
    [(k_config, FConfig config);
     (k_CAR_LENGTH, FNum CAR_LENGTH);
     (k_CAR_WIDTH, FNum CAR_WIDTH)]
    facts.

(** One round of the loop over [actions.items()]: a string with an
    operator character is evaluated, without builtins; when that raises,
    the entry stays the string it was. *)
Definition run_action (context : dict) (a : Actions.entry) : value :=
  match a with
  | Actions.Float q => VNum q
  | Actions.Str src =>
      if has_operator_char (text src) then
        match eval false context (ast src) with
        | Ok v => v
        | Raise _ => VStr (text src)
        end
      else VStr (text src)
  end.

(** The dictionary returned for the rule that fired. *)
Definition apply_rule (config : ParkingConfig.t) (facts : dict) (rule : Rule.t)
  : DecisionInfo.t :=
  let context := eval_context config facts in
  let actions := Rule.actions rule in
  DecisionInfo.Build
    (run_action context (Actions.throttle actions))
    (run_action context (Actions.steering actions))
    (run_action context (Actions.reasoning actions))
    (Actions.emergency actions)
    (Rule.name rule)
    (Rule.description rule).

(** The dictionary returned when no rule fired. *)
Definition no_rule : DecisionInfo.t :=
  DecisionInfo.Build (VNum 0) (VNum 0) (VStr "Ожидание...") false
    "none" "Правило не найдено".

(** [infer]: the decision, and the knowledge base with the facts the
    prologue stored. *)
Definition infer (self : t) : DecisionInfo.t * t :=
  let facts' := prologue (config self) (facts self) in
  let self' := set_facts self facts' in
  match find (fun rule => Rule.evaluate rule facts') (sorted_rules self) with
  | Some rule => (apply_rule (config self) facts' rule, self')
  | None => (no_rule, self')
  end.

End KnowledgeBase.

Module ExpertSystem.
Record log_entry : Type := Log
  { log_phase : string;
    log_decision : DecisionInfo.t;
    log_sensors : list Q;
    log_position : Q * Q;
    log_angle : Q;
    log_rule_applied : string }.

Record t : Type := Build
  { config : ParkingConfig.t;
    knowledge_base : KnowledgeBase.t;
    decision_history : list log_entry }.

Definition __init__ (config : ParkingConfig.t) : t :=
  Build config (KnowledgeBase.__init__ config) [].

Definition sensor_at (sensors : list Q) (i : nat) : result fact_value :=
  match nth_error sensors i with
  | Some q => Ok (FNum q)
  | None => Raise IndexError
  end.

Definition spot_fact (target_spot : option ParkingSpot.t) : fact_value :=
  match target_spot with
  | Some s => FSpot s
  | None => FNone
  end.

Section WithMath.
Context {M : Math}.

Definition make_decision (self : t) (phase : ParkingPhase) (sensors : list Q)
    (car_pos : Q * Q) (car_angle : Q) (target_spot : option ParkingSpot.t)
  : result (DecisionInfo.t * t) :=
  s2 <- sensor_at sensors 2 ;;
  s3 <- sensor_at sensors 3 ;;
  s4 <- sensor_at sensors 4 ;;
  s1 <- sensor_at sensors 1 ;;
  s5 <- sensor_at sensors 5 ;;
  s0 <- sensor_at sensors 0 ;;
  s6 <- sensor_at sensors 6 ;;
  s7 <- sensor_at sensors 7 ;;
  let facts :=
    [ (k_phase, FPhase phase);
      (k_car_x, FNum (fst car_pos));
      (k_car_y, FNum (snd car_pos));
      (k_car_angle, FNum car_angle);
      (k_selected_spot, spot_fact target_spot);
      (k_front_left_sensor, s2);
      (k_front_sensor, s3);
      (k_front_right_sensor, s4);
      (k_left_sensor, s1);
      (k_right_sensor, s5);
      (k_rear_left_sensor, s0);
      (k_rear_right_sensor, s6);
      (k_rear_sensor, s7) ] in
  kb <- KnowledgeBase.update_facts (knowledge_base self) facts ;;
  let (decision, kb') := KnowledgeBase.infer kb in
  Ok (decision,
      Build (config self) kb'
        (decision_history self
         ++ [Log (phase_value phase) decision sensors car_pos car_angle
               (DecisionInfo.rule_applied decision)])).
End WithMath.
End ExpertSystem.

(** ** The vehicle *)

Module Car.
Record t : Type := Build
  { x : Q;
    y : Q;
    angle : Q;
    speed : Q;
    max_speed : Q;
    steering : Q;
    color : Z * Z * Z;
    turning_radius : Q;
    sensors : list Q;
    previous_speed : Q;
    acceleration : Q;
    deceleration : Q }.

Definition __init__ (x y angle : Q) (color : Z * Z * Z) : t :=
  Build x y angle 0 2.5 0 color (CAR_LENGTH * 2.5) (repeat SENSOR_RANGE 8)
    0 0.01 0.02.

Definition sensor_angles : list Q := [-135; -90; -45; -20; 20; 45; 90; 135].

(** The first block of [update]: the speed the car ends the tick with, in
    exact arithmetic.  [limited_speed64], further down, is the same block in
    the double arithmetic of the program. *)
Definition limited_speed (self : t) (dt : Q) : Q :=
  let speed_diff := speed self - previous_speed self in
  if negb (Qeq_bool speed_diff 0) then
    let is_accelerating :=
      Qltb (Qabs (previous_speed self)) (Qabs (speed self)) in
    let max_change :=
      if is_accelerating then acceleration self * dt * 60
      else deceleration self * dt * 60 in
    if Qltb max_change (Qabs speed_diff) then
      if Qltb 0 speed_diff then previous_speed self + max_change
      else previous_speed self - max_change
    else speed self
  else speed self.

Section WithMath.
Context {M : Math}.

(** The second block of [update]: the heading. *)
Definition turned_angle (self : t) (speed' dt : Q) : Q :=
  if Qltb 0.1 (Qabs (steering self)) && Qltb 0.1 (Qabs speed') then
    let turning_circle :=
      turning_radius self / py_max 0.1 (Qabs (steering self) / 30) in
    let angular_speed := speed' / turning_circle in
    let angular_speed :=
      if Qltb (steering self) 0 then - angular_speed else angular_speed in
    angle self + math_degrees angular_speed * dt * 60
  else angle self.

Definition update (self : t) (dt : Q) : t :=
  let speed' := limited_speed self dt in
  let angle' := turned_angle self speed' dt in
  let dx := speed' * math_cos (math_radians angle') * dt * 100 in
  let dy := speed' * math_sin (math_radians angle') * dt * 100 in
  Build (x self + dx) (y self + dy) angle' speed' (max_speed self)
    (steering self) (color self) (turning_radius self) (sensors self)
    speed' (acceleration self) (deceleration self).

Definition get_corners (self : t) : list (Q * Q) :=
  let c := math_cos (math_radians (angle self)) in
  let s := math_sin (math_radians (angle self)) in
  let points :=
    [ (- CAR_LENGTH / 2, - CAR_WIDTH / 2);
      (CAR_LENGTH / 2, - CAR_WIDTH / 2);
      (CAR_LENGTH / 2, CAR_WIDTH / 2);
      (- CAR_LENGTH / 2, CAR_WIDTH / 2) ] in
  map (fun p => (x self + fst p * c - snd p * s,
                 y self + fst p * s + snd p * c)) points.

(** The corners of all obstacles, in the order the two inner loops of
    [update_sensors] visit them. *)
Definition all_corners (obstacles : list t) : list (Q * Q) :=
  flat_map get_corners obstacles.

(** The projection of a corner on the ray, and its distance. *)
Definition proj (self : t) (dx dy : Q) (corner : Q * Q) : Q :=
  (fst corner - x self) * dx + (snd corner - y self) * dy.

Definition dist (self : t) (corner : Q * Q) : Q :=
  math_hypot (fst corner - x self) (snd corner - y self).

(** The body of the innermost loop, on the reading of one sensor. *)
Definition scan_corner (self : t) (dx dy : Q) (reading : Q) (corner : Q * Q)
  : Q :=
  if Qltb 0 (proj self dx dy corner) then
    if Qltb (dist self corner) reading then dist self corner else reading
  else reading.

Definition ray (self : t) (da : Q) : Q * Q :=
  let ang := math_radians (angle self + da) in
  (math_cos ang, math_sin ang).

(** The reading of the sensor at offset [da]: it starts at
    [SENSOR_RANGE] and is lowered corner by corner. *)
Definition scan (self : t) (obstacles : list t) (da : Q) : Q :=
  let (dx, dy) := ray self da in
  fold_left (scan_corner self dx dy) (all_corners obstacles) SENSOR_RANGE.

(** [update_sensors]: the list returned, which is also stored. *)
Definition update_sensors (self : t) (obstacles : list t) : list Q * t :=
  let readings := map (scan self obstacles) sensor_angles in
  (readings,
   Build (x self) (y self) (angle self) (speed self) (max_speed self)
     (steering self) (color self) (turning_radius self) readings
     (previous_speed self) (acceleration self) (deceleration self)).
End WithMath.

Definition set_controls (self : t) (speed' steering' : Q) : t :=
  Build (x self) (y self) (angle self) speed' (max_speed self) steering'
    (color self) (turning_radius self) (sensors self) (previous_speed self)
    (acceleration self) (deceleration self).

Definition set_turning_radius (self : t) (r : Q) : t :=
  Build (x self) (y self) (angle self) (speed self) (max_speed self)
    (steering self) (color self) r (sensors self) (previous_speed self)
    (acceleration self) (deceleration self).
End Car.

(** ** [float()] *)

Definition digit_of (c : ascii) : option Z :=
  let n := Z.of_nat (nat_of_ascii c) in
  if ((48 <=? n) && (n <=? 57))%Z then Some (n - 48)%Z else None.

(** Reads a run of decimal digits: their value, how many there were, and
    the rest of the string. *)
Fixpoint read_digits (s : string) (acc : Z) (count : nat) : Z * nat * string :=
  match s with
  | EmptyString => (acc, count, s)
  | String c rest =>
      match digit_of c with
      | Some d => read_digits rest (10 * acc + d)%Z (S count)
      | None => (acc, count, s)
      end
  end.

(** [float(s)] for a string, on the decimal forms [sign digits . digits];
    every other string is a [ValueError].  (Python also accepts exponents,
    [inf], [nan], underscores and surrounding blanks; no string of the
    rule table has such a form.) *)
Definition float_of_text (s : string) : result Q :=
  let (negative, body) :=
    match s with
    | String "-" rest => (true, rest)
    | String "+" rest => (false, rest)
    | _ => (false, s)
    end in
  let '(int_part, n1, after_int) := read_digits body 0%Z 0%nat in
  let '(all_digits, n2, rest) :=
    match after_int with
    | String "." frac => read_digits frac int_part 0%nat
    | _ => (int_part, 0%nat, after_int)
    end in
  match rest, (n1 + n2)%nat with
  | EmptyString, S _ =>
      let q := Qmake all_digits (Pos.pow 10 (Pos.of_nat n2)) in
      let q := match n2 with O => inject_Z all_digits | S _ => q end in
      Ok (if negative then - q else q)
  | _, _ => Raise ValueError
  end.

Definition py_float (v : value) : result Q :=
  match v with
  | VNum q => Ok q
  | VBool b => Ok (if b then 1 else 0)
  | VStr s => float_of_text s
  | VNone | VSpot _ | VConfig _ | VDirection _ => Raise TypeError
  end.

(** ** The simulation *)

Module ParkingSimulation.
Record t : Type := Build
  { expert_system : ExpertSystem.t;
    parking_spots : list ParkingSpot.t;
    obstacle_cars : list Car.t;
    player_car : Car.t;
    current_phase : ParkingPhase;
    selected_spot : option ParkingSpot.t;
    parked : bool;
    decision_info : option DecisionInfo.t;
    phase_timer : Q;
    current_sensors : list Q;
    rule_applied : string;
    rules_applied_count : list (string * nat) }.

Definition _create_parking_spots : list ParkingSpot.t :=
  map (fun ix : nat * Q =>
         let occupied := Nat.eqb (fst ix) 1 || Nat.eqb (fst ix) 3 in
         ParkingSpot.Build (snd ix) (HEIGHT - 150) 100 120 occupied
           (negb occupied))
    (combine (seq 0 6) [400; 550; 700; 850; 1000; 1150]).

(** [__init__]; the cars [generate_random_cars] draws are an argument. *)
Definition __init__ (random_cars : list Car.t) : t :=
  let config := ParkingConfig.Build 2.5 SENSOR_RANGE 2.5 1.5 FORWARD 30 0.3 in
  Build (ExpertSystem.__init__ config)
    _create_parking_spots
    random_cars
    (Car.set_turning_radius (Car.__init__ 200 (HEIGHT - 200) 0 (0, 100, 255)%Z)
       (CAR_LENGTH * ParkingConfig.turn_radius_ratio config))
    SEARCHING None false None 0 (repeat SENSOR_RANGE 8)
    "Начало движения" [].

Definition set_phase (self : t) (phase : ParkingPhase) (timer : Q)
    (parked' : bool) : t :=
  Build (expert_system self) (parking_spots self) (obstacle_cars self)
    (player_car self) phase (selected_spot self) parked'
    (decision_info self) timer (current_sensors self) (rule_applied self)
    (rules_applied_count self).

(** [handle_phase_transitions].  In the approach phase the spot is read
    without a test, which raises when none is selected. *)
Definition handle_phase_transitions (self : t) : result t :=
  let car := player_car self in
  match current_phase self with
  | SEARCHING =>
      match selected_spot self with
      | Some spot =>
          if Qltb (ParkingSpot.x spot - 50) (Car.x car)
          then Ok (set_phase self APPROACH 0 (parked self))
          else Ok self
      | None => Ok self
      end
  | APPROACH =>
      match selected_spot self with
      | Some spot =>
          if Qltb (ParkingSpot.x spot + CAR_LENGTH * 1.2) (Car.x car)
          then Ok (set_phase self POSITIONING 0 (parked self))
          else Ok self
      | None => Raise AttributeError
      end
  | POSITIONING =>
      if Qltb 3 (phase_timer self)
      then Ok (set_phase self PREPARE_REVERSE 0 (parked self))
      else Ok self
  | PREPARE_REVERSE =>
      if Qltb 0.5 (phase_timer self)
      then Ok (set_phase self REVERSE_RIGHT 0 (parked self))
      else Ok self
  | REVERSE_RIGHT =>
      if Qltb (Car.angle car) (-25)
      then Ok (set_phase self REVERSE_LEFT 0 (parked self))
      else Ok self
  | REVERSE_LEFT =>
      if Qltb (Qabs (Car.angle car)) 5 || Qltb 4 (phase_timer self)
      then Ok (set_phase self FINAL_ADJUST 0 (parked self))
      else Ok self
  | FINAL_ADJUST =>
      if Qltb 3 (phase_timer self)
      then Ok (set_phase self PARKED (phase_timer self) true)
      else Ok self
  | PARKED | ABORTED => Ok self
  end.

(** [phases.index(phase)] *)
Fixpoint index_of (phase : ParkingPhase) (phases : list ParkingPhase) : nat :=
  match phases with
  | [] => 0
  | p :: rest => if phase_eqb phase p then 0 else S (index_of phase rest)
  end.

Definition manual_phase_transition (self : t) : t :=
  let phases := all_phases in
  let current_index := index_of (current_phase self) phases in
  let next_index := ((current_index + 1) mod (List.length phases - 1))%nat in
  set_phase self (nth next_index phases SEARCHING) 0 (parked self).

(** [find_best_parking_spot].  [None] as a distance is [float('inf')]. *)
Definition min_dist_to_obstacle (self : t) (spot : ParkingSpot.t) : option Q :=
  fold_left
    (fun best obs =>
       let d := Qabs (Car.x obs - ParkingSpot.x spot) in
       match best with
       | None => Some d
       | Some b => if Qltb d b then Some d else best
       end)
    (obstacle_cars self) None.

Definition find_best_parking_spot (self : t) : option ParkingSpot.t :=
  let available_spots :=
    filter (fun spot => negb (ParkingSpot.occupied spot)) (parking_spots self) in
  snd
    (fold_left
       (fun (acc : option Q * option ParkingSpot.t) spot =>
          let (max_distance, best_spot) := acc in
          let m := min_dist_to_obstacle self spot in
          let larger :=
            match m, max_distance with
            | None, None => false
            | None, Some _ => true
            | Some _, None => false
            | Some d, Some b => Qltb b d
            end in
          if larger then (m, Some spot) else acc)
       available_spots (Some 0, None)).

Fixpoint count_rule (rule_name : string) (counts : list (string * nat))
  : list (string * nat) :=
  match counts with
  | [] => [(rule_name, 1%nat)]
  | (k, n) :: rest =>
      if String.eqb k rule_name then (k, S n) :: rest
      else (k, n) :: count_rule rule_name rest
  end.

(** The decision applied to the car, as [run] does it: an emergency
    decision stops the car, any other one is converted with [float]. *)
Definition apply_decision (decision : DecisionInfo.t) (car : Car.t)
  : result Car.t :=
  if DecisionInfo.emergency decision then Ok (Car.set_controls car 0 0)
  else
    throttle <- py_float (DecisionInfo.throttle decision) ;;
    steering <- py_float (DecisionInfo.steering decision) ;;
    Ok (Car.set_controls car throttle steering).

Section WithMath.
Context {M : Math}.

(** One pass of the loop of [run], without the event handling and the
    drawing: sensors, spot selection, decision, statistics, motion,
    phase transitions. *)
Definition tick (self : t) (dt : Q) : result t :=
  let timer := phase_timer self + dt in
  let (readings, car1) :=
    Car.update_sensors (player_car self) (obstacle_cars self) in
  let spot :=
    match current_phase self, selected_spot self with
    | SEARCHING, None =>
        if Qltb 0.5 timer && Qltb 250 (Car.x car1)
        then find_best_parking_spot self
        else None
    | _, s => s
    end in
  r <- ExpertSystem.make_decision (expert_system self) (current_phase self)
         readings (Car.x car1, Car.y car1) (Car.angle car1) spot ;;
  let (decision, es) := r in
  let rule_name := DecisionInfo.rule_applied decision in
  car2 <- apply_decision decision car1 ;;
  let car3 := Car.update car2 dt in
  handle_phase_transitions
    (Build es (parking_spots self) (obstacle_cars self) car3
       (current_phase self) spot (parked self) (Some decision) timer
       readings rule_name
       (count_rule rule_name (rules_applied_count self))).
End WithMath.
End ParkingSimulation.

(** ** A rational stand-in for the [math] module

    Used to run the model on concrete inputs: square roots are rounded down
    to six decimals, sine and cosine are Taylor polynomials. *)

Definition hypot_q (a b : Q) : Q :=
  let s := Qred (a * a + b * b) in
  Qmake (Z.sqrt (Qnum s * 1000000000000 / Zpos (Qden s))) 1000000.

Definition radians_q (d : Q) : Q := Qred (d * (355 # 113) / 180).
Definition degrees_q (r : Q) : Q := Qred (r * 180 / (355 # 113)).

Definition cos_q (t : Q) : Q :=
  let u := Qred (t * t) in
  Qred (1 - u / 2 + u * u / 24 - u * u * u / 720 + u * u * u * u / 40320
        - u * u * u * u * u / 3628800).

Definition sin_q (t : Q) : Q :=
  let u := Qred (t * t) in
  Qred (t * (1 - u / 6 + u * u / 120 - u * u * u / 5040
             + u * u * u * u / 362880 - u * u * u * u * u / 39916800)).

Definition rational_math : Math :=
  {| math_hypot := hypot_q;
     math_cos := cos_q;
     math_sin := sin_q;
     math_radians := radians_q;
     math_degrees := degrees_q |}.

(** ** Vocabulary of the statements *)

Definition priority_eqb (p q : RulePriority) : bool :=
  (priority_value p =? priority_value q)%Z.

(** The rules of one priority, in declaration order. *)
Definition with_priority (p : RulePriority) (l : list Rule.t) : list Rule.t :=
  filter (fun r => priority_eqb (Rule.priority r) p) l.

Definition rule_key (r : Rule.t) : Z := priority_value (Rule.priority r).

(** [references id e]: the name [id] is written somewhere in [e]. *)
Fixpoint references (id : string) (e : expr) : bool :=
  match e with
  | Name x => String.eqb x id
  | Constant _ | Corrupt => false
  | Attribute e' _ | USub e' | CallAbs e' | IsNone e' | IsNotNone e' =>
      references id e'
  | BinOp _ l r | Compare _ l r | BoolOr l r =>
      references id l || references id r
  end.

(** [reads id e]: the name [id] is written in [e] outside the right operand
    of every [or], where evaluation cannot skip it. *)
Fixpoint reads (id : string) (e : expr) : bool :=
  match e with
  | Name x => String.eqb x id
  | Constant _ | Corrupt => false
  | Attribute e' _ | USub e' | CallAbs e' | IsNone e' | IsNotNone e' =>
      reads id e'
  | BinOp _ l r | Compare _ l r => reads id l || reads id r
  | BoolOr l _ => reads id l
  end.

(** [blocked id e]: evaluation cannot get past [e] while [id] is unbound;
    it meets the name [id], or a piece of corrupt text, in a place it cannot
    skip. *)
Fixpoint blocked (id : string) (e : expr) : bool :=
  match e with
  | Name x => String.eqb x id
  | Corrupt => true
  | Constant _ => false
  | Attribute e' _ | USub e' | CallAbs e' | IsNone e' | IsNotNone e' =>
      blocked id e'
  | BinOp _ l r | Compare _ l r => blocked id l || blocked id r
  | BoolOr l _ => blocked id l
  end.

Section SensorVocabulary.
Context {M : Math}.

(** The obstacle corners with a positive projection on the ray at offset
    [da], in scanning order. *)
Definition ahead (self : Car.t) (obstacles : list Car.t) (da : Q)
  : list (Q * Q) :=
  filter (fun corner =>
            Qltb 0 (Car.proj self (fst (Car.ray self da)) (snd (Car.ray self da))
                      corner))
    (Car.all_corners obstacles).
End SensorVocabulary.

(** [clean e]: no fact name is a proper part of an identifier or of an
    attribute name of [e], so that textual replacement in [e] touches whole
    identifiers only. *)
Definition name_ok (id : string) : bool :=
  forallb (fun k => implb (contains (key_name k) id || ends_with (key_name k) id)
                      (String.eqb id (key_name k)))
    all_keys.

Definition attr_ok (attr : string) : bool :=
  forallb (fun k => negb (contains (key_name k) attr)) all_keys.

Fixpoint clean (e : expr) : bool :=
  match e with
  | Constant _ | Corrupt => true
  | Name id => name_ok id
  | Attribute e' attr => clean e' && attr_ok attr
  | USub e' | CallAbs e' | IsNone e' | IsNotNone e' => clean e'
  | BinOp _ l r | Compare _ l r | BoolOr l r => clean l && clean r
  end.

(** [resolves context e e']: [e'] is [e] with some of its names replaced
    by the value the store binds them to. *)
Inductive resolves (context : dict) : expr -> expr -> Prop :=
| res_constant v : resolves context (Constant v) (Constant v)
| res_name id : resolves context (Name id) (Name id)
| res_bound id v :
    lookup_name id context = Some v ->
    resolves context (Name id) (Constant (value_of v))
| res_attribute e e' attr :
    resolves context e e' ->
    resolves context (Attribute e attr) (Attribute e' attr)
| res_usub e e' : resolves context e e' -> resolves context (USub e) (USub e')
| res_abs e e' :
    resolves context e e' -> resolves context (CallAbs e) (CallAbs e')
| res_binop op l l' r r' :
    resolves context l l' -> resolves context r r' ->
    resolves context (BinOp op l r) (BinOp op l' r')
| res_compare op l l' r r' :
    resolves context l l' -> resolves context r r' ->
    resolves context (Compare op l r) (Compare op l' r')
| res_is_none e e' :
    resolves context e e' -> resolves context (IsNone e) (IsNone e')
| res_is_not_none e e' :
    resolves context e e' -> resolves context (IsNotNone e) (IsNotNone e')
| res_or l l' r r' :
    resolves context l l' -> resolves context r r' ->
    resolves context (BoolOr l r) (BoolOr l' r')
| res_corrupt : resolves context Corrupt Corrupt.

(** [literals_clean e]: no fact name occurs inside a string literal of [e]. *)
Fixpoint literals_clean (e : expr) : bool :=
  match e with
  | Constant (VStr s) => forallb (fun k => negb (contains (key_name k) s)) all_keys
  | Constant _ | Name _ | Corrupt => true
  | Attribute e' _ | USub e' | CallAbs e' | IsNone e' | IsNotNone e' =>
      literals_clean e'
  | BinOp _ l r | Compare _ l r | BoolOr l r =>
      literals_clean l && literals_clean r
  end.

(** ** Vocabulary of the further properties *)

(** The place of a phase in the declaration order. *)
Definition phase_index (p : ParkingPhase) : nat :=
  ParkingSimulation.index_of p all_phases.

(** Distances with [None] as infinity. *)
Definition dist_le (a b : option Q) : Prop :=
  match a, b with
  | _, None => True
  | None, Some _ => False
  | Some x, Some y => x <= y
  end.

Definition dist_positive (a : option Q) : Prop :=
  match a with
  | None => True
  | Some x => 0 < x
  end.

(** The count the statistics hold for a rule name, and their total. *)
Fixpoint count_of (rule_name : string) (counts : list (string * nat)) : nat :=
  match counts with
  | [] => 0
  | (k, n) :: rest =>
      if String.eqb k rule_name then n else count_of rule_name rest
  end.

Definition total_count (counts : list (string * nat)) : nat :=
  fold_right (fun kn acc => (snd kn + acc)%nat) 0%nat counts.

(** The last condition of the rule that announces the reverse manoeuvre,
    as written and with its name cut by a replacement. *)
Definition front_right_intact : expr :=
  Compare OpLt (Name "front_right_sensor") (num 120).
Definition front_right_broken : expr := Compare OpLt Corrupt (num 120).

(** The passes of the loop of [run] over the time steps the clock
    returned, when no key is pressed. *)
Fixpoint run_ticks {M : Math} (self : ParkingSimulation.t) (dts : list Q)
  : result ParkingSimulation.t :=
  match dts with
  | [] => Ok self
  | dt :: rest =>
      self' <- ParkingSimulation.tick self dt ;;
      run_ticks self' rest
  end.

(** A store as [make_decision] hands it to the rules: distinct keys, the
    configuration and the two constants, a phase, a spot or [None], and
    numbers under the names the table computes with. *)
Record loop_store (config : ParkingConfig.t) (facts : dict) : Prop := LoopStore
  { store_keys : NoDup (map fst facts);
    store_config : dict_get k_config facts = Some (FConfig config);
    store_length : dict_get k_CAR_LENGTH facts = Some (FNum CAR_LENGTH);
    store_width : dict_get k_CAR_WIDTH facts = Some (FNum CAR_WIDTH);
    store_phase : exists p, dict_get k_phase facts = Some (FPhase p);
    store_spot :
      dict_get k_selected_spot facts = Some FNone
      \/ exists s, dict_get k_selected_spot facts = Some (FSpot s);
    store_numbers :
      forall k,
        In k [k_car_x; k_car_y; k_car_angle; k_front_sensor; k_left_sensor;
              k_right_sensor; k_throttle] ->
        exists q, dict_get k facts = Some (FNum q) }.

(** The throttle fact of a store is missing or holds the number 0. *)
Definition throttle_idle (facts : dict) : Prop :=
  dict_get k_throttle facts = None \/ dict_get k_throttle facts = Some (FNum 0).

(** What the passes of the loop keep true of the simulation. *)
Definition loop_invariant (self : ParkingSimulation.t) : Prop :=
  let kb := ExpertSystem.knowledge_base (ParkingSimulation.expert_system self) in
  KnowledgeBase.rules kb = KnowledgeBase._build_rules
  /\ NoDup (map fst (KnowledgeBase.facts kb))
  /\ throttle_idle (KnowledgeBase.facts kb)
  /\ (ParkingSimulation.current_phase self = APPROACH ->
      ParkingSimulation.selected_spot self <> None).

(** A log entry that records neither an emergency decision nor one of the
    two rules that react to an obstacle ahead. *)
Definition calm_entry (entry : ExpertSystem.log_entry) : Prop :=
  DecisionInfo.emergency (ExpertSystem.log_decision entry) = false
  /\ ExpertSystem.log_rule_applied entry <> Rule.name KnowledgeBase.emergency_stop
  /\ ExpertSystem.log_rule_applied entry <> Rule.name KnowledgeBase.slow_down.

(** ** Key presses

    The loop of [run] adds the time step to the phase timer, handles the
    key presses, and then runs the rest of the pass on the timer as the
    handlers left it.  [pass_from] is that rest, with the timer as an
    argument; [pass], the pass in which the space bar was pressed
    [presses] times and no other key. *)
Section KeyPresses.
Context {M : Math}.

Definition pass_from (self : ParkingSimulation.t) (dt timer : Q)
  : result ParkingSimulation.t :=
  let (readings, car1) :=
    Car.update_sensors (ParkingSimulation.player_car self)
      (ParkingSimulation.obstacle_cars self) in
  let spot :=
    match ParkingSimulation.current_phase self,
          ParkingSimulation.selected_spot self with
    | SEARCHING, None =>
        if Qltb 0.5 timer && Qltb 250 (Car.x car1)
        then ParkingSimulation.find_best_parking_spot self
        else None
    | _, s => s
    end in
  r <- ExpertSystem.make_decision (ParkingSimulation.expert_system self)
         (ParkingSimulation.current_phase self) readings
         (Car.x car1, Car.y car1) (Car.angle car1) spot ;;
  let (decision, es) := r in
  let rule_name := DecisionInfo.rule_applied decision in
  car2 <- ParkingSimulation.apply_decision decision car1 ;;
  let car3 := Car.update car2 dt in
  ParkingSimulation.handle_phase_transitions
    (ParkingSimulation.Build es (ParkingSimulation.parking_spots self)
       (ParkingSimulation.obstacle_cars self) car3
       (ParkingSimulation.current_phase self) spot
       (ParkingSimulation.parked self) (Some decision) timer readings rule_name
       (ParkingSimulation.count_rule rule_name
          (ParkingSimulation.rules_applied_count self))).

Definition pass (self : ParkingSimulation.t) (dt : Q) (presses : nat)
  : result ParkingSimulation.t :=
  let self1 :=
    ParkingSimulation.set_phase self (ParkingSimulation.current_phase self)
      (ParkingSimulation.phase_timer self + dt) (ParkingSimulation.parked self) in
  let self2 := Nat.iter presses ParkingSimulation.manual_phase_transition self1 in
  pass_from self2 dt (ParkingSimulation.phase_timer self2).
End KeyPresses.

(** ** Double precision

    The speeds of the program are IEEE 754 doubles.  Where rounding
    matters they are modelled by the rationals that are doubles, and an
    operation of the program by the exact operation followed by
    [round64], rounding to the nearest double, ties to even.  Results
    beyond the largest double (overflow to inf) are outside the model: the
    exponent of [round64] is not bounded above. *)

(** The integer part of the binary logarithm of a positive rational. *)
Definition ilog2 (x : Q) : Z :=
  let k := (Z.log2 (Qnum x) - Z.log2 (Zpos (Qden x)))%Z in
  if Qle_bool (2 ^ k) x then k else (k - 1)%Z.

(** Rounding to the nearest integer, ties to even. *)
Definition rne (t : Q) : Z :=
  let f := Qfloor t in
  match Qcompare (t - inject_Z f) (1 # 2) with
  | Lt => f
  | Gt => (f + 1)%Z
  | Eq => if Z.even f then f else (f + 1)%Z
  end.

(** The exponent of the binade of [x], not below that of the subnormal
    numbers, and the spacing of the doubles in that binade. *)
Definition exponent64 (x : Q) : Z := Z.max (-1022) (ilog2 x).

Definition ulp64 (x : Q) : Q := 2 ^ (exponent64 x - 52).

Definition round64_pos (x : Q) : Q :=
  inject_Z (rne (x / ulp64 x)) * ulp64 x.

Definition round64 (x : Q) : Q :=
  match Qnum x with
  | Z0 => 0
  | Zpos _ => round64_pos x
  | Zneg _ => - round64_pos (- x)
  end.

(** A bound on the error of one rounding, at a value or a result of
    magnitude [m]: half the spacing of the doubles there. *)
Definition rounding_error (m : Q) : Q := m * 2 ^ (-53) + 2 ^ (-1075).

(** A double of moderate size: so far below the largest double that no
    operation of the limiter overflows. *)
Definition is_double (x : Q) : Prop := round64 x == x /\ Qabs x <= 2 ^ 500.

(** The operations of the program on doubles. *)
Definition fadd (a b : Q) : Q := round64 (a + b).
Definition fsub (a b : Q) : Q := round64 (a - b).
Definition fmul (a b : Q) : Q := round64 (a * b).

(** The first block of [Car.update] as the program computes it: the
    speed the car ends the tick with, every operation rounded.  The
    absolute values and the comparisons are exact on doubles. *)
Definition limited_speed64 (self : Car.t) (dt : Q) : Q :=
  let speed_diff := fsub (Car.speed self) (Car.previous_speed self) in
  if negb (Qeq_bool speed_diff 0) then
    let is_accelerating :=
      Qltb (Qabs (Car.previous_speed self)) (Qabs (Car.speed self)) in
    let max_change :=
      if is_accelerating then fmul (fmul (Car.acceleration self) dt) 60
      else fmul (fmul (Car.deceleration self) dt) 60 in
    if Qltb max_change (Qabs speed_diff) then
      if Qltb 0 speed_diff then fadd (Car.previous_speed self) max_change
      else fsub (Car.previous_speed self) max_change
    else Car.speed self
  else Car.speed self.

(** The speed over [n] passes of the loop that command the same speed:
    each pass sets [speed], and [update] stores the limited speed as the
    speed and as the previous-tick speed. *)
Definition limited_pass (commanded dt : Q) (self : Car.t) : Car.t :=
  let new := limited_speed64 (Car.set_controls self commanded (Car.steering self))
               dt in
  Car.Build (Car.x self) (Car.y self) (Car.angle self) new (Car.max_speed self)
    (Car.steering self) (Car.color self) (Car.turning_radius self)
    (Car.sensors self) new (Car.acceleration self) (Car.deceleration self).

(** * Properties *)

(** ** Keys and dictionaries *)

Lemma key_eqb_eq (a b : fact_key) : key_eqb a b = true <-> a = b.
Proof.
  split.
  - destruct a, b; intro H; try reflexivity; vm_compute in H; discriminate H.
  - intro H; subst b; destruct a; reflexivity.
Qed.

Lemma key_eqb_refl (a : fact_key) : key_eqb a a = true.
Proof. apply key_eqb_eq; reflexivity. Qed.

Lemma key_eqb_neq (a b : fact_key) : a <> b -> key_eqb a b = false.
Proof.
  intro H; destruct (key_eqb a b) eqn:E; [|reflexivity].
  apply key_eqb_eq in E; contradiction.
Qed.

Lemma key_of_name_key (k : fact_key) : key_of_name (key_name k) = Some k.
Proof. destruct k; reflexivity. Qed.

Lemma lookup_name_key (k : fact_key) (d : dict) :
  lookup_name (key_name k) d = dict_get k d.
Proof. unfold lookup_name; rewrite key_of_name_key; reflexivity. Qed.

Lemma dict_get_set (k k' : fact_key) (v : fact_value) (d : dict) :
  dict_get k (dict_set k' v d) = if key_eqb k k' then Some v else dict_get k d.
Proof.
  induction d as [|[k0 v0] d IH]; simpl.
  - destruct (key_eqb k k'); reflexivity.
  - destruct (key_eqb k' k0) eqn:E0; simpl.
    + apply key_eqb_eq in E0; subst k0.
      destruct (key_eqb k k'); reflexivity.
    + destruct (key_eqb k k0) eqn:E1.
      * apply key_eqb_eq in E1; subst k0.
        destruct (key_eqb k k') eqn:E2; [|reflexivity].
        apply key_eqb_eq in E2; subst k'.
        rewrite key_eqb_refl in E0; discriminate E0.
      * exact IH.
Qed.

Lemma dict_get_set_same (k : fact_key) (v : fact_value) (d : dict) :
  dict_get k (dict_set k v d) = Some v.
Proof. rewrite dict_get_set, key_eqb_refl; reflexivity. Qed.

Lemma dict_get_set_other (k k' : fact_key) (v : fact_value) (d : dict) :
  k <> k' -> dict_get k (dict_set k' v d) = dict_get k d.
Proof. intro H; rewrite dict_get_set, (key_eqb_neq _ _ H); reflexivity. Qed.

Lemma dict_get_setdefault (k k' : fact_key) (v : fact_value) (d : dict) :
  dict_get k (dict_setdefault k' v d)
  = match dict_get k d with
    | Some w => Some w
    | None => if key_eqb k k' then Some v else None
    end.
Proof.
  unfold dict_setdefault, dict_mem.
  destruct (dict_get k' d) as [w|] eqn:E.
  - destruct (dict_get k d) as [u|] eqn:F; [reflexivity|].
    destruct (key_eqb k k') eqn:G; [|reflexivity].
    apply key_eqb_eq in G; subst k'; congruence.
  - rewrite dict_get_set.
    destruct (key_eqb k k') eqn:G.
    + apply key_eqb_eq in G; subst k'; rewrite E; reflexivity.
    + destruct (dict_get k d); reflexivity.
Qed.

Lemma dict_set_keys (k : fact_key) (v : fact_value) (d : dict) :
  map fst (dict_set k v d)
  = if dict_mem k d then map fst d else map fst d ++ [k].
Proof.
  unfold dict_mem.
  induction d as [|[k0 v0] d IH]; simpl; [reflexivity|].
  destruct (key_eqb k k0) eqn:E; simpl.
  - apply key_eqb_eq in E; subst k0; reflexivity.
  - rewrite IH; destruct (dict_get k d); reflexivity.
Qed.

Lemma dict_get_none_keys (k : fact_key) (d : dict) :
  dict_get k d = None <-> ~ In k (map fst d).
Proof.
  induction d as [|[k0 v0] d IH]; simpl.
  - split; [intros _ []|reflexivity].
  - destruct (key_eqb k k0) eqn:E.
    + apply key_eqb_eq in E; subst k0.
      split; [discriminate|intro H; exfalso; apply H; left; reflexivity].
    + rewrite IH; split.
      * intros H [H1|H1]; [subst k0; rewrite key_eqb_refl in E; discriminate E|].
        exact (H H1).
      * intros H H1; apply H; right; exact H1.
Qed.

Lemma dict_set_NoDup (k : fact_key) (v : fact_value) (d : dict) :
  NoDup (map fst d) -> NoDup (map fst (dict_set k v d)).
Proof.
  intro H; rewrite dict_set_keys; unfold dict_mem.
  destruct (dict_get k d) eqn:E; [exact H|].
  apply dict_get_none_keys in E.
  apply NoDup_app; [exact H|repeat constructor; intros []|].
  intros x Hx [Hk|[]]; subst x; exact (E Hx).
Qed.

Lemma dict_setdefault_NoDup (k : fact_key) (v : fact_value) (d : dict) :
  NoDup (map fst d) -> NoDup (map fst (dict_setdefault k v d)).
Proof.
  intro H; unfold dict_setdefault.
  destruct (dict_mem k d); [exact H|apply dict_set_NoDup; exact H].
Qed.

Lemma dict_get_In (k : fact_key) (v : fact_value) (d : dict) :
  NoDup (map fst d) -> In (k, v) d -> dict_get k d = Some v.
Proof.
  induction d as [|[k0 v0] d IH]; simpl; intros Hnd Hin; [contradiction|].
  inversion Hnd as [|? ? Hnot Hnd']; subst.
  destruct Hin as [Heq|Hin].
  - inversion Heq; subst; rewrite key_eqb_refl; reflexivity.
  - destruct (key_eqb k k0) eqn:E.
    + apply key_eqb_eq in E; subst k0.
      exfalso; apply Hnot; apply (in_map fst) in Hin; exact Hin.
    + apply IH; assumption.
Qed.

(** ** Sorting by priority *)

Section SortedReverse.
Context {A : Type} (key : A -> Z).

Lemma insert_desc_front (a : A) (l : list A) :
  Forall (fun b => (key b <= key a)%Z) l -> insert_desc key a l = a :: l.
Proof.
  intro H; destruct l as [|b l]; [reflexivity|].
  inversion H; subst; simpl.
  destruct (Z.ltb_spec (key a) (key b)); [lia|reflexivity].
Qed.

Lemma insert_desc_skip (a : A) (l1 l2 : list A) :
  Forall (fun b => (key a < key b)%Z) l1 ->
  insert_desc key a (l1 ++ l2) = l1 ++ insert_desc key a l2.
Proof.
  induction 1 as [|b l1 Hb _ IH]; simpl; [reflexivity|].
  destruct (Z.ltb_spec (key a) (key b)); [|lia].
  rewrite IH; reflexivity.
Qed.

Lemma insert_desc_In (a b : A) (l : list A) :
  In b (insert_desc key a l) <-> b = a \/ In b l.
Proof.
  induction l as [|c l IH]; simpl.
  - intuition auto.
  - destruct (key a <? key c)%Z; simpl; [rewrite IH|]; intuition auto.
Qed.

Lemma sorted_reverse_In (b : A) (l : list A) :
  In b (sorted_reverse key l) <-> In b l.
Proof.
  induction l as [|a l IH]; simpl; [reflexivity|].
  rewrite insert_desc_In, IH; intuition auto.
Qed.
End SortedReverse.

Lemma priority_eqb_eq (p q : RulePriority) : priority_eqb p q = true <-> p = q.
Proof. destruct p, q; vm_compute; split; congruence. Qed.

Lemma with_priority_key (p : RulePriority) (l : list Rule.t) :
  Forall (fun r => rule_key r = priority_value p) (with_priority p l).
Proof.
  apply Forall_forall; intros r Hr.
  apply filter_In in Hr; destruct Hr as [_ Hr].
  apply priority_eqb_eq in Hr; unfold rule_key; rewrite Hr; reflexivity.
Qed.

Lemma sorted_reverse_priority (l : list Rule.t) :
  sorted_reverse rule_key l
  = with_priority HIGH l ++ with_priority MEDIUM l ++ with_priority LOW l.
Proof.
  induction l as [|a l IH]; [reflexivity|].
  simpl sorted_reverse; fold (sorted_reverse rule_key l); rewrite IH.
  pose proof (with_priority_key HIGH l) as HH.
  pose proof (with_priority_key MEDIUM l) as HM.
  pose proof (with_priority_key LOW l) as HL.
  unfold with_priority at 4 5 6; simpl filter.
  fold (with_priority HIGH l) (with_priority MEDIUM l) (with_priority LOW l).
  unfold rule_key in *.
  destruct (Rule.priority a) eqn:Ea; simpl.
  - apply insert_desc_front.
    repeat (apply Forall_app; split);
      (eapply Forall_impl; [|eassumption]); simpl; intros r Hr;
      rewrite Hr, Ea; simpl; lia.
  - rewrite insert_desc_skip.
    + f_equal; apply insert_desc_front.
      apply Forall_app; split;
        (eapply Forall_impl; [|eassumption]); simpl; intros r Hr;
        rewrite Hr, Ea; simpl; lia.
    + eapply Forall_impl; [|exact HH]; simpl; intros r Hr.
      rewrite Hr, Ea; simpl; lia.
  - rewrite insert_desc_skip.
    + f_equal; rewrite insert_desc_skip.
      * f_equal; apply insert_desc_front.
        eapply Forall_impl; [|exact HL]; simpl; intros r Hr.
        rewrite Hr, Ea; simpl; lia.
      * eapply Forall_impl; [|exact HM]; simpl; intros r Hr.
        rewrite Hr, Ea; simpl; lia.
    + eapply Forall_impl; [|exact HH]; simpl; intros r Hr.
      rewrite Hr, Ea; simpl; lia.
Qed.

(** ** Rule selection *)

Lemma find_app {A : Type} (f : A -> bool) (l1 l2 : list A) :
  find f (l1 ++ l2)
  = match find f l1 with
    | Some a => Some a
    | None => find f l2
    end.
Proof.
  induction l1 as [|a l1 IH]; simpl; [reflexivity|].
  destruct (f a); [reflexivity|exact IH].
Qed.

Lemma find_exists {A : Type} (f : A -> bool) (l : list A) (a : A) :
  In a l -> f a = true -> exists b, find f l = Some b.
Proof.
  intros Hin Hf; destruct (find f l) as [b|] eqn:E; [exists b; reflexivity|].
  rewrite (find_none f l E a Hin) in Hf; discriminate Hf.
Qed.

(** [find] returns the first element that satisfies the test. *)
Lemma find_first {A : Type} (f : A -> bool) (l : list A) (a : A) :
  find f l = Some a ->
  exists l1 l2, l = l1 ++ a :: l2 /\ f a = true /\ Forall (fun b => f b = false) l1.
Proof.
  induction l as [|b l IH]; simpl; [discriminate|].
  destruct (f b) eqn:E.
  - intro H; inversion H; subst b.
    exists [], l; repeat split; [exact E|constructor].
  - intro H; destruct (IH H) as (l1 & l2 & -> & Ha & Hl1).
    exists (b :: l1), l2; repeat split; [exact Ha|constructor; assumption].
Qed.

Lemma sorted_rules_order (self : KnowledgeBase.t) :
  let declared := map snd (KnowledgeBase.rules self) in
  KnowledgeBase.sorted_rules self
  = with_priority HIGH declared ++ with_priority MEDIUM declared
    ++ with_priority LOW declared.
Proof. apply sorted_reverse_priority. Qed.

Lemma infer_selected (self : KnowledgeBase.t) (rule : Rule.t) :
  let facts' := KnowledgeBase.prologue (KnowledgeBase.config self)
                  (KnowledgeBase.facts self) in
  find (fun r => Rule.evaluate r facts') (KnowledgeBase.sorted_rules self)
  = Some rule ->
  KnowledgeBase.infer self
  = (KnowledgeBase.apply_rule (KnowledgeBase.config self) facts' rule,
     KnowledgeBase.set_facts self facts').
Proof. intros facts' H; unfold KnowledgeBase.infer; fold facts'; rewrite H; reflexivity. Qed.

Lemma infer_unselected (self : KnowledgeBase.t) :
  let facts' := KnowledgeBase.prologue (KnowledgeBase.config self)
                  (KnowledgeBase.facts self) in
  find (fun r => Rule.evaluate r facts') (KnowledgeBase.sorted_rules self) = None ->
  KnowledgeBase.infer self
  = (KnowledgeBase.no_rule, KnowledgeBase.set_facts self facts').
Proof. intros facts' H; unfold KnowledgeBase.infer; fold facts'; rewrite H; reflexivity. Qed.

(** Some declared rule matches: [infer] applies a declared rule that
    matches. *)
Lemma infer_some (self : KnowledgeBase.t) (rule : Rule.t) :
  let facts' := KnowledgeBase.prologue (KnowledgeBase.config self)
                  (KnowledgeBase.facts self) in
  In rule (map snd (KnowledgeBase.rules self)) ->
  Rule.evaluate rule facts' = true ->
  exists chosen,
    In chosen (map snd (KnowledgeBase.rules self))
    /\ Rule.evaluate chosen facts' = true
    /\ KnowledgeBase.infer self
       = (KnowledgeBase.apply_rule (KnowledgeBase.config self) facts' chosen,
          KnowledgeBase.set_facts self facts').
Proof.
  intros facts' Hin Hev.
  assert (Hs : In rule (KnowledgeBase.sorted_rules self))
    by (apply sorted_reverse_In; exact Hin).
  destruct (find_exists (fun r => Rule.evaluate r facts') _ _ Hs Hev) as [c Hc].
  exists c; destruct (find_some _ _ Hc) as [Hc1 Hc2].
  repeat split; [apply sorted_reverse_In in Hc1; exact Hc1|exact Hc2|].
  apply infer_selected; exact Hc.
Qed.

(** C1.  For every knowledge base (any rule table, any fact set), [infer]
    walks the rules in the order HIGH, then MEDIUM, then LOW, each group in
    declaration order, and applies the first rule of that order that
    matches; when no rule matches it returns the fallback.  In particular,
    as soon as some HIGH rule matches, the rule applied is a HIGH rule,
    wherever the matching MEDIUM and LOW rules are declared. *)
Theorem infer_priority_then_declaration_order (self : KnowledgeBase.t) :
  let facts' := KnowledgeBase.prologue (KnowledgeBase.config self)
                  (KnowledgeBase.facts self) in
  let declared := map snd (KnowledgeBase.rules self) in
  let order := with_priority HIGH declared ++ with_priority MEDIUM declared
               ++ with_priority LOW declared in
  let matches := fun r => Rule.evaluate r facts' in
  KnowledgeBase.sorted_rules self = order
  /\ fst (KnowledgeBase.infer self)
     = match find matches order with
       | Some rule => KnowledgeBase.apply_rule (KnowledgeBase.config self) facts' rule
       | None => KnowledgeBase.no_rule
       end
  /\ (forall rule, find matches order = Some rule ->
        exists before after,
          order = before ++ rule :: after
          /\ matches rule = true
          /\ Forall (fun r => matches r = false) before)
  /\ (forall high, In high declared -> Rule.priority high = HIGH ->
        matches high = true ->
        exists rule,
          find matches order = Some rule
          /\ In rule declared
          /\ Rule.priority rule = HIGH
          /\ fst (KnowledgeBase.infer self)
             = KnowledgeBase.apply_rule (KnowledgeBase.config self) facts' rule).
Proof.
  intros facts' declared order matches.
  assert (Hord : KnowledgeBase.sorted_rules self = order)
    by apply sorted_rules_order.
  assert (Hinf : fst (KnowledgeBase.infer self)
                 = match find matches order with
                   | Some rule =>
                       KnowledgeBase.apply_rule (KnowledgeBase.config self) facts' rule
                   | None => KnowledgeBase.no_rule
                   end).
  { unfold KnowledgeBase.infer; fold facts'; rewrite Hord; fold matches.
    destruct (find matches order); reflexivity. }
  split; [exact Hord|]. split; [exact Hinf|]. split.
  - intros rule Hf; apply find_first; exact Hf.
  - intros high Hin Hp Hm.
    assert (Hh : In high (with_priority HIGH declared)).
    { apply filter_In; split; [exact Hin|]. apply priority_eqb_eq; exact Hp. }
    destruct (find_exists matches _ _ Hh Hm) as [rule Hrule].
    exists rule.
    assert (Hfind : find matches order = Some rule).
    { unfold order; rewrite find_app, Hrule; reflexivity. }
    destruct (find_some _ _ Hrule) as [Hr1 _].
    apply filter_In in Hr1; destruct Hr1 as [Hr1 Hr2].
    apply priority_eqb_eq in Hr2.
    repeat split; try assumption.
    rewrite Hinf, Hfind; reflexivity.
Qed.

(** C9.  When no rule of the table matches the facts, [infer] returns the
    neutral decision: throttle 0, steering 0, the waiting message as
    reasoning, no emergency, and "none" as the rule applied. *)
Theorem infer_no_rule_matched (self : KnowledgeBase.t) :
  let facts' := KnowledgeBase.prologue (KnowledgeBase.config self)
                  (KnowledgeBase.facts self) in
  (forall rule, In rule (map snd (KnowledgeBase.rules self)) ->
                Rule.evaluate rule facts' = false) ->
  let decision := fst (KnowledgeBase.infer self) in
  decision = KnowledgeBase.no_rule
  /\ DecisionInfo.throttle decision = VNum 0
  /\ DecisionInfo.steering decision = VNum 0
  /\ DecisionInfo.reasoning decision = VStr "Ожидание..."
  /\ DecisionInfo.emergency decision = false
  /\ DecisionInfo.rule_applied decision = "none".
Proof.
  intros facts' Hnone decision.
  assert (Hf : find (fun r => Rule.evaluate r facts')
                 (KnowledgeBase.sorted_rules self) = None).
  { destruct (find _ _) as [r|] eqn:E; [|reflexivity].
    destruct (find_some _ _ E) as [Hin Hev].
    apply sorted_reverse_In in Hin. rewrite (Hnone r Hin) in Hev; discriminate Hev. }
  assert (Hd : decision = KnowledgeBase.no_rule).
  { unfold decision; rewrite (infer_unselected self Hf); reflexivity. }
  rewrite Hd; repeat split.
Qed.

(** A knowledge base that was never given a fact: every condition of the
    table reads a fact, so no rule matches. *)
Lemma infer_no_rule_matched_witness :
  let self := KnowledgeBase.__init__ ParkingConfig.default in
  let decision := fst (KnowledgeBase.infer self) in
  decision = KnowledgeBase.no_rule
  /\ DecisionInfo.throttle decision = VNum 0
  /\ DecisionInfo.steering decision = VNum 0
  /\ DecisionInfo.reasoning decision = VStr "Ожидание..."
  /\ DecisionInfo.emergency decision = false
  /\ DecisionInfo.rule_applied decision = "none".
Proof.
  apply (infer_no_rule_matched (KnowledgeBase.__init__ ParkingConfig.default)).
  intros rule Hin.
  assert (H : forallb
                (fun r => negb (Rule.evaluate r
                     (KnowledgeBase.prologue ParkingConfig.default [])))
                (map snd KnowledgeBase._build_rules) = true)
    by (vm_compute; reflexivity).
  rewrite forallb_forall in H. specialize (H rule Hin).
  apply negb_true_iff in H; exact H.
Defined.

(** ** Totality on the default fact sets *)

Lemma table_rule_names (rule : Rule.t) :
  In rule (map snd KnowledgeBase._build_rules) -> Rule.name rule <> "none".
Proof.
  intro Hin.
  assert (H : forallb (fun r => negb (String.eqb (Rule.name r) "none"))
                (map snd KnowledgeBase._build_rules) = true)
    by (vm_compute; reflexivity).
  rewrite forallb_forall in H. specialize (H rule Hin).
  apply negb_true_iff in H. apply String.eqb_neq; exact H.
Qed.

Lemma default_stop_declared :
  In KnowledgeBase.default_stop (map snd KnowledgeBase._build_rules).
Proof. do 13 right; left; reflexivity. Qed.

Lemma parking_complete_declared :
  In KnowledgeBase.parking_complete (map snd KnowledgeBase._build_rules).
Proof. do 14 right; left; reflexivity. Qed.

Lemma phase_eq_dec (p q : ParkingPhase) : {p = q} + {p <> q}.
Proof. decide equality. Defined.

(** Unfolds [make_decision] down to its call of [infer], on facts whose keys
    are known. *)
Ltac run_make_decision :=
  unfold ExpertSystem.make_decision;
  cbn [bind repeat ExpertSystem.sensor_at nth_error];
  cbv [KnowledgeBase.update_facts ExpertSystem.knowledge_base
       ExpertSystem.__init__ KnowledgeBase.__init__ KnowledgeBase.set_facts
       KnowledgeBase.facts dict_update fold_left dict_set fst snd dict_mem
       dict_get key_eqb key_name String.eqb Ascii.eqb Bool.eqb andb
       ExpertSystem.spot_fact value_of truthy bind KnowledgeBase.config
       KnowledgeBase.rules KnowledgeBase.initialized].

Section Totality.
Context {M : Math}.

(** C2.  For each of the nine phases, [make_decision] on a fresh expert
    system with all eight sensors at [SENSOR_RANGE] and no selected spot
    (position and heading arbitrary) evaluates the rules on a fact set
    that holds that phase, the eight sensor readings, no spot and
    throttle and steering 0.  On it the default rule matches when the
    phase is not PARKED and the completion rule matches when it is, so the
    decision returned is the application of a rule of the table and never
    the no-rule fallback. *)
Theorem default_facts_total (config : ParkingConfig.t) (phase : ParkingPhase)
    (car_x car_y car_angle : Q) :
  exists decision es',
    ExpertSystem.make_decision (ExpertSystem.__init__ config) phase
      (repeat SENSOR_RANGE 8) (car_x, car_y) car_angle None
    = Ok (decision, es')
    /\ let facts := KnowledgeBase.facts (ExpertSystem.knowledge_base es') in
       dict_get k_phase facts = Some (FPhase phase)
       /\ map (fun k => dict_get k facts)
            [k_front_left_sensor; k_front_sensor; k_front_right_sensor;
             k_left_sensor; k_right_sensor; k_rear_left_sensor;
             k_rear_right_sensor; k_rear_sensor]
          = repeat (Some (FNum SENSOR_RANGE)) 8
       /\ dict_get k_selected_spot facts = Some FNone
       /\ dict_get k_throttle facts = Some (FNum 0)
       /\ dict_get k_steering facts = Some (FNum 0)
       /\ (phase <> PARKED ->
           Rule.evaluate KnowledgeBase.default_stop facts = true)
       /\ (phase = PARKED ->
           Rule.evaluate KnowledgeBase.parking_complete facts = true)
       /\ (exists rule,
              In rule (map snd KnowledgeBase._build_rules)
              /\ Rule.evaluate rule facts = true
              /\ decision = KnowledgeBase.apply_rule config facts rule)
       /\ decision <> KnowledgeBase.no_rule
       /\ DecisionInfo.rule_applied decision <> "none".
Proof.
  set (kb := KnowledgeBase.set_facts (KnowledgeBase.__init__ config)
               [ (k_phase, FPhase phase); (k_car_x, FNum car_x);
                 (k_car_y, FNum car_y); (k_car_angle, FNum car_angle);
                 (k_selected_spot, FNone);
                 (k_front_left_sensor, FNum SENSOR_RANGE);
                 (k_front_sensor, FNum SENSOR_RANGE);
                 (k_front_right_sensor, FNum SENSOR_RANGE);
                 (k_left_sensor, FNum SENSOR_RANGE);
                 (k_right_sensor, FNum SENSOR_RANGE);
                 (k_rear_left_sensor, FNum SENSOR_RANGE);
                 (k_rear_right_sensor, FNum SENSOR_RANGE);
                 (k_rear_sensor, FNum SENSOR_RANGE) ]).
  set (facts := KnowledgeBase.prologue config (KnowledgeBase.facts kb)).
  assert (Hdefault : phase <> PARKED ->
                     Rule.evaluate KnowledgeBase.default_stop facts = true).
  { intro Hp; destruct phase; try (vm_compute; reflexivity).
    exfalso; apply Hp; reflexivity. }
  assert (Hcomplete : phase = PARKED ->
                      Rule.evaluate KnowledgeBase.parking_complete facts = true).
  { intro Hp; subst phase; vm_compute; reflexivity. }
  assert (Hsome : exists rule,
             In rule (map snd (KnowledgeBase.rules kb))
             /\ Rule.evaluate rule facts = true).
  { destruct (phase_eq_dec phase PARKED) as [Hp|Hp].
    - exists KnowledgeBase.parking_complete; split;
        [exact parking_complete_declared|exact (Hcomplete Hp)].
    - exists KnowledgeBase.default_stop; split;
        [exact default_stop_declared|exact (Hdefault Hp)]. }
  destruct Hsome as (rule & Hin & Hev).
  destruct (infer_some kb rule Hin Hev) as (chosen & Hc1 & Hc2 & Hinfer).
  fold facts in Hc2, Hinfer. change (KnowledgeBase.config kb) with config in Hinfer.
  exists (KnowledgeBase.apply_rule config facts chosen).
  eexists. split.
  - run_make_decision.
    change (KnowledgeBase.infer _) with (KnowledgeBase.infer kb).
    rewrite Hinfer. reflexivity.
  - cbn [ExpertSystem.knowledge_base KnowledgeBase.facts KnowledgeBase.set_facts].
    fold facts.
    split; [reflexivity|]. split; [reflexivity|]. split; [reflexivity|].
    split; [reflexivity|]. split; [reflexivity|].
    split; [exact Hdefault|]. split; [exact Hcomplete|].
    split; [exists chosen; repeat split; assumption|].
    assert (Hname : DecisionInfo.rule_applied
                      (KnowledgeBase.apply_rule config facts chosen) <> "none")
      by (apply table_rule_names; exact Hc1).
    split; [|exact Hname].
    intro Heq; apply Hname; rewrite Heq; reflexivity.
Qed.
End Totality.
(** ** Conditions that cannot be evaluated *)

Lemma key_name_inj (a b : fact_key) : key_name a = key_name b -> a = b.
Proof.
  intro H; apply key_eqb_eq; unfold key_eqb; rewrite H; apply String.eqb_refl.
Qed.

Lemma reads_blocked (id : string) (e : expr) :
  reads id e = true -> blocked id e = true.
Proof.
  induction e; simpl; intro H; try discriminate; auto;
    apply orb_true_iff in H; apply orb_true_iff; destruct H; auto.
Qed.

Lemma eval_blocked (builtins : bool) (context : dict) (k : fact_key) (e : expr) :
  dict_get k context = None ->
  blocked (key_name k) e = true ->
  exists err, eval builtins context e = Raise err.
Proof.
  intros Hk; induction e as [v|x|e IH attr|e IH|e IH|op' l IHl r IHr|op' l IHl r IHr|e IH|e IH|l IHl r IHr|];
    simpl; intro H; try discriminate.
  - apply String.eqb_eq in H; subst x.
    rewrite lookup_name_key, Hk; eexists; reflexivity.
  - destruct (IH H) as [err ->]; eexists; reflexivity.
  - destruct (IH H) as [err ->]; eexists; reflexivity.
  - destruct builtins; [|eexists; reflexivity].
    destruct (IH H) as [err ->]; eexists; reflexivity.
  - apply orb_true_iff in H; destruct H as [H|H].
    + destruct (IHl H) as [err ->]; eexists; reflexivity.
    + destruct (IHr H) as [err Herr].
      destruct (eval builtins context l); simpl; [|eexists; reflexivity].
      rewrite Herr; eexists; reflexivity.
  - apply orb_true_iff in H; destruct H as [H|H].
    + destruct (IHl H) as [err ->]; eexists; reflexivity.
    + destruct (IHr H) as [err Herr].
      destruct (eval builtins context l); simpl; [|eexists; reflexivity].
      rewrite Herr; eexists; reflexivity.
  - destruct (IH H) as [err ->]; eexists; reflexivity.
  - destruct (IH H) as [err ->]; eexists; reflexivity.
  - destruct (IHl H) as [err ->]; eexists; reflexivity.
  - eexists; reflexivity.
Qed.

(** Replacing another name leaves a blocked expression blocked. *)
Lemma replace_name_blocked (id name : string) (v : value) (e : expr) :
  name <> id ->
  blocked id e = true -> blocked id (replace_name name v e) = true.
Proof.
  intro Hne; induction e as [v'|x|e IH attr|e IH|e IH|op' l IHl r IHr|op' l IHl r IHr|e IH|e IH|l IHl r IHr|];
    simpl; intro H; try discriminate; auto.
  - apply String.eqb_eq in H; subst x.
    destruct (String.eqb_spec id name) as [E|E]; [congruence|].
    destruct (contains name id); simpl; [reflexivity|apply String.eqb_refl].
  - destruct (contains name attr); simpl; auto.
  - apply orb_true_iff in H; apply orb_true_iff; destruct H; auto.
  - apply orb_true_iff in H; apply orb_true_iff; destruct H; auto.
Qed.

Lemma replace_cmp_left_blocked (id name : string) (op : cmpop) (v : value)
    (e : expr) :
  name <> id ->
  blocked id e = true -> blocked id (replace_cmp_left op name v e) = true.
Proof.
  intro Hne; induction e as [v'|x|e IH attr|e IH|e IH|op' l IHl r IHr|op' l IHl r IHr|e IH|e IH|l IHl r IHr|];
    simpl; intro H; try discriminate; auto.
  - apply orb_true_iff in H; apply orb_true_iff; destruct H; auto.
  - destruct l as [|y| | | | | | | | |]; simpl in *;
      try (auto; fail);
      try (apply orb_true_iff in H; apply orb_true_iff; destruct H; auto; fail).
    destruct (cmpop_eqb op op' && ends_with name y); simpl.
    + destruct (String.eqb_spec y name) as [E|E]; simpl.
      * apply orb_true_iff in H; destruct H as [H|H]; auto.
        apply String.eqb_eq in H; congruence.
      * reflexivity.
    + apply orb_true_iff in H; apply orb_true_iff; destruct H; auto.
Qed.

Lemma substitute_blocked (id : string) (item : fact_key * fact_value) (e : expr) :
  key_name (fst item) <> id ->
  blocked id e = true -> blocked id (Rule.substitute e item) = true.
Proof.
  intros Hne H; unfold Rule.substitute.
  destruct (snd item);
    repeat match goal with
      | |- context [if ?c then _ else _] => destruct c
      end;
    auto using replace_name_blocked, replace_cmp_left_blocked.
Qed.

Lemma fold_substitute_blocked (id : string) (context : dict) (e : expr) :
  Forall (fun item => key_name (fst item) <> id) context ->
  blocked id e = true ->
  blocked id (fold_left Rule.substitute context e) = true.
Proof.
  intro H; revert e; induction H as [|item context Hitem _ IH]; simpl; intros e He.
  - exact He.
  - apply IH; apply substitute_blocked; assumption.
Qed.

Lemma prepare_blocked (context : dict) (k : fact_key) (e : expr) :
  dict_get k context = None ->
  k <> k_CAR_LENGTH -> k <> k_CAR_WIDTH ->
  blocked (key_name k) e = true ->
  blocked (key_name k) (Rule.prepare context e) = true.
Proof.
  intros Hk Hl Hw He; unfold Rule.prepare.
  assert (H1 : blocked (key_name k) (fold_left Rule.substitute context e) = true).
  { apply fold_substitute_blocked; [|exact He].
    apply dict_get_none_keys in Hk.
    apply Forall_forall; intros [k' v'] Hin Heq; simpl in Heq.
    apply key_name_inj in Heq; subst k'.
    apply Hk; apply (in_map fst) in Hin; exact Hin. }
  assert (Hl' : "CAR_LENGTH" <> key_name k)
    by (intro E; apply Hl; apply key_name_inj; rewrite <- E; reflexivity).
  assert (Hw' : "CAR_WIDTH" <> key_name k)
    by (intro E; apply Hw; apply key_name_inj; rewrite <- E; reflexivity).
  repeat match goal with
    | |- context [if ?c then _ else _] => destruct c
    end;
    auto using replace_name_blocked.
Qed.

(** A condition that raises makes the rule evaluate to [False], wherever
    it stands in the list. *)
Lemma check_raise (context : dict) (conds : list py_source) (cond : py_source)
    (err : exn) :
  In cond conds ->
  eval true context (Rule.prepare context (ast cond)) = Raise err ->
  Rule.check context conds = Ok false
  \/ exists err', Rule.check context conds = Raise err'.
Proof.
  induction conds as [|c conds IH]; simpl; intros Hin Herr; [contradiction|].
  destruct Hin as [->|Hin].
  - rewrite Herr; right; eexists; reflexivity.
  - destruct (eval true context (Rule.prepare context (ast c))) as [v|e'];
      simpl; [|right; eexists; reflexivity].
    destruct (truthy v); simpl; [apply IH; assumption|left; reflexivity].
Qed.

Lemma evaluate_raise (rule : Rule.t) (context : dict) (cond : py_source)
    (err : exn) :
  In cond (Rule.conditions rule) ->
  eval true context (Rule.prepare context (ast cond)) = Raise err ->
  Rule.evaluate rule context = false.
Proof.
  intros Hin Herr; unfold Rule.evaluate.
  destruct (check_raise context _ cond err Hin Herr) as [->|[err' ->]];
    reflexivity.
Qed.

(** C3 (amended).  [Rule.evaluate] returns a boolean for every rule and
    every fact store.  It returns [False] whenever a condition of the rule
    reads, in a place evaluation cannot skip (anywhere but to the right of
    an [or]), a fact that is absent from the store -- the module constants
    [CAR_LENGTH] and [CAR_WIDTH] apart, which are filled in even when the
    store lacks them -- and whenever evaluating a condition raises, as a
    comparison with an attribute of an absent spot does. *)
Theorem evaluate_false_on_absent_or_invalid (rule : Rule.t) (context : dict)
    (cond : py_source) :
  In cond (Rule.conditions rule) ->
  (exists k, k <> k_CAR_LENGTH /\ k <> k_CAR_WIDTH
             /\ reads (key_name k) (ast cond) = true
             /\ dict_get k context = None)
  \/ (exists err, eval true context (Rule.prepare context (ast cond)) = Raise err) ->
  Rule.evaluate rule context = false.
Proof.
  intros Hin [(k & Hl & Hw & Hr & Hk)|(err & Herr)].
  - destruct (eval_blocked true context k (Rule.prepare context (ast cond)) Hk)
      as [err Herr].
    + apply prepare_blocked; try assumption. apply reads_blocked; exact Hr.
    + exact (evaluate_raise rule context cond err Hin Herr).
  - exact (evaluate_raise rule context cond err Hin Herr).
Qed.

(** The emergency rule on an empty store (no [front_sensor]), and the
    spot rule on a store whose spot is [None] (its third condition reads
    [selected_spot.x]). *)
Lemma evaluate_false_on_absent_or_invalid_witness :
  Rule.evaluate KnowledgeBase.emergency_stop [] = false
  /\ Rule.evaluate KnowledgeBase.spot_found
       [(k_phase, FPhase SEARCHING); (k_car_x, FNum 100); (k_selected_spot, FNone)]
     = false.
Proof.
  split.
  - apply (evaluate_false_on_absent_or_invalid KnowledgeBase.emergency_stop []
             (Source "front_sensor < 30"
                (Compare OpLt (Name "front_sensor") (num 30)))).
    + left; reflexivity.
    + left; exists k_front_sensor.
      repeat split; try discriminate; reflexivity.
  - apply (evaluate_false_on_absent_or_invalid KnowledgeBase.spot_found _
             (Source "car_x < selected_spot.x - 100"
                (Compare OpLt (Name "car_x") (BinOp OpSub spot_x (num 100))))).
    + right; right; left; reflexivity.
    + right; exists AttributeError; vm_compute; reflexivity.
Defined.

(** C3, as stated, fails: the third condition of the alignment rule
    mentions [car_y] to the right of an [or]; on a store without [car_y]
    and with a heading of 10 degrees the left operand is true, the right
    one is never evaluated, and the rule matches.  So it is not the case
    that a table rule with a condition mentioning an absent fact always
    evaluates to [False]. *)
Lemma evaluate_true_despite_absent_fact :
  let spot := ParkingSpot.Build 400 550 100 120 false true in
  let context :=
    [(k_phase, FPhase POSITIONING); (k_selected_spot, FSpot spot);
     (k_car_angle, FNum 10)] in
  let cond :=
    Source
      "abs(car_angle) > 2 or abs(car_y - (selected_spot.y - CAR_WIDTH * 1.5)) > 15"
      (BoolOr
         (Compare OpGt (CallAbs (Name "car_angle")) (num 2))
         (Compare OpGt (CallAbs lateral_offset) (num 15))) in
  (In cond (Rule.conditions KnowledgeBase.align_parallel)
   /\ references (key_name k_car_y) (ast cond) = true
   /\ dict_get k_car_y context = None
   /\ Rule.evaluate KnowledgeBase.align_parallel context = true
   /\ DecisionInfo.rule_applied
        (fst (KnowledgeBase.infer
                (KnowledgeBase.set_facts
                   (KnowledgeBase.__init__ ParkingConfig.default) context)))
      = Rule.name KnowledgeBase.align_parallel)
  /\ ~ (forall (rule : Rule.t) (store : dict) (c : py_source) (k : fact_key),
          In rule (map snd KnowledgeBase._build_rules) ->
          In c (Rule.conditions rule) ->
          references (key_name k) (ast c) = true ->
          dict_get k store = None ->
          Rule.evaluate rule store = false).
Proof.
  intros spot context cond.
  assert (Hin : In cond (Rule.conditions KnowledgeBase.align_parallel))
    by (right; right; left; reflexivity).
  assert (Hev : Rule.evaluate KnowledgeBase.align_parallel context = true)
    by (vm_compute; reflexivity).
  split.
  - repeat split; try assumption; vm_compute; reflexivity.
  - intro Hall.
    assert (Hrule : In KnowledgeBase.align_parallel
                      (map snd KnowledgeBase._build_rules))
      by (do 8 right; left; reflexivity).
    rewrite (Hall KnowledgeBase.align_parallel context cond k_car_y Hrule Hin
               eq_refl eq_refl) in Hev.
    discriminate Hev.
Qed.

(** ** The throttle and steering facts *)

Lemma dict_get_update_other (k : fact_key) (items d : dict) :
  ~ In k (map fst items) ->
  dict_get k (dict_update d items) = dict_get k d.
Proof.
  unfold dict_update; revert d.
  induction items as [|[k' v'] items IH]; simpl; intros d Hk; [reflexivity|].
  rewrite IH by tauto. apply dict_get_set_other; intro E; apply Hk; left; auto.
Qed.

Lemma prologue_get_default (config : ParkingConfig.t) (facts : dict)
    (k : fact_key) (v : fact_value) :
  k = k_throttle /\ v = FNum 0 \/ k = k_steering /\ v = FNum 0 ->
  dict_get k (KnowledgeBase.prologue config facts)
  = match dict_get k facts with
    | Some w => Some w
    | None => Some v
    end.
Proof.
  unfold KnowledgeBase.prologue.
  intros [[-> ->]|[-> ->]];
    repeat (rewrite dict_get_setdefault);
    repeat (rewrite dict_get_set_other by discriminate);
    destruct (dict_get _ facts); reflexivity.
Qed.

Lemma infer_facts (self : KnowledgeBase.t) :
  KnowledgeBase.facts (snd (KnowledgeBase.infer self))
  = KnowledgeBase.prologue (KnowledgeBase.config self) (KnowledgeBase.facts self).
Proof.
  unfold KnowledgeBase.infer; destruct (find _ _); reflexivity.
Qed.

Section StaleFacts.
Context {M : Math}.

Lemma update_facts_get (self self' : KnowledgeBase.t) (kwargs : dict)
    (k : fact_key) :
  KnowledgeBase.update_facts self kwargs = Ok self' ->
  k <> k_distance_to_spot ->
  ~ In k (map fst kwargs) ->
  dict_get k (KnowledgeBase.facts self') = dict_get k (KnowledgeBase.facts self).
Proof.
  unfold KnowledgeBase.update_facts; intros H Hd Hk.
  destruct (_ && _).
  - repeat match type of H with
      | bind ?r _ = _ => destruct r; simpl in H; [|discriminate H]
      end.
    inversion H; subst self'; simpl.
    rewrite dict_get_set_other by exact Hd.
    apply dict_get_update_other; exact Hk.
  - inversion H; subst self'; simpl.
    apply dict_get_update_other; exact Hk.
Qed.

(** No call of [make_decision] writes the throttle or the steering fact:
    after the call they hold what they held before, or the default 0 of
    [infer] when they were missing. *)
Lemma make_decision_keeps_control_facts (self self' : ExpertSystem.t)
    (phase : ParkingPhase) (sensors : list Q) (car_pos : Q * Q) (car_angle : Q)
    (target_spot : option ParkingSpot.t) (decision : DecisionInfo.t)
    (k : fact_key) :
  ExpertSystem.make_decision self phase sensors car_pos car_angle target_spot
  = Ok (decision, self') ->
  k = k_throttle \/ k = k_steering ->
  dict_get k (KnowledgeBase.facts (ExpertSystem.knowledge_base self'))
  = match dict_get k (KnowledgeBase.facts (ExpertSystem.knowledge_base self)) with
    | Some w => Some w
    | None => Some (FNum 0)
    end.
Proof.
  unfold ExpertSystem.make_decision; intros H Hk.
  repeat match type of H with
    | bind ?r _ = _ => destruct r eqn:?; simpl in H; [|discriminate H]
    end.
  match type of H with
  | context [KnowledgeBase.infer ?kb] =>
      pose proof (infer_facts kb) as Hfacts;
      destruct (KnowledgeBase.infer kb) as [d kb']
  end.
  simpl in Hfacts. inversion H; subst; simpl. rewrite Hfacts.
  match goal with
  | Hu : KnowledgeBase.update_facts _ _ = Ok _ |- _ =>
      pose proof (update_facts_get _ _ _ k Hu) as Hget
  end.
  rewrite (prologue_get_default _ _ k (FNum 0))
    by (destruct Hk; subst k; tauto).
  rewrite Hget; [reflexivity| |];
    destruct Hk; subst k; simpl; try discriminate;
    intro Hin; repeat (destruct Hin as [Hin|Hin]; [discriminate Hin|]);
    exact Hin.
Qed.
End StaleFacts.
(** C4 (the code departs from the claim).  Two passes of the control loop
    from the initial state, 16 ms each, with no obstacle: the first decision
    commands a throttle of 1.75, yet the rules of the second pass are
    evaluated on a store whose [throttle] fact is still 0. *)
Theorem throttle_fact_ignores_previous_decision :
  let sim0 := ParkingSimulation.__init__ [] in
  exists sim1 sim2 decision,
    ParkingSimulation.tick (M := rational_math) sim0 0.016 = Ok sim1
    /\ ParkingSimulation.decision_info sim1 = Some decision
    /\ DecisionInfo.throttle decision = VNum 1.75
    /\ ParkingSimulation.tick (M := rational_math) sim1 0.016 = Ok sim2
    /\ dict_get k_throttle
         (KnowledgeBase.facts
            (ExpertSystem.knowledge_base (ParkingSimulation.expert_system sim2)))
       = Some (FNum 0).
Proof.
  do 3 eexists.
  split; [vm_compute; reflexivity|].
  split; [vm_compute; reflexivity|].
  split; [vm_compute; reflexivity|].
  split; vm_compute; reflexivity.
Qed.

(** ** Phase transitions *)

(** The six transitions that reset the timer, and the phases that stay. *)
Lemma handle_phase_transitions_automatic (self : ParkingSimulation.t) :
  let car := ParkingSimulation.player_car self in
  let timer := ParkingSimulation.phase_timer self in
  let goes next :=
    ParkingSimulation.handle_phase_transitions self
    = Ok (ParkingSimulation.set_phase self next 0 (ParkingSimulation.parked self)) in
  let stays := ParkingSimulation.handle_phase_transitions self = Ok self in
  match ParkingSimulation.current_phase self with
  | SEARCHING =>
      match ParkingSimulation.selected_spot self with
      | Some spot =>
          if Qltb (ParkingSpot.x spot - 50) (Car.x car) then goes APPROACH else stays
      | None => stays
      end
  | APPROACH =>
      match ParkingSimulation.selected_spot self with
      | Some spot =>
          if Qltb (ParkingSpot.x spot + CAR_LENGTH * 1.2) (Car.x car)
          then goes POSITIONING else stays
      | None => ParkingSimulation.handle_phase_transitions self = Raise AttributeError
      end
  | POSITIONING => if Qltb 3 timer then goes PREPARE_REVERSE else stays
  | PREPARE_REVERSE => if Qltb 0.5 timer then goes REVERSE_RIGHT else stays
  | REVERSE_RIGHT => if Qltb (Car.angle car) (-25) then goes REVERSE_LEFT else stays
  | REVERSE_LEFT =>
      if Qltb (Qabs (Car.angle car)) 5 || Qltb 4 timer
      then goes FINAL_ADJUST else stays
  | FINAL_ADJUST =>
      if Qltb 3 timer
      then ParkingSimulation.handle_phase_transitions self
           = Ok (ParkingSimulation.set_phase self PARKED timer true)
      else stays
  | PARKED | ABORTED => stays
  end.
Proof.
  unfold ParkingSimulation.handle_phase_transitions.
  destruct (ParkingSimulation.current_phase self);
    try destruct (ParkingSimulation.selected_spot self);
    cbv zeta;
    repeat match goal with
      | |- context [if ?c then _ else _] => destruct c
      end;
    reflexivity.
Qed.

Lemma manual_phase_transition_resets_timer (self : ParkingSimulation.t) :
  ParkingSimulation.phase_timer (ParkingSimulation.manual_phase_transition self) = 0.
Proof. reflexivity. Qed.

(** C5 (the code departs from the claim).  In the final adjustment phase
    with 3.1 s on the timer, [handle_phase_transitions] moves to PARKED and
    leaves the timer at 3.1 s: the last automatic transition does not reset
    it. *)
Theorem parked_transition_keeps_timer :
  let self :=
    ParkingSimulation.set_phase (ParkingSimulation.__init__ []) FINAL_ADJUST 3.1
      false in
  exists self',
    ParkingSimulation.handle_phase_transitions self = Ok self'
    /\ ParkingSimulation.current_phase self' = PARKED
    /\ ParkingSimulation.phase_timer self' = 3.1
    /\ ~ ParkingSimulation.phase_timer self' == 0.
Proof.
  eexists. split; [vm_compute; reflexivity|].
  split; [reflexivity|]. split; [reflexivity|].
  simpl; intro H; discriminate H.
Qed.

(** ** Sensors *)

Lemma Qltb_lt (a b : Q) : Qltb a b = true <-> a < b.
Proof.
  unfold Qltb; rewrite negb_true_iff.
  split; intro H.
  - apply Qnot_le_lt; intro Hle; apply Qle_bool_iff in Hle; congruence.
  - destruct (Qle_bool b a) eqn:E; [|reflexivity].
    apply Qle_bool_iff in E; exfalso; exact (Qlt_not_le _ _ H E).
Qed.

Lemma Qltb_ge (a b : Q) : Qltb a b = false <-> b <= a.
Proof.
  unfold Qltb; rewrite negb_false_iff; apply Qle_bool_iff.
Qed.

Section Sensors.
Context {M : Math}.
Hypothesis hypot_nonneg : forall a b : Q, 0 <= math_hypot a b.

(** The loop over the corners, from any starting value of the reading. *)
Lemma scan_fold (self : Car.t) (dx dy : Q) (corners : list (Q * Q)) (start : Q) :
  let seen := filter (fun c => Qltb 0 (Car.proj self dx dy c)) corners in
  let v := fold_left (Car.scan_corner self dx dy) corners start in
  v <= start
  /\ (0 <= start -> 0 <= v)
  /\ (forall c, In c seen -> v <= Car.dist self c)
  /\ (v = start \/ exists c, In c seen /\ v = Car.dist self c).
Proof.
  revert start; induction corners as [|c corners IH]; intro start; simpl.
  - repeat split; try apply Qle_refl; auto. intros c [].
  - specialize (IH (Car.scan_corner self dx dy start c)).
    destruct IH as (IH1 & IH2 & IH3 & IH4).
    unfold Car.scan_corner in *.
    destruct (Qltb 0 (Car.proj self dx dy c)) eqn:Hp; simpl.
    + destruct (Qltb (Car.dist self c) start) eqn:Hd.
      * apply Qltb_lt in Hd. repeat split.
        -- eapply Qle_trans; [exact IH1|apply Qlt_le_weak; exact Hd].
        -- intros _; apply IH2; apply hypot_nonneg.
        -- intros c' [<-|Hc']; [exact IH1|apply IH3; exact Hc'].
        -- destruct IH4 as [->|(c' & Hc' & ->)]; right.
           ++ exists c; split; [left; reflexivity|reflexivity].
           ++ exists c'; split; [right; exact Hc'|reflexivity].
      * apply Qltb_ge in Hd. repeat split.
        -- exact IH1.
        -- exact IH2.
        -- intros c' [<-|Hc']; [|apply IH3; exact Hc'].
           eapply Qle_trans; [exact IH1|exact Hd].
        -- destruct IH4 as [->|(c' & Hc' & ->)]; [left; reflexivity|right].
           exists c'; split; [right; exact Hc'|reflexivity].
    + repeat split; auto.
Qed.

(** C6 (amended).  After [update_sensors] there are eight readings, one per
    ray, each in [[0, SENSOR_RANGE]].  A ray on which no obstacle corner has
    a positive projection reads exactly [SENSOR_RANGE].  In general the
    reading is the smaller of [SENSOR_RANGE] and the least distance from the
    vehicle origin to an obstacle corner with a positive projection: it is
    at most [SENSOR_RANGE], at most each such distance, and equal to
    [SENSOR_RANGE] or to one of them. *)
Theorem update_sensors_readings (self : Car.t) (obstacles : list Car.t) :
  let readings := fst (Car.update_sensors self obstacles) in
  Car.sensors (snd (Car.update_sensors self obstacles)) = readings
  /\ List.length readings = 8%nat
  /\ forall (i : nat) (da : Q),
       nth_error Car.sensor_angles i = Some da ->
       exists v,
         nth_error readings i = Some v
         /\ 0 <= v /\ v <= SENSOR_RANGE
         /\ (ahead self obstacles da = [] -> v = SENSOR_RANGE)
         /\ (forall c, In c (ahead self obstacles da) -> v <= Car.dist self c)
         /\ (v = SENSOR_RANGE
             \/ exists c, In c (ahead self obstacles da) /\ v = Car.dist self c).
Proof.
  intro readings. split; [reflexivity|]. split; [reflexivity|].
  intros i da Hi.
  exists (Car.scan self obstacles da). split.
  - change readings with (map (Car.scan self obstacles) Car.sensor_angles).
    apply map_nth_error; exact Hi.
  - unfold Car.scan, ahead.
    destruct (Car.ray self da) as [dx dy]; simpl fst; simpl snd.
    destruct (scan_fold self dx dy (Car.all_corners obstacles) SENSOR_RANGE)
      as (H1 & H2 & H3 & H4).
    split; [apply H2; unfold SENSOR_RANGE; discriminate|].
    split; [exact H1|]. split; [|split; [exact H3|exact H4]].
    intro Hnone; destruct H4 as [H4|(c & Hc & _)]; [exact H4|].
    rewrite Hnone in Hc; destruct Hc.
Qed.
End Sensors.

(** The vehicle at its starting place, heading along the road, and one
    obstacle car parked right beside it. *)
Lemma update_sensors_readings_witness :
  let self := Car.__init__ 200 500 0 (0, 100, 255)%Z in
  let obstacles := [Car.__init__ 250 550 0 (200, 0, 0)%Z] in
  let readings := fst (Car.update_sensors (M := rational_math) self obstacles) in
  Car.sensors (snd (Car.update_sensors (M := rational_math) self obstacles))
  = readings
  /\ List.length readings = 8%nat
  /\ forall (i : nat) (da : Q),
       nth_error Car.sensor_angles i = Some da ->
       exists v,
         nth_error readings i = Some v
         /\ 0 <= v /\ v <= SENSOR_RANGE
         /\ (ahead (M := rational_math) self obstacles da = [] -> v = SENSOR_RANGE)
         /\ (forall c, In c (ahead (M := rational_math) self obstacles da) ->
                       v <= Car.dist (M := rational_math) self c)
         /\ (v = SENSOR_RANGE
             \/ exists c, In c (ahead (M := rational_math) self obstacles da)
                          /\ v = Car.dist (M := rational_math) self c).
Proof.
  apply (update_sensors_readings (M := rational_math)).
  intros a b; unfold math_hypot, rational_math, hypot_q, Qle; simpl.
  rewrite Z.mul_1_r. apply Z.sqrt_nonneg.
Defined.

(** C6, as stated, fails.  The vehicle at its starting place and a car
    parked in the last spot: on the ray at +20 degrees some corners of that
    car have a positive projection, every one of them is farther than
    [SENSOR_RANGE], and the sensor reads [SENSOR_RANGE], which is the
    distance of no corner.  So it is not the case that every ray with a
    corner ahead reads the least distance of such a corner. *)
Lemma far_obstacle_reads_sensor_range :
  let self := Car.__init__ 200 500 0 (0, 100, 255)%Z in
  let obstacles := [Car.__init__ 1150 550 0 (200, 0, 0)%Z] in
  let readings := fst (Car.update_sensors (M := rational_math) self obstacles) in
  (nth_error Car.sensor_angles 4 = Some 20
   /\ ahead (M := rational_math) self obstacles 20 <> []
   /\ nth_error readings 4 = Some SENSOR_RANGE
   /\ forall c, In c (ahead (M := rational_math) self obstacles 20) ->
                SENSOR_RANGE < Car.dist (M := rational_math) self c)
  /\ ~ (forall (M : Math),
          (forall a b : Q, 0 <= math_hypot a b) ->
          forall (car : Car.t) (cars : list Car.t) (i : nat) (da v : Q),
            nth_error Car.sensor_angles i = Some da ->
            ahead car cars da <> [] ->
            nth_error (fst (Car.update_sensors car cars)) i = Some v ->
            (exists c, In c (ahead car cars da) /\ v = Car.dist car c)
            /\ (forall c, In c (ahead car cars da) -> v <= Car.dist car c)).
Proof.
  intros self obstacles readings.
  assert (Hahead : ahead (M := rational_math) self obstacles 20 <> [])
    by (vm_compute; discriminate).
  assert (Hread : nth_error readings 4 = Some SENSOR_RANGE)
    by (vm_compute; reflexivity).
  assert (Hfar : forall c, In c (ahead (M := rational_math) self obstacles 20) ->
                           SENSOR_RANGE < Car.dist (M := rational_math) self c).
  { assert (H : forallb
                  (fun c => Qltb SENSOR_RANGE
                              (Car.dist (M := rational_math) self c))
                  (ahead (M := rational_math) self obstacles 20) = true)
      by (vm_compute; reflexivity).
    rewrite forallb_forall in H.
    intros c Hc; apply Qltb_lt; exact (H c Hc). }
  split.
  - repeat split; try assumption; reflexivity.
  - intro Hall.
    assert (Hnn : forall a b : Q, 0 <= math_hypot (Math := rational_math) a b).
    { intros a b; unfold math_hypot, rational_math, hypot_q, Qle; simpl.
      rewrite Z.mul_1_r. apply Z.sqrt_nonneg. }
    destruct (Hall rational_math Hnn self obstacles 4%nat 20 SENSOR_RANGE
                eq_refl Hahead Hread) as [(c & Hc & Heq) _].
    specialize (Hfar c Hc). rewrite <- Heq in Hfar.
    exact (Qlt_irrefl _ Hfar).
Qed.

(** ** Speed limiting *)

Lemma Qabs_spec (x : Q) :
  (0 <= x /\ Qabs x == x) \/ (x < 0 /\ Qabs x == - x).
Proof.
  destruct (Qlt_le_dec x 0) as [H|H].
  - right; split; [exact H|apply Qabs_neg; apply Qlt_le_weak; exact H].
  - left; split; [exact H|apply Qabs_pos; exact H].
Qed.

Lemma Qeq_bool_false (x y : Q) : Qeq_bool x y = false -> ~ x == y.
Proof. intros H E; apply Qeq_bool_iff in E; congruence. Qed.

(** Names every absolute value of the goal and records its two cases. *)
Ltac name_abs :=
  repeat match goal with
    | |- context [Qabs ?x] =>
        let a := fresh "a" in
        let Ha := fresh "Ha" in
        pose proof (Qabs_spec x) as Ha;
        set (a := Qabs x) in *; clearbody a
    | H : context [Qabs ?x] |- _ =>
        let a := fresh "a" in
        let Ha := fresh "Ha" in
        pose proof (Qabs_spec x) as Ha;
        set (a := Qabs x) in *; clearbody a
    end.

(** Turns the boolean tests among the hypotheses into inequalities. *)
Ltac reflect_tests :=
  repeat match goal with
    | H : Qltb _ _ = true |- _ => apply Qltb_lt in H
    | H : Qltb _ _ = false |- _ => apply Qltb_ge in H
    | H : Qeq_bool _ _ = true |- _ => apply Qeq_bool_iff in H
    | H : Qeq_bool _ _ = false |- _ => apply Qeq_bool_false in H
    end.

(** ** Replacement is transparent on clean conditions *)

Lemma all_keys_complete (k : fact_key) : In k all_keys.
Proof. destruct k; simpl; tauto. Qed.

Lemma name_ok_contains (id : string) (k : fact_key) :
  name_ok id = true ->
  contains (key_name k) id = true \/ ends_with (key_name k) id = true ->
  id = key_name k.
Proof.
  unfold name_ok; rewrite forallb_forall; intros H Hc.
  specialize (H k (all_keys_complete k)).
  apply String.eqb_eq.
  destruct (contains (key_name k) id || ends_with (key_name k) id) eqn:E.
  - exact H.
  - apply orb_false_iff in E; destruct E as [E1 E2], Hc; congruence.
Qed.

Lemma attr_ok_contains (attr : string) (k : fact_key) :
  attr_ok attr = true -> contains (key_name k) attr = false.
Proof.
  unfold attr_ok; rewrite forallb_forall; intro H.
  specialize (H k (all_keys_complete k)).
  apply negb_true_iff in H; exact H.
Qed.

Lemma resolves_refl (context : dict) (e : expr) : resolves context e e.
Proof. induction e; constructor; assumption. Qed.

Lemma resolves_eval (builtins : bool) (context : dict) (e e' : expr) :
  resolves context e e' -> eval builtins context e' = eval builtins context e.
Proof.
  induction 1; simpl;
    repeat match goal with
      | IH : eval _ _ _ = eval _ _ _ |- _ => rewrite IH; clear IH
      end;
    try reflexivity.
  rewrite H; reflexivity.
Qed.

Lemma replace_name_resolves (context : dict) (k : fact_key) (fv : fact_value)
    (e e' : expr) :
  dict_get k context = Some fv ->
  resolves context e e' ->
  clean e = true ->
  resolves context e (replace_name (key_name k) (value_of fv) e').
Proof.
  intros Hk; induction 1; simpl; intro Hc;
    repeat match goal with
      | H : _ && _ = true |- _ => apply andb_true_iff in H; destruct H
      end;
    try (constructor; auto; fail).
  - destruct (String.eqb_spec id (key_name k)) as [E|E].
    + subst id; apply res_bound. rewrite lookup_name_key; exact Hk.
    + destruct (contains (key_name k) id) eqn:Hcont.
      * exfalso; apply E; apply name_ok_contains; [exact Hc|left; exact Hcont].
      * constructor.
  - rewrite attr_ok_contains by assumption. constructor; auto.
Qed.

Lemma replace_cmp_left_resolves (context : dict) (op : cmpop) (k : fact_key)
    (fv : fact_value) (e e' : expr) :
  dict_get k context = Some fv ->
  resolves context e e' ->
  clean e = true ->
  resolves context e (replace_cmp_left op (key_name k) (value_of fv) e').
Proof.
  intros Hk; induction 1; simpl; intro Hc;
    repeat match goal with
      | H : _ && _ = true |- _ => apply andb_true_iff in H; destruct H
      end;
    try (constructor; auto; fail).
  match goal with
  | Hl : resolves _ l l' |- _ => inversion Hl; subst; try (constructor; auto; fail)
  end.
  destruct (cmpop_eqb op op0 && ends_with (key_name k) id) eqn:Ht.
  - apply andb_true_iff in Ht; destruct Ht as [_ Ht].
    assert (E : id = key_name k)
      by (apply name_ok_contains; [assumption|right; exact Ht]).
    subst id; rewrite String.eqb_refl.
    constructor; auto. apply res_bound; rewrite lookup_name_key; exact Hk.
  - constructor; auto.
Qed.

Lemma substitute_resolves (context : dict) (item : fact_key * fact_value)
    (e e' : expr) :
  dict_get (fst item) context = Some (snd item) ->
  resolves context e e' ->
  clean e = true ->
  resolves context e (Rule.substitute e' item).
Proof.
  intros Hk Hr Hc; unfold Rule.substitute.
  destruct (snd item) eqn:Hv;
    repeat match goal with
      | |- context [if ?c then _ else _] => destruct c
      end;
    try exact Hr;
    rewrite <- Hv in *;
    auto using replace_name_resolves, replace_cmp_left_resolves.
Qed.

Lemma fold_substitute_resolves (context items : dict) (e e' : expr) :
  Forall (fun item => dict_get (fst item) context = Some (snd item)) items ->
  resolves context e e' ->
  clean e = true ->
  resolves context e (fold_left Rule.substitute items e').
Proof.
  intro H; revert e'; induction H as [|item items Hitem _ IH]; simpl;
    intros e' Hr Hc; [exact Hr|].
  apply IH; [|exact Hc]. apply substitute_resolves; assumption.
Qed.

(** On a store with unique keys that holds the two module constants, a
    clean condition evaluates after the replacements to what it evaluates to
    with its names looked up in the store. *)
Theorem prepare_transparent (builtins : bool) (context : dict) (e : expr) :
  NoDup (map fst context) ->
  dict_get k_CAR_LENGTH context = Some (FNum CAR_LENGTH) ->
  dict_get k_CAR_WIDTH context = Some (FNum CAR_WIDTH) ->
  clean e = true ->
  eval builtins context (Rule.prepare context e) = eval builtins context e.
Proof.
  intros Hnd Hl Hw Hc. apply resolves_eval. unfold Rule.prepare.
  assert (H1 : resolves context e (fold_left Rule.substitute context e)).
  { apply fold_substitute_resolves; [|apply resolves_refl|exact Hc].
    apply Forall_forall; intros [k v] Hin; simpl.
    apply dict_get_In; assumption. }
  assert (H2 : resolves context e
                 (if occurs "CAR_LENGTH" (fold_left Rule.substitute context e)
                  then replace_name "CAR_LENGTH" (VNum CAR_LENGTH)
                         (fold_left Rule.substitute context e)
                  else fold_left Rule.substitute context e)).
  { destruct (occurs _ _); [|exact H1].
    exact (replace_name_resolves context k_CAR_LENGTH _ e _ Hl H1 Hc). }
  cbv zeta. destruct (occurs "CAR_WIDTH" _); [|exact H2].
  exact (replace_name_resolves context k_CAR_WIDTH _ e _ Hw H2 Hc).
Qed.

(** Every condition of the table is clean, except the one that reads
    [front_right_sensor], whose name contains [right_sensor]. *)
Lemma table_conditions_clean :
  forallb
    (fun rule =>
       forallb
         (fun cond => clean (ast cond)
                      || String.eqb (text cond) "front_right_sensor < 120")
         (Rule.conditions rule))
    (map snd KnowledgeBase._build_rules) = true.
Proof. vm_compute; reflexivity. Qed.

(** No fact name occurs inside a string literal of a table condition. *)
Lemma table_literals_clean :
  forallb
    (fun rule =>
       forallb (fun cond => literals_clean (ast cond)) (Rule.conditions rule))
    (map snd KnowledgeBase._build_rules) = true.
Proof. vm_compute; reflexivity. Qed.

(** No reasoning string of the table holds an operator character, so
    [infer] never tries to evaluate one. *)
Lemma table_reasoning_plain :
  forallb
    (fun rule =>
       match Actions.reasoning (Rule.actions rule) with
       | Actions.Str src => negb (has_operator_char (text src))
       | Actions.Float _ => false
       end)
    (map snd KnowledgeBase._build_rules) = true.
Proof. vm_compute; reflexivity. Qed.

(** ** The store the rules are evaluated on *)

Lemma prologue_NoDup (config : ParkingConfig.t) (facts : dict) :
  NoDup (map fst facts) -> NoDup (map fst (KnowledgeBase.prologue config facts)).
Proof.
  intro H; unfold KnowledgeBase.prologue.
  repeat (apply dict_setdefault_NoDup); repeat (apply dict_set_NoDup); exact H.
Qed.

Lemma prologue_constants (config : ParkingConfig.t) (facts : dict) :
  dict_get k_CAR_LENGTH (KnowledgeBase.prologue config facts)
  = Some (FNum CAR_LENGTH)
  /\ dict_get k_CAR_WIDTH (KnowledgeBase.prologue config facts)
     = Some (FNum CAR_WIDTH)
  /\ dict_get k_config (KnowledgeBase.prologue config facts)
     = Some (FConfig config).
Proof.
  unfold KnowledgeBase.prologue; repeat split;
    repeat (rewrite dict_get_setdefault);
    repeat (rewrite dict_get_set; simpl key_eqb; cbv iota);
    reflexivity.
Qed.

Lemma prologue_get_fact (config : ParkingConfig.t) (facts : dict) (k : fact_key)
    (v : fact_value) :
  dict_get k facts = Some v ->
  k <> k_config -> k <> k_CAR_LENGTH -> k <> k_CAR_WIDTH ->
  dict_get k (KnowledgeBase.prologue config facts) = Some v.
Proof.
  intros H H1 H2 H3; unfold KnowledgeBase.prologue.
  repeat (rewrite dict_get_setdefault).
  repeat (rewrite dict_get_set_other by assumption).
  rewrite H; reflexivity.
Qed.

Lemma check_cons (context : dict) (cond : py_source) (rest : list py_source) :
  Rule.check context (cond :: rest)
  = (v <- eval true context (Rule.prepare context (ast cond)) ;;
     if negb (truthy v) then Ok false else Rule.check context rest).
Proof. reflexivity. Qed.

Lemma sorted_table_head :
  exists rest,
    sorted_reverse (fun r => priority_value (Rule.priority r))
      (map snd KnowledgeBase._build_rules)
    = KnowledgeBase.initial_start :: KnowledgeBase.emergency_stop :: rest.
Proof. eexists; vm_compute; reflexivity. Qed.

(** C10 (amended).  On a store of the rule table's knowledge base with
    phase searching, [front_sensor] = 20, a throttle fact above 0 and
    [car_x] not below 300, [infer] applies the rule stored under
    "emergency_stop": throttle 0, steering 0, emergency set, and the name
    of that rule as the rule applied. *)
Theorem emergency_stop_decision (self : KnowledgeBase.t) (car_x throttle : Q) :
  KnowledgeBase.rules self = KnowledgeBase._build_rules ->
  NoDup (map fst (KnowledgeBase.facts self)) ->
  dict_get k_phase (KnowledgeBase.facts self) = Some (FPhase SEARCHING) ->
  dict_get k_front_sensor (KnowledgeBase.facts self) = Some (FNum 20) ->
  dict_get k_throttle (KnowledgeBase.facts self) = Some (FNum throttle) ->
  0 < throttle ->
  dict_get k_car_x (KnowledgeBase.facts self) = Some (FNum car_x) ->
  300 <= car_x ->
  let decision := fst (KnowledgeBase.infer self) in
  In ("emergency_stop", KnowledgeBase.emergency_stop) (KnowledgeBase.rules self)
  /\ decision
     = KnowledgeBase.apply_rule (KnowledgeBase.config self)
         (KnowledgeBase.prologue (KnowledgeBase.config self)
            (KnowledgeBase.facts self))
         KnowledgeBase.emergency_stop
  /\ DecisionInfo.throttle decision = VNum 0
  /\ DecisionInfo.steering decision = VNum 0
  /\ DecisionInfo.emergency decision = true
  /\ DecisionInfo.rule_applied decision = Rule.name KnowledgeBase.emergency_stop.
Proof.
  intros Hrules Hnd Hphase Hfront Hthrottle Ht Hx Hcar decision.
  set (facts' := KnowledgeBase.prologue (KnowledgeBase.config self)
                   (KnowledgeBase.facts self)).
  destruct (prologue_constants (KnowledgeBase.config self)
              (KnowledgeBase.facts self)) as (Hl & Hw & _).
  fold facts' in Hl, Hw.
  assert (Hnd' : NoDup (map fst facts')) by (apply prologue_NoDup; exact Hnd).
  assert (Hphase' : dict_get k_phase facts' = Some (FPhase SEARCHING))
    by (apply prologue_get_fact; [assumption|discriminate..]).
  assert (Hfront' : dict_get k_front_sensor facts' = Some (FNum 20))
    by (apply prologue_get_fact; [assumption|discriminate..]).
  assert (Hthrottle' : dict_get k_throttle facts' = Some (FNum throttle))
    by (apply prologue_get_fact; [assumption|discriminate..]).
  assert (Hx' : dict_get k_car_x facts' = Some (FNum car_x))
    by (apply prologue_get_fact; [assumption|discriminate..]).
  assert (Hstart : Rule.evaluate KnowledgeBase.initial_start facts' = false).
  { unfold Rule.evaluate.
    change (Rule.conditions KnowledgeBase.initial_start)
      with [phase_is "searching";
            Source "car_x < 300" (Compare OpLt (Name "car_x") (num 300))].
    rewrite !check_cons, !prepare_transparent by (assumption || reflexivity).
    cbn [ast phase_is eval num lit].
    change (lookup_name "phase" facts') with (dict_get k_phase facts').
    change (lookup_name "car_x" facts') with (dict_get k_car_x facts').
    rewrite Hphase', Hx'.
    cbn [bind value_of phase_value py_compare py_eq as_num].
    change (String.eqb "searching" "searching") with true.
    cbn [truthy negb py_order as_num bind].
    replace (Qltb car_x 300) with false
      by (symmetry; apply Qltb_ge; exact Hcar).
    reflexivity. }
  assert (Hstop : Rule.evaluate KnowledgeBase.emergency_stop facts' = true).
  { unfold Rule.evaluate.
    change (Rule.conditions KnowledgeBase.emergency_stop)
      with [Source "front_sensor < 30"
              (Compare OpLt (Name "front_sensor") (num 30));
            throttle_positive].
    rewrite !check_cons, !prepare_transparent by (assumption || reflexivity).
    cbn [ast throttle_positive eval num].
    change (lookup_name "front_sensor" facts')
      with (dict_get k_front_sensor facts').
    change (lookup_name "throttle" facts') with (dict_get k_throttle facts').
    rewrite Hfront', Hthrottle'.
    cbn [bind value_of py_compare py_order as_num].
    change (Qltb 20 30) with true.
    cbn [truthy negb bind].
    replace (Qltb 0 throttle) with true
      by (symmetry; apply Qltb_lt; exact Ht).
    reflexivity. }
  assert (Hinfer : decision
                   = KnowledgeBase.apply_rule (KnowledgeBase.config self) facts'
                       KnowledgeBase.emergency_stop).
  { unfold decision.
    rewrite (infer_selected self KnowledgeBase.emergency_stop); [reflexivity|].
    fold facts'. unfold KnowledgeBase.sorted_rules. rewrite Hrules.
    destruct sorted_table_head as [rest ->].
    cbn [find]. rewrite Hstart, Hstop. reflexivity. }
  split; [rewrite Hrules; right; left; reflexivity|].
  split; [exact Hinfer|].
  rewrite Hinfer; repeat split.
Qed.

(** A store with exactly the facts of the scenario and [car_x] = 300. *)
Lemma emergency_stop_decision_witness :
  let self :=
    KnowledgeBase.set_facts (KnowledgeBase.__init__ ParkingConfig.default)
      [(k_phase, FPhase SEARCHING); (k_car_x, FNum 300);
       (k_front_sensor, FNum 20); (k_throttle, FNum 1.75)] in
  let decision := fst (KnowledgeBase.infer self) in
  In ("emergency_stop", KnowledgeBase.emergency_stop) (KnowledgeBase.rules self)
  /\ decision
     = KnowledgeBase.apply_rule (KnowledgeBase.config self)
         (KnowledgeBase.prologue (KnowledgeBase.config self)
            (KnowledgeBase.facts self))
         KnowledgeBase.emergency_stop
  /\ DecisionInfo.throttle decision = VNum 0
  /\ DecisionInfo.steering decision = VNum 0
  /\ DecisionInfo.emergency decision = true
  /\ DecisionInfo.rule_applied decision = Rule.name KnowledgeBase.emergency_stop.
Proof.
  apply (emergency_stop_decision
           (KnowledgeBase.set_facts (KnowledgeBase.__init__ ParkingConfig.default)
              [(k_phase, FPhase SEARCHING); (k_car_x, FNum 300);
               (k_front_sensor, FNum 20); (k_throttle, FNum 1.75)])
           300 1.75);
    try reflexivity; try (vm_compute; discriminate).
  simpl; repeat constructor; simpl; intuition discriminate.
Defined.

(** C10, as stated, fails: with the same phase, front sensor and throttle
    but the car at its starting abscissa 200, the start rule, declared
    before the emergency rule with the same priority, matches first; the
    decision commands a throttle of 1.75 and sets no emergency.  So it is
    not the case that every store with that phase, front sensor and a
    positive throttle yields the emergency decision. *)
Lemma start_rule_preempts_emergency_stop :
  let self :=
    KnowledgeBase.set_facts (KnowledgeBase.__init__ ParkingConfig.default)
      [(k_phase, FPhase SEARCHING); (k_car_x, FNum 200);
       (k_front_sensor, FNum 20); (k_throttle, FNum 1.75)] in
  let decision := fst (KnowledgeBase.infer self) in
  (Rule.evaluate KnowledgeBase.emergency_stop
     (KnowledgeBase.facts (snd (KnowledgeBase.infer self))) = true
   /\ DecisionInfo.rule_applied decision = Rule.name KnowledgeBase.initial_start
   /\ DecisionInfo.throttle decision = VNum 1.75
   /\ DecisionInfo.emergency decision = false
   /\ DecisionInfo.rule_applied decision
      <> Rule.name KnowledgeBase.emergency_stop)
  /\ ~ (forall (kb : KnowledgeBase.t) (throttle : Q),
          KnowledgeBase.rules kb = KnowledgeBase._build_rules ->
          NoDup (map fst (KnowledgeBase.facts kb)) ->
          dict_get k_phase (KnowledgeBase.facts kb) = Some (FPhase SEARCHING) ->
          dict_get k_front_sensor (KnowledgeBase.facts kb) = Some (FNum 20) ->
          dict_get k_throttle (KnowledgeBase.facts kb) = Some (FNum throttle) ->
          0 < throttle ->
          DecisionInfo.throttle (fst (KnowledgeBase.infer kb)) = VNum 0
          /\ DecisionInfo.steering (fst (KnowledgeBase.infer kb)) = VNum 0
          /\ DecisionInfo.emergency (fst (KnowledgeBase.infer kb)) = true
          /\ DecisionInfo.rule_applied (fst (KnowledgeBase.infer kb))
             = Rule.name KnowledgeBase.emergency_stop).
Proof.
  intros self decision.
  assert (Hem : DecisionInfo.emergency decision = false)
    by (vm_compute; reflexivity).
  split.
  - repeat split; try (vm_compute; reflexivity).
    vm_compute; discriminate.
  - intro Hall.
    destruct (Hall self 1.75) as (_ & _ & He & _);
      try reflexivity; try (vm_compute; reflexivity).
    + simpl; repeat constructor; simpl; intuition discriminate.
    + fold decision in He. rewrite Hem in He; discriminate He.
Qed.

(** ** Action templates that fail to evaluate *)

(** C8 (amended).  When the throttle or steering template of the rule
    [infer] applies fails to evaluate against the facts, [infer] still
    returns a decision, and the corresponding output of that decision is the
    text of the template, unevaluated. *)
Theorem infer_failed_template_keeps_text (self : KnowledgeBase.t)
    (rule : Rule.t) (src : py_source) (err : exn) :
  let facts' := KnowledgeBase.prologue (KnowledgeBase.config self)
                  (KnowledgeBase.facts self) in
  let context := KnowledgeBase.eval_context (KnowledgeBase.config self) facts' in
  find (fun r => Rule.evaluate r facts') (KnowledgeBase.sorted_rules self)
  = Some rule ->
  has_operator_char (text src) = true ->
  eval false context (ast src) = Raise err ->
  let decision := fst (KnowledgeBase.infer self) in
  decision = KnowledgeBase.apply_rule (KnowledgeBase.config self) facts' rule
  /\ (Actions.throttle (Rule.actions rule) = Actions.Str src ->
      DecisionInfo.throttle decision = VStr (text src))
  /\ (Actions.steering (Rule.actions rule) = Actions.Str src ->
      DecisionInfo.steering decision = VStr (text src)).
Proof.
  intros facts' context Hfind Hop Herr decision.
  assert (Hd : decision
               = KnowledgeBase.apply_rule (KnowledgeBase.config self) facts' rule)
    by (unfold decision; rewrite (infer_selected self rule Hfind); reflexivity).
  split; [exact Hd|].
  split; intro Ha; rewrite Hd; unfold KnowledgeBase.apply_rule; simpl;
    rewrite Ha; unfold KnowledgeBase.run_action; rewrite Hop;
    fold facts'; fold context; rewrite Herr; reflexivity.
Qed.

(** The approach rule on a store without [car_y]: its steering template
    reads [car_y]. *)
Lemma infer_failed_template_keeps_text_witness :
  let spot := ParkingSpot.Build 400 550 100 120 false true in
  let self :=
    KnowledgeBase.set_facts (KnowledgeBase.__init__ ParkingConfig.default)
      [(k_phase, FPhase APPROACH); (k_car_x, FNum 100);
       (k_selected_spot, FSpot spot)] in
  let src :=
    Source "-(car_y - (selected_spot.y - CAR_WIDTH * 1.5)) * 0.008"
      (BinOp OpMult (USub lateral_offset) (num 0.008)) in
  let facts' := KnowledgeBase.prologue (KnowledgeBase.config self)
                  (KnowledgeBase.facts self) in
  let decision := fst (KnowledgeBase.infer self) in
  decision
  = KnowledgeBase.apply_rule (KnowledgeBase.config self) facts'
      KnowledgeBase.approach_spot
  /\ (Actions.throttle (Rule.actions KnowledgeBase.approach_spot)
      = Actions.Str src ->
      DecisionInfo.throttle decision = VStr (text src))
  /\ (Actions.steering (Rule.actions KnowledgeBase.approach_spot)
      = Actions.Str src ->
      DecisionInfo.steering decision = VStr (text src)).
Proof.
  apply (infer_failed_template_keeps_text
           (KnowledgeBase.set_facts (KnowledgeBase.__init__ ParkingConfig.default)
              [(k_phase, FPhase APPROACH); (k_car_x, FNum 100);
               (k_selected_spot,
                FSpot (ParkingSpot.Build 400 550 100 120 false true))])
           KnowledgeBase.approach_spot
           (Source "-(car_y - (selected_spot.y - CAR_WIDTH * 1.5)) * 0.008"
              (BinOp OpMult (USub lateral_offset) (num 0.008)))
           NameError);
    vm_compute; reflexivity.
Defined.

(** C8, as stated, fails.  Two calls of [update_facts] give a store with
    the approach phase, [car_x] and a spot, but no [car_y].  [infer] applies
    the approach rule; the steering template fails; the steering output is
    the template text, not the steering fact of the store (0), and the
    conversion [float(decision["steering"])] of the control loop raises
    [ValueError].  So it is not the case that a failed template leaves the
    output at the value the store holds for it and that the decision goes
    through the control loop. *)
Lemma failed_template_reaches_control_loop :
  let spot := ParkingSpot.Build 400 550 100 120 false true in
  let kb0 := KnowledgeBase.__init__ ParkingConfig.default in
  let car := Car.__init__ 100 500 0 (0, 100, 255)%Z in
  (exists kb1 kb2,
     KnowledgeBase.update_facts (M := rational_math) kb0
       [(k_phase, FPhase APPROACH); (k_car_x, FNum 100)] = Ok kb1
     /\ KnowledgeBase.update_facts (M := rational_math) kb1
          [(k_selected_spot, FSpot spot)] = Ok kb2
     /\ let decision := fst (KnowledgeBase.infer kb2) in
        DecisionInfo.rule_applied decision = Rule.name KnowledgeBase.approach_spot
        /\ dict_get k_steering
             (KnowledgeBase.facts (snd (KnowledgeBase.infer kb2)))
           = Some (FNum 0)
        /\ DecisionInfo.steering decision
           = VStr "-(car_y - (selected_spot.y - CAR_WIDTH * 1.5)) * 0.008"
        /\ DecisionInfo.steering decision <> VNum 0
        /\ DecisionInfo.emergency decision = false
        /\ ParkingSimulation.apply_decision decision car = Raise ValueError)
  /\ ~ (forall (kb : KnowledgeBase.t) (rule : Rule.t) (src : py_source)
               (err : exn) (previous : fact_value) (vehicle : Car.t),
          let facts' := KnowledgeBase.prologue (KnowledgeBase.config kb)
                          (KnowledgeBase.facts kb) in
          find (fun r => Rule.evaluate r facts') (KnowledgeBase.sorted_rules kb)
          = Some rule ->
          Actions.steering (Rule.actions rule) = Actions.Str src ->
          has_operator_char (text src) = true ->
          eval false (KnowledgeBase.eval_context (KnowledgeBase.config kb) facts')
            (ast src) = Raise err ->
          dict_get k_steering facts' = Some previous ->
          DecisionInfo.steering (fst (KnowledgeBase.infer kb)) = value_of previous
          /\ exists vehicle',
               ParkingSimulation.apply_decision (fst (KnowledgeBase.infer kb))
                 vehicle = Ok vehicle').
Proof.
  intros spot kb0 car.
  set (kb2 := KnowledgeBase.set_facts kb0
                [(k_phase, FPhase APPROACH); (k_car_x, FNum 100);
                 (k_selected_spot, FSpot spot)]).
  split.
  - exists (KnowledgeBase.set_facts kb0
              [(k_phase, FPhase APPROACH); (k_car_x, FNum 100)]), kb2.
    split; [reflexivity|]. split; [reflexivity|].
    repeat split; try (vm_compute; reflexivity).
    vm_compute; discriminate.
  - intro Hall.
    destruct (Hall kb2 KnowledgeBase.approach_spot
                (Source "-(car_y - (selected_spot.y - CAR_WIDTH * 1.5)) * 0.008"
                   (BinOp OpMult (USub lateral_offset) (num 0.008)))
                NameError (FNum 0) car) as [Hs _];
      try (vm_compute; reflexivity).
    vm_compute in Hs; discriminate Hs.
Qed.
(** * Further properties *)

(** ** Phase machine *)

(** X1.  The manual transition moves to the next phase in declaration
    order, wraps from PARKED to SEARCHING, and from ABORTED goes to
    APPROACH; it never lands on ABORTED.  It resets the timer and touches
    nothing else: the parked flag and the selected spot stay as they
    were. *)
Theorem manual_phase_transition_cycle (self : ParkingSimulation.t) :
  let self' := ParkingSimulation.manual_phase_transition self in
  ParkingSimulation.current_phase self'
  = match ParkingSimulation.current_phase self with
    | SEARCHING => APPROACH
    | APPROACH => POSITIONING
    | POSITIONING => PREPARE_REVERSE
    | PREPARE_REVERSE => REVERSE_RIGHT
    | REVERSE_RIGHT => REVERSE_LEFT
    | REVERSE_LEFT => FINAL_ADJUST
    | FINAL_ADJUST => PARKED
    | PARKED => SEARCHING
    | ABORTED => APPROACH
    end
  /\ ParkingSimulation.current_phase self' <> ABORTED
  /\ ParkingSimulation.phase_timer self' = 0
  /\ ParkingSimulation.parked self' = ParkingSimulation.parked self
  /\ ParkingSimulation.selected_spot self' = ParkingSimulation.selected_spot self
  /\ ParkingSimulation.player_car self' = ParkingSimulation.player_car self
  /\ ParkingSimulation.expert_system self' = ParkingSimulation.expert_system self.
Proof.
  unfold ParkingSimulation.manual_phase_transition.
  destruct (ParkingSimulation.current_phase self) eqn:E; cbn;
    repeat split; discriminate.
Qed.

(** X2.  [handle_phase_transitions] raises in exactly one situation: the
    approach phase with no spot selected, where it reads [selected_spot.x];
    the exception is an [AttributeError]. *)
Theorem handle_phase_transitions_raises (self : ParkingSimulation.t) :
  match ParkingSimulation.handle_phase_transitions self with
  | Raise e =>
      e = AttributeError
      /\ ParkingSimulation.current_phase self = APPROACH
      /\ ParkingSimulation.selected_spot self = None
  | Ok _ =>
      ParkingSimulation.current_phase self <> APPROACH
      \/ ParkingSimulation.selected_spot self <> None
  end.
Proof.
  unfold ParkingSimulation.handle_phase_transitions.
  destruct (ParkingSimulation.current_phase self);
    try destruct (ParkingSimulation.selected_spot self);
    repeat match goal with
      | |- context [if ?c then _ else _] => destruct c
      end;
    try (left; discriminate); try (right; discriminate); repeat split.
Qed.

Lemma handle_phase_transitions_shape (self self' : ParkingSimulation.t) :
  ParkingSimulation.handle_phase_transitions self = Ok self' ->
  self' = self
  \/ exists phase timer flag,
       self' = ParkingSimulation.set_phase self phase timer flag.
Proof.
  unfold ParkingSimulation.handle_phase_transitions.
  destruct (ParkingSimulation.current_phase self);
    try destruct (ParkingSimulation.selected_spot self);
    repeat match goal with
      | |- context [if ?c then _ else _] => destruct c
      end;
    intro H; inversion H; subst; clear H;
    try (left; reflexivity); right; do 3 eexists; reflexivity.
Qed.

(** X3.  An automatic transition never skips a phase and never goes back:
    when [handle_phase_transitions] returns, the state is unchanged or the
    phase is the next one in declaration order.  PARKED and ABORTED are
    never left, ABORTED is never entered, the car, the spot and the expert
    system are never touched, and the parked flag is raised exactly on
    entering PARKED. *)
Theorem handle_phase_transitions_monotone (self self' : ParkingSimulation.t) :
  ParkingSimulation.handle_phase_transitions self = Ok self' ->
  (self' = self
   \/ (phase_index (ParkingSimulation.current_phase self')
       = S (phase_index (ParkingSimulation.current_phase self))
       /\ ParkingSimulation.current_phase self' <> ABORTED
       /\ ParkingSimulation.parked self'
          = (ParkingSimulation.parked self
             || phase_eqb (ParkingSimulation.current_phase self') PARKED)))
  /\ (ParkingSimulation.current_phase self = PARKED
      \/ ParkingSimulation.current_phase self = ABORTED -> self' = self)
  /\ ParkingSimulation.player_car self' = ParkingSimulation.player_car self
  /\ ParkingSimulation.selected_spot self' = ParkingSimulation.selected_spot self
  /\ ParkingSimulation.expert_system self' = ParkingSimulation.expert_system self.
Proof.
  intro H.
  assert (Hfields :
            ParkingSimulation.player_car self' = ParkingSimulation.player_car self
            /\ ParkingSimulation.selected_spot self'
               = ParkingSimulation.selected_spot self
            /\ ParkingSimulation.expert_system self'
               = ParkingSimulation.expert_system self).
  { destruct (handle_phase_transitions_shape self self' H)
      as [->|(p & t & b & ->)]; repeat split. }
  split; [|split; [|exact Hfields]]; clear Hfields; revert H;
    unfold ParkingSimulation.handle_phase_transitions;
    destruct (ParkingSimulation.current_phase self) eqn:E;
    try destruct (ParkingSimulation.selected_spot self);
    repeat match goal with
      | |- context [if ?c then _ else _] => destruct c
      end;
    intro H; inversion H; subst; clear H;
    try (intros [X|X]; discriminate X);
    try (intros [X|X]; reflexivity);
    try (left; reflexivity);
    right; cbn; rewrite ?E; repeat split;
    try discriminate; rewrite ?orb_false_r, ?orb_true_r; reflexivity.
Qed.

Lemma handle_phase_transitions_monotone_witness :
  let self :=
    ParkingSimulation.set_phase (ParkingSimulation.__init__ []) POSITIONING 3.1
      false in
  let self' := ParkingSimulation.set_phase self PREPARE_REVERSE 0 false in
  (self' = self
   \/ (phase_index (ParkingSimulation.current_phase self')
       = S (phase_index (ParkingSimulation.current_phase self))
       /\ ParkingSimulation.current_phase self' <> ABORTED
       /\ ParkingSimulation.parked self'
          = (ParkingSimulation.parked self
             || phase_eqb (ParkingSimulation.current_phase self') PARKED)))
  /\ (ParkingSimulation.current_phase self = PARKED
      \/ ParkingSimulation.current_phase self = ABORTED -> self' = self)
  /\ ParkingSimulation.player_car self' = ParkingSimulation.player_car self
  /\ ParkingSimulation.selected_spot self' = ParkingSimulation.selected_spot self
  /\ ParkingSimulation.expert_system self' = ParkingSimulation.expert_system self.
Proof.
  apply (handle_phase_transitions_monotone
           (ParkingSimulation.set_phase (ParkingSimulation.__init__ [])
              POSITIONING 3.1 false)).
  vm_compute; reflexivity.
Defined.
(** ** Spot selection *)

Lemma dist_le_refl (a : option Q) : dist_le a a.
Proof. destruct a; simpl; [apply Qle_refl|exact I]. Qed.

Lemma dist_le_trans (a b c : option Q) : dist_le a b -> dist_le b c -> dist_le a c.
Proof.
  destruct a, b, c; simpl; auto; try contradiction.
  apply Qle_trans.
Qed.

Lemma min_dist_fold (spot : ParkingSpot.t) (cars : list Car.t) (start : option Q) :
  let step := fun (best : option Q) (obs : Car.t) =>
    let d := Qabs (Car.x obs - ParkingSpot.x spot) in
    match best with
    | None => Some d
    | Some b => if Qltb d b then Some d else best
    end in
  let r := fold_left step cars start in
  (r = None <-> start = None /\ cars = [])
  /\ dist_le r start
  /\ (forall obs, In obs cars ->
        dist_le r (Some (Qabs (Car.x obs - ParkingSpot.x spot))))
  /\ (r = start
      \/ exists obs, In obs cars
                     /\ r = Some (Qabs (Car.x obs - ParkingSpot.x spot))).
Proof.
  intros step; revert start; induction cars as [|obs cars IH]; intro start; simpl.
  - repeat split; try tauto; try apply dist_le_refl.
  - destruct (IH (step start obs)) as (H1 & H2 & H3 & H4).
    assert (Hstep : dist_le (step start obs) start
                    /\ dist_le (step start obs)
                         (Some (Qabs (Car.x obs - ParkingSpot.x spot)))
                    /\ step start obs <> None
                    /\ (step start obs = start
                        \/ step start obs
                           = Some (Qabs (Car.x obs - ParkingSpot.x spot)))).
    { unfold step; destruct start as [b|]; simpl.
      - destruct (Qltb _ b) eqn:E; simpl.
        + apply Qltb_lt in E. repeat split;
            [apply Qlt_le_weak; exact E|apply Qle_refl|discriminate|right; reflexivity].
        + apply Qltb_ge in E. repeat split;
            [apply Qle_refl|exact E|discriminate|left; reflexivity].
      - repeat split; [apply Qle_refl|discriminate|right; reflexivity]. }
    destruct Hstep as (S1 & S2 & S3 & S4).
    assert (Hnone : fold_left step cars (step start obs) <> None)
      by (intro Hr; apply H1 in Hr; destruct Hr as [Hr _]; contradiction).
    split; [split; [intro Hr; contradiction|intros [_ Hn]; discriminate Hn]|].
    repeat split.
    + eapply dist_le_trans; eassumption.
    + intros o [<-|Ho]; [eapply dist_le_trans; eassumption|apply H3; exact Ho].
    + destruct H4 as [H4|(o & Ho & H4)].
      * destruct S4 as [S4|S4]; [left; rewrite H4; exact S4|].
        right; exists obs; split; [left; reflexivity|rewrite H4; exact S4].
      * right; exists o; split; [right; exact Ho|exact H4].
Qed.

(** X4.  [min_dist_to_obstacle] is infinite exactly when there is no
    obstacle car; otherwise it is the least distance along the road axis
    between the spot and an obstacle car ([abs(obs.x - spot.x)], the
    ordinate plays no part), it is attained by some car, and it is not
    negative. *)
Theorem min_dist_to_obstacle_least (self : ParkingSimulation.t)
    (spot : ParkingSpot.t) :
  match ParkingSimulation.min_dist_to_obstacle self spot with
  | None => ParkingSimulation.obstacle_cars self = []
  | Some d =>
      0 <= d
      /\ (exists obs, In obs (ParkingSimulation.obstacle_cars self)
                      /\ d = Qabs (Car.x obs - ParkingSpot.x spot))
      /\ (forall obs, In obs (ParkingSimulation.obstacle_cars self) ->
                      d <= Qabs (Car.x obs - ParkingSpot.x spot))
  end.
Proof.
  unfold ParkingSimulation.min_dist_to_obstacle.
  destruct (min_dist_fold spot (ParkingSimulation.obstacle_cars self) None)
    as (H1 & _ & H3 & H4).
  cbv zeta in *.
  destruct (fold_left _ _ None) as [d|] eqn:E.
  - destruct H4 as [H4|(obs & Ho & H4)]; [discriminate H4|].
    assert (Hd : d = Qabs (Car.x obs - ParkingSpot.x spot)) by congruence.
    clear H4.
    repeat split.
    + rewrite Hd; apply Qabs_nonneg.
    + exists obs; split; [exact Ho|exact Hd].
    + intros o Hin; exact (H3 o Hin).
  - apply H1; reflexivity.
Qed.

(** The comparison [min_dist_to_obstacle > max_distance] of the loop. *)
Lemma larger_spec (m mx : option Q) :
  let larger :=
    match m, mx with
    | None, None => false
    | None, Some _ => true
    | Some _, None => false
    | Some d, Some b => Qltb b d
    end in
  if larger then ~ dist_le m mx else dist_le m mx.
Proof.
  destruct m as [d|], mx as [b|]; simpl; auto.
  destruct (Qltb b d) eqn:E.
  - apply Qltb_lt in E; intro H; exact (Qlt_not_le _ _ E H).
  - apply Qltb_ge in E; exact E.
Qed.

Lemma dist_le_total (a b : option Q) : ~ dist_le a b -> dist_le b a.
Proof.
  destruct a, b; simpl; auto; try tauto.
  intro H; apply Qlt_le_weak; apply Qnot_le_lt; exact H.
Qed.

Lemma find_best_fold (self : ParkingSimulation.t) (spots done : list ParkingSpot.t)
    (mx : option Q) (best : option ParkingSpot.t) :
  let min_dist := ParkingSimulation.min_dist_to_obstacle self in
  let step := fun (acc : option Q * option ParkingSpot.t) spot =>
    let (max_distance, best_spot) := acc in
    let m := min_dist spot in
    let larger :=
      match m, max_distance with
      | None, None => false
      | None, Some _ => true
      | Some _, None => false
      | Some d, Some b => Qltb b d
      end in
    if larger then (m, Some spot) else acc in
  let good (seen : list ParkingSpot.t) (acc : option Q * option ParkingSpot.t) :=
    dist_le (Some 0) (fst acc)
    /\ (forall t, In t seen -> dist_le (min_dist t) (fst acc))
    /\ match snd acc with
       | None => fst acc = Some 0
       | Some s =>
           min_dist s = fst acc
           /\ ~ dist_le (fst acc) (Some 0)
           /\ exists before after,
                seen = before ++ s :: after
                /\ forall t, In t before -> ~ dist_le (min_dist s) (min_dist t)
       end in
  good done (mx, best) ->
  good (done ++ spots) (fold_left step spots (mx, best)).
Proof.
  intros min_dist step good; revert done mx best.
  induction spots as [|spot spots IH]; intros done mx best Hgood.
  - rewrite app_nil_r; exact Hgood.
  - change (fold_left step (spot :: spots) (mx, best))
      with (fold_left step spots (step (mx, best) spot)).
    replace (done ++ spot :: spots) with ((done ++ [spot]) ++ spots)
      by (rewrite <- app_assoc; reflexivity).
    destruct (step (mx, best) spot) as [mx' best'] eqn:Estep.
    apply IH.
    destruct Hgood as (G1 & G2 & G3);
      change (dist_le (Some 0) mx) in G1;
      change (forall t, In t done -> dist_le (min_dist t) mx) in G2;
      cbn [fst snd] in G3.
    unfold step in Estep.
    pose proof (larger_spec (min_dist spot) mx) as Hl; cbv zeta in Hl.
    destruct (match min_dist spot, mx with
              | None, None => false
              | None, Some _ => true
              | Some _, None => false
              | Some d, Some b => Qltb b d
              end).
    + inversion Estep; subst mx' best'; clear Estep.
      assert (Hmx : dist_le mx (min_dist spot)) by (apply dist_le_total; exact Hl).
      unfold good; simpl. repeat split.
      * exact (dist_le_trans _ _ _ G1 Hmx).
      * intros t Ht; apply in_app_or in Ht; destruct Ht as [Ht|[<-|[]]];
          [exact (dist_le_trans _ _ _ (G2 t Ht) Hmx)|apply dist_le_refl].
      * intro H; apply Hl. exact (dist_le_trans _ _ _ H G1).
      * exists done, []; split; [reflexivity|].
        intros t Ht H; apply Hl.
        exact (dist_le_trans _ _ _ H (G2 t Ht)).
    + inversion Estep; subst mx' best'; clear Estep.
      unfold good; simpl. repeat split.
      * exact G1.
      * intros t Ht; apply in_app_or in Ht; destruct Ht as [Ht|[<-|[]]];
          [apply G2; exact Ht|exact Hl].
      * destruct best as [s|]; [|exact G3].
        destruct G3 as (G3 & G4 & before & after & -> & G5).
        repeat split; try assumption.
        exists before, (after ++ [spot]); split; [|exact G5].
        rewrite <- app_assoc; reflexivity.
Qed.

(** X5.  [find_best_parking_spot] returns a spot of the list that is not
    occupied, whose distance to the nearest obstacle car is positive and at
    least that of every other free spot; among the free spots with that
    distance it is the first of the list.  It returns [None] exactly when
    every free spot has an obstacle car at distance 0 or there is no free
    spot. *)
Theorem find_best_parking_spot_best (self : ParkingSimulation.t) :
  let min_dist := ParkingSimulation.min_dist_to_obstacle self in
  let free := filter (fun spot => negb (ParkingSpot.occupied spot))
                (ParkingSimulation.parking_spots self) in
  match ParkingSimulation.find_best_parking_spot self with
  | Some s =>
      In s (ParkingSimulation.parking_spots self)
      /\ ParkingSpot.occupied s = false
      /\ dist_positive (min_dist s)
      /\ (forall t, In t free -> dist_le (min_dist t) (min_dist s))
      /\ exists before after,
           free = before ++ s :: after
           /\ forall t, In t before -> ~ dist_le (min_dist s) (min_dist t)
  | None => forall t, In t free -> dist_le (min_dist t) (Some 0)
  end.
Proof.
  intros min_dist free.
  unfold ParkingSimulation.find_best_parking_spot; fold free.
  pose proof (find_best_fold self free [] (Some 0) None) as H.
  cbv zeta in H. simpl app in H.
  match type of H with
  | ?P -> _ => assert (H0 : P)
  end.
  { simpl; repeat split; [apply Qle_refl|intros t []]. }
  specialize (H H0); clear H0.
  destruct (fold_left _ free (Some 0, None)) as [mx best].
  destruct H as (H1 & H2 & H3); simpl in H1, H2, H3; simpl snd.
  destruct best as [s|].
  - destruct H3 as (H3 & H4 & before & after & Hfree & H5).
    fold min_dist in H3, H5.
    assert (Hin : In s free) by (rewrite Hfree; apply in_elt).
    apply filter_In in Hin; destruct Hin as [Hin Hocc].
    apply negb_true_iff in Hocc.
    repeat split; try assumption.
    + rewrite H3. destruct mx as [m|]; simpl in *; [|exact I].
      apply Qnot_le_lt; exact H4.
    + intros t Ht; rewrite H3; apply H2; exact Ht.
    + exists before, after; split; assumption.
  - subst mx; exact H2.
Qed.
(** ** Decisions and their log *)

Section Decisions.
Context {M : Math}.

(** With the typed inputs of [make_decision], [update_facts] succeeds. *)
Lemma update_facts_inputs (kb : KnowledgeBase.t) (phase : ParkingPhase)
    (car_pos : Q * Q) (car_angle : Q) (target_spot : option ParkingSpot.t)
    (s2 s3 s4 s1 s5 s0 s6 s7 : Q) :
  exists kb1,
    KnowledgeBase.update_facts kb
      [ (k_phase, FPhase phase);
        (k_car_x, FNum (fst car_pos));
        (k_car_y, FNum (snd car_pos));
        (k_car_angle, FNum car_angle);
        (k_selected_spot, ExpertSystem.spot_fact target_spot);
        (k_front_left_sensor, FNum s2);
        (k_front_sensor, FNum s3);
        (k_front_right_sensor, FNum s4);
        (k_left_sensor, FNum s1);
        (k_right_sensor, FNum s5);
        (k_rear_left_sensor, FNum s0);
        (k_rear_right_sensor, FNum s6);
        (k_rear_sensor, FNum s7) ] = Ok kb1.
Proof.
  unfold KnowledgeBase.update_facts.
  destruct target_spot as [spot|]; eexists; reflexivity.
Qed.

(** X6.  [make_decision] raises [IndexError] when it is given fewer than
    eight sensor readings.  With eight or more it returns a decision, and
    the expert system it leaves has the same configuration and rule table
    and a history with exactly one more entry, at the end, which records
    the phase, the decision, the sensor list, the pose and the rule
    applied. *)
Theorem make_decision_log (self : ExpertSystem.t) (phase : ParkingPhase)
    (sensors : list Q) (car_pos : Q * Q) (car_angle : Q)
    (target_spot : option ParkingSpot.t) :
  if (List.length sensors <? 8)%nat then
    ExpertSystem.make_decision self phase sensors car_pos car_angle target_spot
    = Raise IndexError
  else
    exists decision kb',
      ExpertSystem.make_decision self phase sensors car_pos car_angle target_spot
      = Ok (decision,
            ExpertSystem.Build (ExpertSystem.config self) kb'
              (ExpertSystem.decision_history self
               ++ [ExpertSystem.Log (phase_value phase) decision sensors car_pos
                     car_angle (DecisionInfo.rule_applied decision)]))
      /\ KnowledgeBase.config kb'
         = KnowledgeBase.config (ExpertSystem.knowledge_base self)
      /\ KnowledgeBase.rules kb'
         = KnowledgeBase.rules (ExpertSystem.knowledge_base self).
Proof.
  do 8 (destruct sensors as [|? sensors]; [reflexivity|]).
  change (List.length _ <? 8)%nat with false; cbv iota.
  unfold ExpertSystem.make_decision.
  cbn [bind ExpertSystem.sensor_at nth_error].
  match goal with
  | |- context [KnowledgeBase.update_facts ?kb ?kwargs] =>
      destruct (update_facts_inputs kb phase car_pos car_angle target_spot
                  q1 q2 q3 q0 q4 q q5 q6) as [kb1 Hkb1];
      assert (Hcfg : KnowledgeBase.config kb1 = KnowledgeBase.config kb
                     /\ KnowledgeBase.rules kb1 = KnowledgeBase.rules kb)
  end.
  { revert Hkb1; unfold KnowledgeBase.update_facts.
    destruct target_spot; cbn; intro H; inversion H; split; reflexivity. }
  rewrite Hkb1; cbn [bind].
  pose proof (infer_facts kb1) as _.
  assert (Hinf : KnowledgeBase.config (snd (KnowledgeBase.infer kb1))
                 = KnowledgeBase.config kb1
                 /\ KnowledgeBase.rules (snd (KnowledgeBase.infer kb1))
                    = KnowledgeBase.rules kb1)
    by (unfold KnowledgeBase.infer; destruct (find _ _); split; reflexivity).
  destruct (KnowledgeBase.infer kb1) as [decision kb'].
  exists decision, kb'. split; [reflexivity|].
  simpl in Hinf; destruct Hinf as [-> ->]; exact Hcfg.
Qed.
End Decisions.
(** ** Updating the facts *)

Lemma dict_get_update (k : fact_key) (items d : dict) :
  NoDup (map fst items) ->
  dict_get k (dict_update d items)
  = match dict_get k items with
    | Some v => Some v
    | None => dict_get k d
    end.
Proof.
  unfold dict_update; revert d.
  induction items as [|[k' v'] items IH]; simpl; intros d Hnd; [reflexivity|].
  inversion Hnd as [|? ? Hnot Hnd']; subst.
  rewrite IH by exact Hnd'.
  destruct (key_eqb k k') eqn:E.
  - apply key_eqb_eq in E; subst k'.
    apply dict_get_none_keys in Hnot; rewrite Hnot.
    apply dict_get_set_same.
  - rewrite dict_get_set, E; reflexivity.
Qed.

Lemma dict_mem_set (k k' : fact_key) (v : fact_value) (d : dict) :
  dict_mem k d = true -> dict_mem k (dict_set k' v d) = true.
Proof.
  unfold dict_mem; rewrite dict_get_set.
  destruct (key_eqb k k'); [reflexivity|auto].
Qed.

Lemma dict_mem_update (k : fact_key) (items d : dict) :
  dict_mem k d = true -> dict_mem k (dict_update d items) = true.
Proof.
  unfold dict_update; revert d.
  induction items as [|[k' v'] items IH]; simpl; intros d H; [exact H|].
  apply IH; apply dict_mem_set; exact H.
Qed.

Section UpdateFacts.
Context {M : Math}.

Lemma update_facts_shape (self self' : KnowledgeBase.t) (kwargs : dict) :
  KnowledgeBase.update_facts self kwargs = Ok self' ->
  self' = KnowledgeBase.set_facts self (dict_update (KnowledgeBase.facts self) kwargs)
  \/ exists q,
       self' = KnowledgeBase.set_facts self
                 (dict_set k_distance_to_spot (FNum q)
                    (dict_update (KnowledgeBase.facts self) kwargs)).
Proof.
  unfold KnowledgeBase.update_facts; intro H.
  destruct (_ && _).
  - repeat match type of H with
      | bind ?r _ = _ => destruct r; simpl in H; [|discriminate H]
      end.
    inversion H; right; eexists; reflexivity.
  - inversion H; left; reflexivity.
Qed.

(** X7.  After a successful [update_facts], every keyword argument can be
    read back from the store, every other fact is what it was, and no fact
    has disappeared; the derived fact [distance_to_spot] is the only key
    the call may write besides its arguments.  The configuration and the
    rule table are not touched. *)
Theorem update_facts_reads_back (self self' : KnowledgeBase.t) (kwargs : dict) :
  KnowledgeBase.update_facts self kwargs = Ok self' ->
  NoDup (map fst kwargs) ->
  KnowledgeBase.config self' = KnowledgeBase.config self
  /\ KnowledgeBase.rules self' = KnowledgeBase.rules self
  /\ (forall k, k <> k_distance_to_spot ->
        dict_get k (KnowledgeBase.facts self')
        = match dict_get k kwargs with
          | Some v => Some v
          | None => dict_get k (KnowledgeBase.facts self)
          end)
  /\ (forall k, dict_mem k (KnowledgeBase.facts self) = true ->
                dict_mem k (KnowledgeBase.facts self') = true).
Proof.
  intros H Hnd.
  destruct (update_facts_shape self self' kwargs H) as [->|[q ->]]; simpl;
    repeat split.
  - intros k _; apply dict_get_update; exact Hnd.
  - intros k Hk; apply dict_mem_update; exact Hk.
  - intros k Hk. rewrite dict_get_set_other by exact Hk.
    apply dict_get_update; exact Hnd.
  - intros k Hk; apply dict_mem_set, dict_mem_update; exact Hk.
Qed.

(** X8.  When the keyword arguments hold numbers for [car_x] and [car_y]
    and a spot for [selected_spot], [update_facts] succeeds and stores
    under [distance_to_spot] the value of [math.hypot] at the two
    coordinate differences between the car and the spot. *)
Theorem update_facts_distance (self : KnowledgeBase.t) (kwargs : dict)
    (car_x car_y : Q) (spot : ParkingSpot.t) :
  dict_get k_car_x kwargs = Some (FNum car_x) ->
  dict_get k_car_y kwargs = Some (FNum car_y) ->
  dict_get k_selected_spot kwargs = Some (FSpot spot) ->
  exists self',
    KnowledgeBase.update_facts self kwargs = Ok self'
    /\ dict_get k_distance_to_spot (KnowledgeBase.facts self')
       = Some (FNum (math_hypot (car_x - ParkingSpot.x spot)
                       (car_y - ParkingSpot.y spot))).
Proof.
  intros Hx Hy Hs. unfold KnowledgeBase.update_facts, dict_mem, KnowledgeBase.getitem.
  rewrite Hx, Hy, Hs. cbn.
  eexists; split; [reflexivity|]. cbn. apply dict_get_set_same.
Qed.

(** X9.  When the keyword arguments hold [car_x] and a spot but no
    [car_y], [update_facts] raises [KeyError]. *)
Theorem update_facts_missing_car_y (self : KnowledgeBase.t) (kwargs : dict)
    (car_x : Q) (spot : ParkingSpot.t) :
  dict_get k_car_x kwargs = Some (FNum car_x) ->
  dict_get k_selected_spot kwargs = Some (FSpot spot) ->
  dict_get k_car_y kwargs = None ->
  KnowledgeBase.update_facts self kwargs = Raise KeyError.
Proof.
  intros Hx Hs Hy. unfold KnowledgeBase.update_facts, dict_mem, KnowledgeBase.getitem.
  rewrite Hx, Hy, Hs. reflexivity.
Qed.

(** X10.  The distance is never refreshed without a spot: when the keyword
    arguments give [None] as the spot, or no spot or no [car_x] at all, and
    do not themselves name [distance_to_spot], the call succeeds and the
    store keeps the [distance_to_spot] it had, present or not. *)
Theorem update_facts_keeps_old_distance (self : KnowledgeBase.t) (kwargs : dict) :
  dict_get k_car_x kwargs = None
  \/ dict_get k_selected_spot kwargs = None
  \/ dict_get k_selected_spot kwargs = Some FNone ->
  dict_get k_distance_to_spot kwargs = None ->
  exists self',
    KnowledgeBase.update_facts self kwargs = Ok self'
    /\ dict_get k_distance_to_spot (KnowledgeBase.facts self')
       = dict_get k_distance_to_spot (KnowledgeBase.facts self).
Proof.
  intros Hc Hd. unfold KnowledgeBase.update_facts, dict_mem.
  assert (Hcond : match dict_get k_car_x kwargs with Some _ => true | None => false end
                  && match dict_get k_selected_spot kwargs with
                     | Some _ => true | None => false end
                  && match dict_get k_selected_spot kwargs with
                     | Some v => truthy (value_of v) | None => false end
                  = false).
  { destruct Hc as [ -> | [ -> | -> ] ]; [reflexivity| |].
    - apply andb_false_r.
    - apply andb_false_r. }
  rewrite Hcond. eexists; split; [reflexivity|]. simpl.
  apply dict_get_update_other. apply dict_get_none_keys; exact Hd.
Qed.
End UpdateFacts.

Lemma update_facts_reads_back_witness :
  let self := KnowledgeBase.__init__ ParkingConfig.default in
  let kwargs := [(k_phase, FPhase SEARCHING); (k_car_x, FNum 200)] in
  let self' := KnowledgeBase.set_facts self kwargs in
  KnowledgeBase.config self' = KnowledgeBase.config self
  /\ KnowledgeBase.rules self' = KnowledgeBase.rules self
  /\ (forall k, k <> k_distance_to_spot ->
        dict_get k (KnowledgeBase.facts self')
        = match dict_get k kwargs with
          | Some v => Some v
          | None => dict_get k (KnowledgeBase.facts self)
          end)
  /\ (forall k, dict_mem k (KnowledgeBase.facts self) = true ->
                dict_mem k (KnowledgeBase.facts self') = true).
Proof.
  apply (update_facts_reads_back (M := rational_math)
           (KnowledgeBase.__init__ ParkingConfig.default)
           (KnowledgeBase.set_facts (KnowledgeBase.__init__ ParkingConfig.default)
              [(k_phase, FPhase SEARCHING); (k_car_x, FNum 200)])
           [(k_phase, FPhase SEARCHING); (k_car_x, FNum 200)]).
  - reflexivity.
  - simpl; repeat constructor; simpl; intuition discriminate.
Defined.

Lemma update_facts_distance_witness :
  let spot := ParkingSpot.Build 400 550 100 120 false true in
  let kwargs :=
    [(k_car_x, FNum 300); (k_car_y, FNum 500); (k_selected_spot, FSpot spot)] in
  exists self',
    KnowledgeBase.update_facts (M := rational_math)
      (KnowledgeBase.__init__ ParkingConfig.default) kwargs = Ok self'
    /\ dict_get k_distance_to_spot (KnowledgeBase.facts self')
       = Some (FNum (math_hypot (Math := rational_math)
                       (300 - ParkingSpot.x spot) (500 - ParkingSpot.y spot))).
Proof.
  apply (update_facts_distance (M := rational_math)
           (KnowledgeBase.__init__ ParkingConfig.default)); reflexivity.
Defined.

Lemma update_facts_missing_car_y_witness :
  let spot := ParkingSpot.Build 400 550 100 120 false true in
  KnowledgeBase.update_facts (M := rational_math)
    (KnowledgeBase.__init__ ParkingConfig.default)
    [(k_car_x, FNum 300); (k_selected_spot, FSpot spot)] = Raise KeyError.
Proof.
  apply (update_facts_missing_car_y (M := rational_math)
           (KnowledgeBase.__init__ ParkingConfig.default) _ 300
           (ParkingSpot.Build 400 550 100 120 false true)); reflexivity.
Defined.

Lemma update_facts_keeps_old_distance_witness :
  let self :=
    KnowledgeBase.set_facts (KnowledgeBase.__init__ ParkingConfig.default)
      [(k_distance_to_spot, FNum 250)] in
  exists self',
    KnowledgeBase.update_facts (M := rational_math) self
      [(k_car_x, FNum 300); (k_car_y, FNum 500); (k_selected_spot, FNone)]
    = Ok self'
    /\ dict_get k_distance_to_spot (KnowledgeBase.facts self')
       = dict_get k_distance_to_spot (KnowledgeBase.facts self).
Proof.
  apply (update_facts_keeps_old_distance (M := rational_math)
           (KnowledgeBase.set_facts (KnowledgeBase.__init__ ParkingConfig.default)
              [(k_distance_to_spot, FNum 250)])
           [(k_car_x, FNum 300); (k_car_y, FNum 500); (k_selected_spot, FNone)]).
  - right; right; reflexivity.
  - reflexivity.
Defined.
(** ** The rule engine *)

Lemma check_true_iff (context : dict) (conds : list py_source) :
  Rule.check context conds = Ok true <->
  Forall (fun cond =>
            exists v, eval true context (Rule.prepare context (ast cond)) = Ok v
                      /\ truthy v = true)
    conds.
Proof.
  induction conds as [|c conds IH]; simpl.
  - split; [constructor|reflexivity].
  - destruct (eval true context (Rule.prepare context (ast c))) as [v|e] eqn:Hev;
      simpl.
    + destruct (truthy v) eqn:Ht; simpl.
      * rewrite IH; split.
        -- intro H; constructor; [exists v; split; [exact Hev|exact Ht]|exact H].
        -- intro H; inversion H; assumption.
      * split; [discriminate|].
        intro H; inversion H as [|? ? (w & Hw & Hw') _]; subst.
        rewrite Hev in Hw; inversion Hw; subst; congruence.
    + split; [discriminate|].
      intro H; inversion H as [|? ? (w & Hw & _) _].
      rewrite Hev in Hw; discriminate Hw.
Qed.

(** X11.  A rule matches exactly when every one of its conditions, taken
    alone, evaluates without an exception to a true value; a rule without
    conditions always matches. *)
Theorem evaluate_all_conditions (rule : Rule.t) (context : dict) :
  (Rule.evaluate rule context = true <->
   Forall (fun cond =>
             exists v, eval true context (Rule.prepare context (ast cond)) = Ok v
                       /\ truthy v = true)
     (Rule.conditions rule))
  /\ (Rule.conditions rule = [] -> Rule.evaluate rule context = true).
Proof.
  split.
  - rewrite <- check_true_iff. unfold Rule.evaluate.
    destruct (Rule.check context (Rule.conditions rule)) as [[|]|e];
      split; congruence.
  - intro H; unfold Rule.evaluate; rewrite H; reflexivity.
Qed.

Lemma table_emergency_flag (rule : Rule.t) :
  In rule (map snd KnowledgeBase._build_rules) ->
  Actions.emergency (Rule.actions rule) = true ->
  rule = KnowledgeBase.emergency_stop.
Proof.
  simpl; intros H He.
  repeat (destruct H as [<-|H]; [try discriminate He; try reflexivity|]).
  contradiction.
Qed.

(** X12.  With the rule table of the program, a decision of [infer] that
    has the emergency flag set comes from the emergency rule and from no
    other: its throttle and its steering are 0.  The fallback decision
    never has the flag. *)
Theorem emergency_only_from_emergency_stop (self : KnowledgeBase.t) :
  KnowledgeBase.rules self = KnowledgeBase._build_rules ->
  DecisionInfo.emergency (fst (KnowledgeBase.infer self)) = true ->
  let decision := fst (KnowledgeBase.infer self) in
  Rule.evaluate KnowledgeBase.emergency_stop
    (KnowledgeBase.facts (snd (KnowledgeBase.infer self))) = true
  /\ DecisionInfo.throttle decision = VNum 0
  /\ DecisionInfo.steering decision = VNum 0
  /\ DecisionInfo.rule_applied decision = Rule.name KnowledgeBase.emergency_stop.
Proof.
  intros Hrules He decision.
  assert (Hfacts := infer_facts self).
  unfold decision in *; clear decision.
  revert He Hfacts; unfold KnowledgeBase.infer.
  destruct (find _ _) as [rule|] eqn:Hfind; simpl; [|discriminate].
  intros He Hfacts.
  destruct (find_some _ _ Hfind) as [Hin Hev].
  apply sorted_reverse_In in Hin. rewrite Hrules in Hin.
  pose proof (table_emergency_flag rule Hin He) as ->.
  repeat split; exact Hev.
Qed.

Lemma emergency_only_from_emergency_stop_witness :
  let self :=
    KnowledgeBase.set_facts (KnowledgeBase.__init__ ParkingConfig.default)
      [(k_phase, FPhase SEARCHING); (k_car_x, FNum 300);
       (k_front_sensor, FNum 20); (k_throttle, FNum 1.75)] in
  let decision := fst (KnowledgeBase.infer self) in
  Rule.evaluate KnowledgeBase.emergency_stop
    (KnowledgeBase.facts (snd (KnowledgeBase.infer self))) = true
  /\ DecisionInfo.throttle decision = VNum 0
  /\ DecisionInfo.steering decision = VNum 0
  /\ DecisionInfo.rule_applied decision = Rule.name KnowledgeBase.emergency_stop.
Proof.
  apply (emergency_only_from_emergency_stop
           (KnowledgeBase.set_facts (KnowledgeBase.__init__ ParkingConfig.default)
              [(k_phase, FPhase SEARCHING); (k_car_x, FNum 300);
               (k_front_sensor, FNum 20); (k_throttle, FNum 1.75)]));
    vm_compute; reflexivity.
Defined.

Lemma dict_set_same_value (k : fact_key) (v : fact_value) (d : dict) :
  dict_get k d = Some v -> dict_set k v d = d.
Proof.
  induction d as [|[k' v'] d IH]; simpl; [discriminate|].
  destruct (key_eqb k k') eqn:E.
  - apply key_eqb_eq in E; subst k'. intro H; inversion H; reflexivity.
  - intro H; rewrite IH by exact H; reflexivity.
Qed.

Lemma prologue_idempotent (config : ParkingConfig.t) (facts : dict) :
  KnowledgeBase.prologue config (KnowledgeBase.prologue config facts)
  = KnowledgeBase.prologue config facts.
Proof.
  set (f := KnowledgeBase.prologue config facts).
  destruct (prologue_constants config facts) as (Hl & Hw & Hc); fold f in Hl, Hw, Hc.
  assert (Hmem : dict_mem k_throttle f = true /\ dict_mem k_steering f = true
                 /\ dict_mem k_emergency f = true).
  { unfold f, KnowledgeBase.prologue, dict_mem.
    repeat (rewrite dict_get_setdefault).
    repeat (rewrite dict_get_set_other by discriminate).
    destruct (dict_get k_throttle facts), (dict_get k_steering facts),
      (dict_get k_emergency facts); repeat split. }
  destruct Hmem as (Ht & Hs & He).
  unfold KnowledgeBase.prologue at 1.
  rewrite (dict_set_same_value _ _ _ Hc), (dict_set_same_value _ _ _ Hl),
    (dict_set_same_value _ _ _ Hw).
  unfold dict_setdefault. rewrite Ht, Hs, He. reflexivity.
Qed.

(** X13.  [infer] is idempotent: called again on the knowledge base it
    left, with no new fact, it returns the same decision and leaves the
    knowledge base as it is. *)
Theorem infer_idempotent (self : KnowledgeBase.t) :
  KnowledgeBase.infer (snd (KnowledgeBase.infer self)) = KnowledgeBase.infer self.
Proof.
  assert (Hsnd : snd (KnowledgeBase.infer self)
                 = KnowledgeBase.set_facts self
                     (KnowledgeBase.prologue (KnowledgeBase.config self)
                        (KnowledgeBase.facts self)))
    by (unfold KnowledgeBase.infer; destruct (find _ _); reflexivity).
  rewrite Hsnd. unfold KnowledgeBase.infer at 1.
  cbn [KnowledgeBase.config KnowledgeBase.facts KnowledgeBase.set_facts].
  rewrite prologue_idempotent.
  unfold KnowledgeBase.infer, KnowledgeBase.sorted_rules, KnowledgeBase.set_facts.
  cbn [KnowledgeBase.rules KnowledgeBase.config KnowledgeBase.facts
       KnowledgeBase.initialized].
  destruct (find _ _); reflexivity.
Qed.

(** X14.  What [infer] does to the store: the configuration and the two
    module constants are written over whatever the caller stored under
    those names; [throttle], [steering] and [emergency] get 0, 0 and
    [False] only when they are missing; every other fact, and every value
    already stored under those three names, is left as it is.  The rule
    table and the configuration of the knowledge base are not touched. *)
Theorem infer_store (self : KnowledgeBase.t) :
  let config := KnowledgeBase.config self in
  let before := KnowledgeBase.facts self in
  let after := KnowledgeBase.facts (snd (KnowledgeBase.infer self)) in
  KnowledgeBase.config (snd (KnowledgeBase.infer self)) = config
  /\ KnowledgeBase.rules (snd (KnowledgeBase.infer self)) = KnowledgeBase.rules self
  /\ dict_get k_config after = Some (FConfig config)
  /\ dict_get k_CAR_LENGTH after = Some (FNum CAR_LENGTH)
  /\ dict_get k_CAR_WIDTH after = Some (FNum CAR_WIDTH)
  /\ forall k, k <> k_config -> k <> k_CAR_LENGTH -> k <> k_CAR_WIDTH ->
       dict_get k after
       = match dict_get k before with
         | Some v => Some v
         | None =>
             match k with
             | k_throttle | k_steering => Some (FNum 0)
             | k_emergency => Some (FBool false)
             | _ => None
             end
         end.
Proof.
  intros config before after.
  assert (Hafter : after = KnowledgeBase.prologue config before)
    by apply infer_facts.
  destruct (prologue_constants config before) as (Hl & Hw & Hc).
  split; [unfold KnowledgeBase.infer; destruct (find _ _); reflexivity|].
  split; [unfold KnowledgeBase.infer; destruct (find _ _); reflexivity|].
  rewrite Hafter. repeat split; try assumption.
  intros k H1 H2 H3. unfold KnowledgeBase.prologue.
  repeat (rewrite dict_get_setdefault).
  repeat (rewrite dict_get_set_other by assumption).
  destruct (dict_get k before); [reflexivity|].
  destruct k; reflexivity.
Qed.
(** ** The order of the facts in the store *)

Lemma substitute_front_right_broken (item : fact_key * fact_value) :
  Rule.substitute front_right_broken item = front_right_broken.
Proof. destruct item as [k [q|b|p| |s|c]]; destruct k; reflexivity. Qed.

Lemma substitute_front_right_intact (k : fact_key) (v : fact_value) :
  k <> k_front_right_sensor ->
  Rule.substitute front_right_intact (k, v) = front_right_intact
  \/ Rule.substitute front_right_intact (k, v) = front_right_broken.
Proof.
  intro Hk.
  destruct v as [q|b|p| |s|c]; destruct k;
    try (exfalso; apply Hk; reflexivity);
    first [left; reflexivity | right; reflexivity].
Qed.

Lemma substitute_right_sensor_breaks (v : fact_value) :
  (exists q, v = FNum q) \/ (exists b, v = FBool b) ->
  Rule.substitute front_right_intact (k_right_sensor, v) = front_right_broken.
Proof. intros [[q ->]|[b ->]]; reflexivity. Qed.

Lemma fold_substitute_front_right_broken (items : dict) :
  fold_left Rule.substitute items front_right_broken = front_right_broken.
Proof.
  induction items as [|item items IH]; simpl; [reflexivity|].
  rewrite substitute_front_right_broken; exact IH.
Qed.

Lemma fold_substitute_front_right_intact (items : dict) :
  dict_get k_front_right_sensor items = None ->
  fold_left Rule.substitute items front_right_intact = front_right_intact
  \/ fold_left Rule.substitute items front_right_intact = front_right_broken.
Proof.
  induction items as [|[k v] items IH]; simpl; intro Hnone; [left; reflexivity|].
  destruct (key_eqb k_front_right_sensor k) eqn:E; [discriminate|].
  assert (Hk : k <> k_front_right_sensor)
    by (intros ->; rewrite key_eqb_refl in E; discriminate).
  destruct (substitute_front_right_intact k v Hk) as [->| ->].
  - exact (IH Hnone).
  - right; apply fold_substitute_front_right_broken.
Qed.

(** X15.  The substitution follows the order of the store.  When a numeric
    [right_sensor] fact stands in the store before any [front_right_sensor]
    fact, its value is pasted into the middle of the name
    [front_right_sensor] of the last condition of the rule that announces
    the reverse manoeuvre; the condition then cannot be evaluated, and the
    rule does not match, whatever the other facts are. *)
Theorem right_sensor_first_blocks_ready_for_reverse
    (before after : dict) (v : fact_value) :
  dict_get k_front_right_sensor before = None ->
  (exists q, v = FNum q) \/ (exists b, v = FBool b) ->
  Rule.evaluate KnowledgeBase.ready_for_reverse
    (before ++ (k_right_sensor, v) :: after) = false.
Proof.
  intros Hnone Hv.
  apply (evaluate_raise _ _
           (Source "front_right_sensor < 120" front_right_intact) SyntaxError).
  - simpl; do 4 right; left; reflexivity.
  - assert (Hprep : Rule.prepare (before ++ (k_right_sensor, v) :: after)
                      front_right_intact = front_right_broken).
    { unfold Rule.prepare. rewrite fold_left_app.
      change (fold_left Rule.substitute ((k_right_sensor, v) :: after)
                (fold_left Rule.substitute before front_right_intact))
        with (fold_left Rule.substitute after
                (Rule.substitute
                   (fold_left Rule.substitute before front_right_intact)
                   (k_right_sensor, v))).
      destruct (fold_substitute_front_right_intact before Hnone) as [->| ->].
      - rewrite (substitute_right_sensor_breaks v Hv).
        rewrite fold_substitute_front_right_broken; reflexivity.
      - rewrite substitute_front_right_broken.
        rewrite fold_substitute_front_right_broken; reflexivity. }
    change (ast (Source "front_right_sensor < 120" front_right_intact))
      with front_right_intact.
    rewrite Hprep; reflexivity.
Qed.

Lemma right_sensor_first_blocks_ready_for_reverse_witness :
  Rule.evaluate KnowledgeBase.ready_for_reverse
    ([(k_phase, FPhase POSITIONING); (k_car_y, FNum 390);
      (k_car_angle, FNum 0);
      (k_selected_spot, FSpot (ParkingSpot.Build 400 450 120 60 false true))]
     ++ (k_right_sensor, FNum 400)
     :: [(k_front_right_sensor, FNum 100)]) = false.
Proof.
  apply (right_sensor_first_blocks_ready_for_reverse
           [(k_phase, FPhase POSITIONING); (k_car_y, FNum 390);
            (k_car_angle, FNum 0);
            (k_selected_spot, FSpot (ParkingSpot.Build 400 450 120 60 false true))]
           [(k_front_right_sensor, FNum 100)] (FNum 400)).
  - reflexivity.
  - left; exists 400; reflexivity.
Defined.
(** ** The vehicle between two commands *)

Lemma scan_corner_le (M : Math) (self : Car.t) (dx dy : Q)
    (corners : list (Q * Q)) (start : Q) :
  fold_left (Car.scan_corner self dx dy) corners start <= start.
Proof.
  revert start; induction corners as [|c corners IH]; intro start; simpl.
  - apply Qle_refl.
  - eapply Qle_trans; [apply IH|].
    unfold Car.scan_corner.
    destruct (Qltb 0 _); [|apply Qle_refl].
    destruct (Qltb _ start) eqn:Hd; [|apply Qle_refl].
    apply Qlt_le_weak; apply Qltb_lt; exact Hd.
Qed.

Section Vehicle.
Context {M : Math}.

(** X17.  More obstacles never raise a reading: with further cars added
    to the obstacle list, each of the eight sensors reads at most what it
    read without them. *)
Theorem update_sensors_more_obstacles (self : Car.t)
    (obstacles more : list Car.t) :
  Forall2 Qle
    (fst (Car.update_sensors self (obstacles ++ more)))
    (fst (Car.update_sensors self obstacles)).
Proof.
  unfold Car.update_sensors; cbn [fst].
  induction Car.sensor_angles as [|da angles IH]; simpl; constructor;
    [|exact IH].
  unfold Car.scan, Car.all_corners.
  destruct (Car.ray self da) as [dx dy].
  rewrite flat_map_app, fold_left_app.
  apply scan_corner_le.
Qed.

(** X18.  A car at rest that is commanded speed 0 stays where it is: for
    any time step and any steering, [update] leaves the speed at 0, the
    heading as it is and the position where it was. *)
Theorem update_at_rest (self : Car.t) (dt : Q) :
  Car.speed self == 0 ->
  Car.previous_speed self == 0 ->
  let self' := Car.update self dt in
  Car.speed self' == 0
  /\ Car.previous_speed self' == 0
  /\ Car.angle self' = Car.angle self
  /\ Car.x self' == Car.x self
  /\ Car.y self' == Car.y self.
Proof.
  intros Hs Hp self'.
  assert (Hl : Car.limited_speed self dt = Car.speed self).
  { unfold Car.limited_speed.
    assert (Hz : Qeq_bool (Car.speed self - Car.previous_speed self) 0 = true)
      by (apply Qeq_bool_iff; rewrite Hs, Hp; reflexivity).
    rewrite Hz; reflexivity. }
  assert (Ha : Car.turned_angle self (Car.speed self) dt = Car.angle self).
  { unfold Car.turned_angle.
    assert (Hq : Qltb 0.1 (Qabs (Car.speed self)) = false)
      by (apply Qltb_ge; rewrite Hs; discriminate).
    rewrite Hq, andb_false_r; reflexivity. }
  unfold self', Car.update; cbn [Car.speed Car.previous_speed Car.angle Car.x Car.y].
  rewrite Hl, Ha.
  repeat split; try assumption; rewrite Hs; ring.
Qed.
End Vehicle.

Lemma update_at_rest_witness :
  let self := Car.set_controls (Car.__init__ 200 500 0 (0, 100, 255)%Z) 0 20 in
  let self' := Car.update (M := rational_math) self 0.016 in
  Car.speed self' == 0
  /\ Car.previous_speed self' == 0
  /\ Car.angle self' = Car.angle self
  /\ Car.x self' == Car.x self
  /\ Car.y self' == Car.y self.
Proof.
  apply (update_at_rest (M := rational_math)
           (Car.set_controls (Car.__init__ 200 500 0 (0, 100, 255)%Z) 0 20)
           0.016);
    reflexivity.
Defined.
(** ** The statistics of the control loop *)

Lemma count_rule_same (rule_name : string) (counts : list (string * nat)) :
  count_of rule_name (ParkingSimulation.count_rule rule_name counts)
  = S (count_of rule_name counts).
Proof.
  induction counts as [|[k n] counts IH]; simpl.
  - rewrite String.eqb_refl; reflexivity.
  - destruct (String.eqb k rule_name) eqn:E; simpl; rewrite E;
      [reflexivity|exact IH].
Qed.

Lemma count_rule_other (rule_name other : string)
    (counts : list (string * nat)) :
  other <> rule_name ->
  count_of other (ParkingSimulation.count_rule rule_name counts)
  = count_of other counts.
Proof.
  intro Hne.
  induction counts as [|[k n] counts IH]; simpl.
  - destruct (String.eqb rule_name other) eqn:E; [|reflexivity].
    apply String.eqb_eq in E; congruence.
  - destruct (String.eqb k rule_name) eqn:E; simpl.
    + apply String.eqb_eq in E; subst k.
      destruct (String.eqb rule_name other) eqn:E'; [|reflexivity].
      apply String.eqb_eq in E'; congruence.
    + rewrite IH; reflexivity.
Qed.

Lemma count_rule_total (rule_name : string) (counts : list (string * nat)) :
  total_count (ParkingSimulation.count_rule rule_name counts)
  = S (total_count counts).
Proof.
  induction counts as [|[k n] counts IH]; simpl; [reflexivity|].
  destruct (String.eqb k rule_name); simpl; [reflexivity|].
  rewrite IH; lia.
Qed.

Lemma count_rule_keys (rule_name : string) (counts : list (string * nat)) :
  NoDup (map fst counts) ->
  NoDup (map fst (ParkingSimulation.count_rule rule_name counts))
  /\ forall k, In k (map fst (ParkingSimulation.count_rule rule_name counts)) ->
               k = rule_name \/ In k (map fst counts).
Proof.
  induction counts as [|[k n] counts IH]; simpl; intro Hnd.
  - split; [constructor; [intros []|constructor]|].
    intros k [<-|[]]; left; reflexivity.
  - inversion Hnd as [|? ? Hnot Hnd']; subst.
    destruct (IH Hnd') as [IH1 IH2].
    destruct (String.eqb k rule_name) eqn:E; simpl.
    + split; [exact Hnd|intros k' Hk'; right; exact Hk'].
    + split.
      * constructor; [|exact IH1].
        intro Hin; destruct (IH2 k Hin) as [->|Hin']; [|exact (Hnot Hin')].
        rewrite String.eqb_refl in E; discriminate.
      * intros k' [<-|Hk']; [right; left; reflexivity|].
        destruct (IH2 k' Hk') as [->|Hin']; [left; reflexivity|right; right; exact Hin'].
Qed.

Section Statistics.
Context {M : Math}.

Lemma make_decision_history (self self' : ExpertSystem.t) (phase : ParkingPhase)
    (sensors : list Q) (car_pos : Q * Q) (car_angle : Q)
    (target_spot : option ParkingSpot.t) (decision : DecisionInfo.t) :
  ExpertSystem.make_decision self phase sensors car_pos car_angle target_spot
  = Ok (decision, self') ->
  ExpertSystem.decision_history self'
  = ExpertSystem.decision_history self
    ++ [ExpertSystem.Log (phase_value phase) decision sensors car_pos car_angle
          (DecisionInfo.rule_applied decision)].
Proof.
  unfold ExpertSystem.make_decision; intro H.
  repeat match type of H with
    | bind ?r _ = _ => destruct r; cbn [bind] in H; [|discriminate H]
    end.
  destruct (KnowledgeBase.infer _) as [d kb'].
  inversion H; subst; reflexivity.
Qed.

(** X19.  What a pass of the control loop that returns leaves behind: the
    decision taken, its rule name as the rule applied, the eight readings
    of the pass, one more entry at the end of the decision log, with that
    same rule name, and statistics in which the count of that rule is one
    higher while every other count is as it was.  The total of the counts
    grows by one with every pass, like the log, and the names counted stay
    distinct. *)
Theorem tick_statistics (self self' : ParkingSimulation.t) (dt : Q) :
  ParkingSimulation.tick self dt = Ok self' ->
  exists decision entry,
    ParkingSimulation.decision_info self' = Some decision
    /\ ParkingSimulation.rule_applied self' = DecisionInfo.rule_applied decision
    /\ ParkingSimulation.current_sensors self'
       = fst (Car.update_sensors (ParkingSimulation.player_car self)
                (ParkingSimulation.obstacle_cars self))
    /\ ExpertSystem.decision_history (ParkingSimulation.expert_system self')
       = ExpertSystem.decision_history (ParkingSimulation.expert_system self)
         ++ [entry]
    /\ ExpertSystem.log_decision entry = decision
    /\ ExpertSystem.log_rule_applied entry = DecisionInfo.rule_applied decision
    /\ ExpertSystem.log_phase entry
       = phase_value (ParkingSimulation.current_phase self)
    /\ (forall rule_name,
          count_of rule_name (ParkingSimulation.rules_applied_count self')
          = if String.eqb rule_name (DecisionInfo.rule_applied decision)
            then S (count_of rule_name (ParkingSimulation.rules_applied_count self))
            else count_of rule_name (ParkingSimulation.rules_applied_count self))
    /\ total_count (ParkingSimulation.rules_applied_count self')
       = S (total_count (ParkingSimulation.rules_applied_count self))
    /\ (NoDup (map fst (ParkingSimulation.rules_applied_count self)) ->
        NoDup (map fst (ParkingSimulation.rules_applied_count self'))).
Proof.
  unfold ParkingSimulation.tick.
  destruct (Car.update_sensors _ _) as [readings car1] eqn:Hs.
  set (spot := match ParkingSimulation.current_phase self,
                     ParkingSimulation.selected_spot self with
               | SEARCHING, None => _
               | _, s => s
               end).
  clearbody spot.
  destruct (ExpertSystem.make_decision _ _ _ _ _ _) as [[decision es]|] eqn:Hd;
    cbn [bind]; [|discriminate].
  apply make_decision_history in Hd.
  destruct (ParkingSimulation.apply_decision decision car1) as [car2|];
    cbn [bind]; [|discriminate].
  intro H. exists decision; eexists.
  apply handle_phase_transitions_shape in H.
  assert (Hcount : forall rule_name,
             count_of rule_name
               (ParkingSimulation.count_rule (DecisionInfo.rule_applied decision)
                  (ParkingSimulation.rules_applied_count self))
             = if String.eqb rule_name (DecisionInfo.rule_applied decision)
               then S (count_of rule_name
                         (ParkingSimulation.rules_applied_count self))
               else count_of rule_name
                      (ParkingSimulation.rules_applied_count self)).
  { intro rule_name.
    destruct (String.eqb rule_name (DecisionInfo.rule_applied decision)) eqn:E.
    - apply String.eqb_eq in E; subst rule_name; apply count_rule_same.
    - apply count_rule_other; intro Heq; subst rule_name.
      rewrite String.eqb_refl in E; discriminate. }
  destruct H as [->|(phase & timer & flag & ->)];
    cbn [ParkingSimulation.decision_info ParkingSimulation.rule_applied
         ParkingSimulation.current_sensors ParkingSimulation.expert_system
         ParkingSimulation.rules_applied_count ParkingSimulation.set_phase
         ExpertSystem.decision_history fst];
    (split; [reflexivity|]); (split; [reflexivity|]); (split; [reflexivity|]);
    (split; [exact Hd|]); (split; [reflexivity|]); (split; [reflexivity|]);
    (split; [reflexivity|]); (split; [exact Hcount|]);
    (split; [apply count_rule_total|]);
    intro Hnd; apply count_rule_keys; exact Hnd.
Qed.
End Statistics.

Lemma tick_statistics_witness :
  exists self',
    ParkingSimulation.tick (M := rational_math) (ParkingSimulation.__init__ [])
      0.016 = Ok self'
    /\ exists decision entry,
         ParkingSimulation.decision_info self' = Some decision
         /\ ParkingSimulation.rule_applied self'
            = DecisionInfo.rule_applied decision
         /\ ParkingSimulation.current_sensors self'
            = fst (Car.update_sensors (M := rational_math)
                     (ParkingSimulation.player_car (ParkingSimulation.__init__ []))
                     (ParkingSimulation.obstacle_cars
                        (ParkingSimulation.__init__ [])))
         /\ ExpertSystem.decision_history (ParkingSimulation.expert_system self')
            = ExpertSystem.decision_history
                (ParkingSimulation.expert_system (ParkingSimulation.__init__ []))
              ++ [entry]
         /\ ExpertSystem.log_decision entry = decision
         /\ ExpertSystem.log_rule_applied entry
            = DecisionInfo.rule_applied decision
         /\ ExpertSystem.log_phase entry
            = phase_value
                (ParkingSimulation.current_phase (ParkingSimulation.__init__ []))
         /\ (forall rule_name,
               count_of rule_name (ParkingSimulation.rules_applied_count self')
               = if String.eqb rule_name (DecisionInfo.rule_applied decision)
                 then S (count_of rule_name
                           (ParkingSimulation.rules_applied_count
                              (ParkingSimulation.__init__ [])))
                 else count_of rule_name
                        (ParkingSimulation.rules_applied_count
                           (ParkingSimulation.__init__ [])))
         /\ total_count (ParkingSimulation.rules_applied_count self')
            = S (total_count
                   (ParkingSimulation.rules_applied_count
                      (ParkingSimulation.__init__ [])))
         /\ (NoDup (map fst (ParkingSimulation.rules_applied_count
                               (ParkingSimulation.__init__ []))) ->
             NoDup (map fst (ParkingSimulation.rules_applied_count self'))).
Proof.
  eexists; split; [vm_compute; reflexivity|].
  apply (tick_statistics (M := rational_math) (ParkingSimulation.__init__ [])
           _ 0.016).
  vm_compute; reflexivity.
Defined.
(** ** The control loop *)

Lemma dict_update_NoDup (d items : dict) :
  NoDup (map fst d) -> NoDup (map fst (dict_update d items)).
Proof.
  unfold dict_update; revert d.
  induction items as [|[k v] items IH]; simpl; intros d H; [exact H|].
  apply IH; apply dict_set_NoDup; exact H.
Qed.

Lemma eval_context_get (config : ParkingConfig.t) (facts : dict) (k : fact_key)
    (v : fact_value) :
  NoDup (map fst facts) ->
  dict_get k facts = Some v ->
  dict_get k (KnowledgeBase.eval_context config facts) = Some v.
Proof.
  intros Hnd H; unfold KnowledgeBase.eval_context.
  rewrite dict_get_update by exact Hnd. rewrite H; reflexivity.
Qed.

(** A condition that evaluates to a false value keeps its rule from
    matching. *)
Lemma evaluate_false_by (rule : Rule.t) (context : dict) (cond : py_source)
    (v : value) :
  In cond (Rule.conditions rule) ->
  eval true context (Rule.prepare context (ast cond)) = Ok v ->
  truthy v = false ->
  Rule.evaluate rule context = false.
Proof.
  intros Hin Hev Hv.
  destruct (Rule.evaluate rule context) eqn:E; [|reflexivity].
  assert (Hc : Rule.check context (Rule.conditions rule) = Ok true).
  { revert E; unfold Rule.evaluate.
    destruct (Rule.check context (Rule.conditions rule)) as [[|]|];
      congruence. }
  apply check_true_iff in Hc. rewrite Forall_forall in Hc.
  destruct (Hc cond Hin) as (w & Hw & Hw').
  rewrite Hev in Hw; inversion Hw; subst; congruence.
Qed.

(** A condition that holds of a matching rule. *)
Lemma evaluate_true_cond (rule : Rule.t) (context : dict) (cond : py_source) :
  Rule.evaluate rule context = true ->
  In cond (Rule.conditions rule) ->
  exists v, eval true context (Rule.prepare context (ast cond)) = Ok v
            /\ truthy v = true.
Proof.
  intros E Hin.
  assert (Hc : Rule.check context (Rule.conditions rule) = Ok true).
  { revert E; unfold Rule.evaluate.
    destruct (Rule.check context (Rule.conditions rule)) as [[|]|];
      congruence. }
  apply check_true_iff in Hc. rewrite Forall_forall in Hc.
  exact (Hc cond Hin).
Qed.

(** Reads the names of the goal from the store. *)
Ltac lookup_facts :=
  repeat match goal with
    | |- context [lookup_name ?s ?d] =>
        let k := eval vm_compute in (key_of_name s) in
        match k with
        | Some ?k' => change (lookup_name s d) with (dict_get k' d)
        end
    end;
  repeat match goal with
    | H : dict_get ?k ?d = _ |- context [dict_get ?k ?d] => rewrite H
    end.

Lemma spot_chosen_holds (rule : Rule.t) (config : ParkingConfig.t)
    (facts : dict) :
  loop_store config facts ->
  Rule.evaluate rule facts = true ->
  In spot_chosen (Rule.conditions rule) ->
  exists s, dict_get k_selected_spot facts = Some (FSpot s).
Proof.
  intros Hs E Hin.
  destruct (store_spot _ _ Hs) as [Hnone|Hsome]; [exfalso|exact Hsome].
  destruct (evaluate_true_cond rule facts spot_chosen E Hin) as (v & Hv & Ht).
  rewrite prepare_transparent in Hv
    by (first [apply (store_keys _ _ Hs) | apply (store_length _ _ Hs)
              | apply (store_width _ _ Hs) | reflexivity]).
  revert Hv; cbn [ast spot_chosen eval]; lookup_facts.
  cbn [bind value_of]. intro Hv; inversion Hv; subst; discriminate Ht.
Qed.

(** Runs the action templates of a decision on a store whose facts are
    among the hypotheses. *)
Ltac run_templates :=
  cbv [KnowledgeBase.apply_rule DecisionInfo.throttle DecisionInfo.steering
       Rule.actions Actions.throttle Actions.steering
       KnowledgeBase.initial_start KnowledgeBase.emergency_stop
       KnowledgeBase.slow_down KnowledgeBase.straight_search
       KnowledgeBase.center_correction KnowledgeBase.spot_found
       KnowledgeBase.approach_spot KnowledgeBase.stop_for_maneuver
       KnowledgeBase.align_parallel KnowledgeBase.ready_for_reverse
       KnowledgeBase.start_reverse KnowledgeBase.transition_to_align
       KnowledgeBase.reverse_align KnowledgeBase.default_stop
       KnowledgeBase.parking_complete
       speed_factor reverse_factor say KnowledgeBase.run_action text ast];
  repeat match goal with
    | |- context [has_operator_char ?s] =>
        let b := eval vm_compute in (has_operator_char s) in
        change (has_operator_char s) with b
    end;
  cbv iota;
  cbn [eval bind num lit lateral_offset spot_x spot_y stop_line];
  lookup_facts;
  cbn [bind value_of py_getattr py_binop py_neg as_num String.eqb Ascii.eqb
       Bool.eqb py_float].

(** On a store of the control loop, the throttle and the steering of a
    table rule that matches are numbers, or strings [float] reads. *)
Lemma table_commands_convert (config : ParkingConfig.t) (facts : dict)
    (rule : Rule.t) :
  loop_store config facts ->
  In rule (map snd KnowledgeBase._build_rules) ->
  Rule.evaluate rule facts = true ->
  exists t s,
    py_float (DecisionInfo.throttle (KnowledgeBase.apply_rule config facts rule))
    = Ok t
    /\ py_float (DecisionInfo.steering (KnowledgeBase.apply_rule config facts rule))
       = Ok s.
Proof.
  intros Hs Hin E.
  pose proof (store_keys _ _ Hs) as Hnd.
  pose proof (eval_context_get config facts _ _ Hnd (store_config _ _ Hs)) as Hc.
  pose proof (eval_context_get config facts _ _ Hnd (store_width _ _ Hs)) as Hw.
  destruct (store_numbers _ _ Hs k_car_y) as [car_y Hy];
    [simpl; tauto|apply (eval_context_get config) in Hy; [|exact Hnd]].
  destruct (store_numbers _ _ Hs k_car_angle) as [car_angle Ha];
    [simpl; tauto|apply (eval_context_get config) in Ha; [|exact Hnd]].
  destruct (store_numbers _ _ Hs k_left_sensor) as [left Hl];
    [simpl; tauto|apply (eval_context_get config) in Hl; [|exact Hnd]].
  destruct (store_numbers _ _ Hs k_right_sensor) as [right Hr];
    [simpl; tauto|apply (eval_context_get config) in Hr; [|exact Hnd]].
  destruct (store_numbers _ _ Hs k_throttle) as [throttle Ht];
    [simpl; tauto|apply (eval_context_get config) in Ht; [|exact Hnd]].
  assert (Hspot : In spot_chosen (Rule.conditions rule) ->
                  exists s, dict_get k_selected_spot
                              (KnowledgeBase.eval_context config facts)
                            = Some (FSpot s)).
  { intro Hc'. destruct (spot_chosen_holds rule config facts Hs E Hc') as [s H].
    exists s; apply eval_context_get; assumption. }
  clear E. simpl in Hin.
  repeat (destruct Hin as [<-|Hin];
          [try (destruct Hspot as [spot Hspot]; [simpl; tauto|]);
           run_templates; do 2 eexists; split; reflexivity|]).
  contradiction.
Qed.

Section ControlLoop.
Context {M : Math}.

Lemma update_facts_lookup (self self' : KnowledgeBase.t) (kwargs : dict)
    (k : fact_key) :
  KnowledgeBase.update_facts self kwargs = Ok self' ->
  NoDup (map fst kwargs) ->
  k <> k_distance_to_spot ->
  dict_get k (KnowledgeBase.facts self')
  = match dict_get k kwargs with
    | Some v => Some v
    | None => dict_get k (KnowledgeBase.facts self)
    end.
Proof.
  intros H Hnd Hk.
  destruct (update_facts_shape self self' kwargs H) as [->|[q ->]]; simpl.
  - apply dict_get_update; exact Hnd.
  - rewrite dict_get_set_other by exact Hk. apply dict_get_update; exact Hnd.
Qed.

Lemma update_facts_NoDup (self self' : KnowledgeBase.t) (kwargs : dict) :
  KnowledgeBase.update_facts self kwargs = Ok self' ->
  NoDup (map fst (KnowledgeBase.facts self)) ->
  NoDup (map fst (KnowledgeBase.facts self'))
  /\ KnowledgeBase.config self' = KnowledgeBase.config self
  /\ KnowledgeBase.rules self' = KnowledgeBase.rules self.
Proof.
  intros H Hnd.
  destruct (update_facts_shape self self' kwargs H) as [->|[q ->]]; simpl;
    repeat split; try apply dict_set_NoDup; apply dict_update_NoDup; exact Hnd.
Qed.

(** What [make_decision] leaves in the store, and where its decision comes
    from. *)
Lemma make_decision_store (self self' : ExpertSystem.t) (phase : ParkingPhase)
    (sensors : list Q) (car_pos : Q * Q) (car_angle : Q)
    (target_spot : option ParkingSpot.t) (decision : DecisionInfo.t) :
  let kb := ExpertSystem.knowledge_base self in
  let kb' := ExpertSystem.knowledge_base self' in
  NoDup (map fst (KnowledgeBase.facts kb)) ->
  (dict_get k_throttle (KnowledgeBase.facts kb) = None
   \/ exists q, dict_get k_throttle (KnowledgeBase.facts kb) = Some (FNum q)) ->
  ExpertSystem.make_decision self phase sensors car_pos car_angle target_spot
  = Ok (decision, self') ->
  loop_store (KnowledgeBase.config kb) (KnowledgeBase.facts kb')
  /\ KnowledgeBase.config kb' = KnowledgeBase.config kb
  /\ KnowledgeBase.rules kb' = KnowledgeBase.rules kb
  /\ dict_get k_phase (KnowledgeBase.facts kb') = Some (FPhase phase)
  /\ dict_get k_selected_spot (KnowledgeBase.facts kb')
     = Some (ExpertSystem.spot_fact target_spot)
  /\ dict_get k_throttle (KnowledgeBase.facts kb')
     = match dict_get k_throttle (KnowledgeBase.facts kb) with
       | Some w => Some w
       | None => Some (FNum 0)
       end
  /\ dict_get k_car_angle (KnowledgeBase.facts kb') = Some (FNum car_angle)
  /\ match find (fun rule => Rule.evaluate rule (KnowledgeBase.facts kb'))
             (KnowledgeBase.sorted_rules kb) with
     | Some rule =>
         decision
         = KnowledgeBase.apply_rule (KnowledgeBase.config kb)
             (KnowledgeBase.facts kb') rule
     | None => decision = KnowledgeBase.no_rule
     end.
Proof.
  intros kb kb' Hnd Hth Hmd.
  do 8 (destruct sensors as [|? sensors]; [discriminate Hmd|]).
  unfold ExpertSystem.make_decision in Hmd.
  cbn [bind ExpertSystem.sensor_at nth_error] in Hmd.
  fold kb in Hmd.
  match type of Hmd with
  | context [KnowledgeBase.update_facts kb ?kwargs] =>
      set (items := kwargs) in Hmd;
      destruct (KnowledgeBase.update_facts kb items) as [kb1|] eqn:Hkb1;
      cbn [bind] in Hmd; [|discriminate Hmd]
  end.
  assert (Hitems : NoDup (map fst items)).
  { unfold items; simpl.
    repeat (constructor; [simpl; intuition discriminate|]). constructor. }
  destruct (update_facts_NoDup kb kb1 items Hkb1 Hnd) as (Hnd1 & Hcfg1 & Hrules1).
  pose proof (infer_facts kb1) as Hfacts.
  assert (Hkeep : KnowledgeBase.config (snd (KnowledgeBase.infer kb1))
                  = KnowledgeBase.config kb1
                  /\ KnowledgeBase.rules (snd (KnowledgeBase.infer kb1))
                     = KnowledgeBase.rules kb1)
    by (unfold KnowledgeBase.infer; destruct (find _ _); split; reflexivity).
  assert (Hdec : match find (fun rule =>
                               Rule.evaluate rule
                                 (KnowledgeBase.facts (snd (KnowledgeBase.infer kb1))))
                         (KnowledgeBase.sorted_rules kb1) with
                 | Some rule =>
                     fst (KnowledgeBase.infer kb1)
                     = KnowledgeBase.apply_rule (KnowledgeBase.config kb1)
                         (KnowledgeBase.facts (snd (KnowledgeBase.infer kb1))) rule
                 | None => fst (KnowledgeBase.infer kb1) = KnowledgeBase.no_rule
                 end).
  { rewrite Hfacts. unfold KnowledgeBase.infer.
    destruct (find _ _); reflexivity. }
  destruct (KnowledgeBase.infer kb1) as [d kb2].
  inversion Hmd; subst d self'; clear Hmd.
  subst kb'; cbn [ExpertSystem.knowledge_base fst snd] in *.
  destruct Hkeep as [Hcfg2 Hrules2].
  assert (Hsorted : KnowledgeBase.sorted_rules kb1 = KnowledgeBase.sorted_rules kb)
    by (unfold KnowledgeBase.sorted_rules; rewrite Hrules1; reflexivity).
  rewrite Hsorted, Hcfg1 in Hdec.
  rewrite Hcfg1 in Hfacts.
  destruct (prologue_constants (KnowledgeBase.config kb) (KnowledgeBase.facts kb1))
    as (Hl & Hw & Hc).
  rewrite <- Hfacts in Hl, Hw, Hc.
  assert (Hget : forall k v,
             dict_get k items = Some v ->
             dict_get k (KnowledgeBase.facts kb2) = Some v).
  { intros k v Hk. rewrite Hfacts.
    assert (Hne : k <> k_distance_to_spot /\ k <> k_config
                  /\ k <> k_CAR_LENGTH /\ k <> k_CAR_WIDTH)
      by (repeat split; intros ->; discriminate Hk).
    apply prologue_get_fact; try tauto.
    rewrite (update_facts_lookup kb kb1 items k Hkb1 Hitems) by tauto.
    rewrite Hk; reflexivity. }
  assert (Hthrottle : dict_get k_throttle (KnowledgeBase.facts kb2)
                      = match dict_get k_throttle (KnowledgeBase.facts kb) with
                        | Some w => Some w
                        | None => Some (FNum 0)
                        end).
  { rewrite Hfacts.
    rewrite (prologue_get_default _ _ k_throttle (FNum 0)) by tauto.
    rewrite (update_facts_lookup kb kb1 items k_throttle Hkb1 Hitems)
      by discriminate.
    reflexivity. }
  split; [|split; [congruence|split; [congruence|split;
    [apply Hget; reflexivity|split; [apply Hget; reflexivity|split;
      [exact Hthrottle|split; [apply Hget; reflexivity|exact Hdec]]]]]]].
  constructor.
  - rewrite Hfacts; apply prologue_NoDup; exact Hnd1.
  - exact Hc.
  - exact Hl.
  - exact Hw.
  - exists phase; apply Hget; reflexivity.
  - destruct target_spot as [s|];
      [right; exists s|left]; apply Hget; reflexivity.
  - intros k Hk; simpl in Hk.
    destruct Hk as [<-|[<-|[<-|[<-|[<-|[<-|[<-|[]]]]]]]];
      try (eexists; apply Hget; reflexivity).
    rewrite Hthrottle.
    destruct Hth as [->|[throttle ->]]; eexists; reflexivity.
Qed.

Lemma make_decision_returns (self : ExpertSystem.t) (phase : ParkingPhase)
    (sensors : list Q) (car_pos : Q * Q) (car_angle : Q)
    (target_spot : option ParkingSpot.t) :
  (8 <= List.length sensors)%nat ->
  exists decision self',
    ExpertSystem.make_decision self phase sensors car_pos car_angle target_spot
    = Ok (decision, self').
Proof.
  intro Hlen.
  do 8 (destruct sensors as [|? sensors]; [simpl in Hlen; lia|]).
  unfold ExpertSystem.make_decision.
  cbn [bind ExpertSystem.sensor_at nth_error].
  match goal with
  | |- context [KnowledgeBase.update_facts ?kb ?kwargs] =>
      destruct (update_facts_inputs kb phase car_pos car_angle target_spot
                  q1 q2 q3 q0 q4 q q5 q6) as [kb1 Hkb1]
  end.
  rewrite Hkb1; cbn [bind].
  destruct (KnowledgeBase.infer kb1) as [decision kb']; do 2 eexists; reflexivity.
Qed.

(** The decision of a pass is one the loop can apply. *)
Lemma decision_applies (config : ParkingConfig.t) (facts : dict)
    (rules : list Rule.t) (decision : DecisionInfo.t) (car : Car.t) :
  loop_store config facts ->
  (forall rule, In rule rules -> In rule (map snd KnowledgeBase._build_rules)) ->
  match find (fun rule => Rule.evaluate rule facts) rules with
  | Some rule => decision = KnowledgeBase.apply_rule config facts rule
  | None => decision = KnowledgeBase.no_rule
  end ->
  exists throttle steering,
    ParkingSimulation.apply_decision decision car
    = Ok (Car.set_controls car throttle steering).
Proof.
  intros Hs Hsub Hd.
  destruct (find _ rules) as [rule|] eqn:Hfind.
  - destruct (find_some _ _ Hfind) as [Hin Hev].
    destruct (table_commands_convert config facts rule Hs (Hsub rule Hin) Hev)
      as (t & s & Ht & Hs').
    subst decision. unfold ParkingSimulation.apply_decision.
    destruct (DecisionInfo.emergency _); [do 2 eexists; reflexivity|].
    rewrite Ht, Hs'; cbn [bind]; do 2 eexists; reflexivity.
  - subst decision; exists 0, 0; reflexivity.
Qed.

(** X20.  The commands of [make_decision] always pass the conversion of
    the control loop.  For an expert system with the rule table of the
    program, a store with distinct keys whose throttle fact is missing or a
    number, and at least eight readings: [make_decision] returns, for any
    phase, pose and spot, and applying its decision to a car sets a
    numeric speed and steering -- no action template is left as text that
    [float] rejects. *)
Theorem make_decision_commands_convert (self : ExpertSystem.t)
    (phase : ParkingPhase) (sensors : list Q) (car_pos : Q * Q) (car_angle : Q)
    (target_spot : option ParkingSpot.t) (car : Car.t) :
  let kb := ExpertSystem.knowledge_base self in
  KnowledgeBase.rules kb = KnowledgeBase._build_rules ->
  NoDup (map fst (KnowledgeBase.facts kb)) ->
  (dict_get k_throttle (KnowledgeBase.facts kb) = None
   \/ exists q, dict_get k_throttle (KnowledgeBase.facts kb) = Some (FNum q)) ->
  (8 <= List.length sensors)%nat ->
  exists decision self' throttle steering,
    ExpertSystem.make_decision self phase sensors car_pos car_angle target_spot
    = Ok (decision, self')
    /\ ParkingSimulation.apply_decision decision car
       = Ok (Car.set_controls car throttle steering).
Proof.
  intros kb Hrules Hnd Hth Hlen.
  destruct (make_decision_returns self phase sensors car_pos car_angle
              target_spot Hlen) as (decision & self' & Hmd).
  destruct (make_decision_store self self' phase sensors car_pos car_angle
              target_spot decision Hnd Hth Hmd)
    as (Hs & _ & _ & _ & _ & _ & _ & Hd).
  assert (Hsub : forall rule,
             In rule (KnowledgeBase.sorted_rules kb) ->
             In rule (map snd KnowledgeBase._build_rules)).
  { intros rule H; unfold KnowledgeBase.sorted_rules in H.
    apply sorted_reverse_In in H. rewrite Hrules in H; exact H. }
  destruct (decision_applies _ _ _ decision car Hs Hsub Hd) as (t & s & Happ).
  exists decision, self', t, s; split; assumption.
Qed.
End ControlLoop.

Lemma make_decision_commands_convert_witness :
  exists decision self' throttle steering,
    ExpertSystem.make_decision (M := rational_math)
      (ExpertSystem.__init__ ParkingConfig.default) SEARCHING
      (repeat SENSOR_RANGE 8) (200, 500) 0 None
    = Ok (decision, self')
    /\ ParkingSimulation.apply_decision decision
         (Car.__init__ 200 500 0 (0, 100, 255)%Z)
       = Ok (Car.set_controls (Car.__init__ 200 500 0 (0, 100, 255)%Z)
               throttle steering).
Proof.
  apply (make_decision_commands_convert (M := rational_math)
           (ExpertSystem.__init__ ParkingConfig.default) SEARCHING
           (repeat SENSOR_RANGE 8) (200, 500) 0 None
           (Car.__init__ 200 500 0 (0, 100, 255)%Z)).
  - reflexivity.
  - constructor.
  - left; reflexivity.
  - simpl; lia.
Defined.

(** With a throttle fact of 0 the two rules that test it do not match. *)
Lemma throttle_rules_idle (config : ParkingConfig.t) (facts : dict) :
  loop_store config facts ->
  dict_get k_throttle facts = Some (FNum 0) ->
  Rule.evaluate KnowledgeBase.emergency_stop facts = false
  /\ Rule.evaluate KnowledgeBase.slow_down facts = false.
Proof.
  intros Hs Ht.
  assert (Hc : eval true facts (Rule.prepare facts (ast throttle_positive))
               = Ok (VBool false)).
  { rewrite prepare_transparent
      by (first [apply (store_keys _ _ Hs) | apply (store_length _ _ Hs)
                | apply (store_width _ _ Hs) | reflexivity]).
    cbn [ast throttle_positive eval num]; lookup_facts. reflexivity. }
  split; apply (evaluate_false_by _ facts throttle_positive (VBool false));
    try exact Hc; try reflexivity; simpl; tauto.
Qed.

Lemma table_name_emergency_stop (rule : Rule.t) :
  In rule (map snd KnowledgeBase._build_rules) ->
  Rule.name rule = Rule.name KnowledgeBase.emergency_stop ->
  rule = KnowledgeBase.emergency_stop.
Proof.
  simpl; intros H Hn.
  repeat (destruct H as [<-|H]; [try reflexivity; discriminate Hn|]).
  contradiction.
Qed.

Lemma table_name_slow_down (rule : Rule.t) :
  In rule (map snd KnowledgeBase._build_rules) ->
  Rule.name rule = Rule.name KnowledgeBase.slow_down ->
  rule = KnowledgeBase.slow_down.
Proof.
  simpl; intros H Hn.
  repeat (destruct H as [<-|H]; [try reflexivity; discriminate Hn|]).
  contradiction.
Qed.

(** With a throttle fact of 0, the decision is no emergency decision and
    comes from neither of the two rules. *)
Lemma decision_never_brakes (config : ParkingConfig.t) (facts : dict)
    (rules : list Rule.t) (decision : DecisionInfo.t) :
  loop_store config facts ->
  dict_get k_throttle facts = Some (FNum 0) ->
  (forall rule, In rule rules -> In rule (map snd KnowledgeBase._build_rules)) ->
  match find (fun rule => Rule.evaluate rule facts) rules with
  | Some rule => decision = KnowledgeBase.apply_rule config facts rule
  | None => decision = KnowledgeBase.no_rule
  end ->
  DecisionInfo.emergency decision = false
  /\ DecisionInfo.rule_applied decision <> Rule.name KnowledgeBase.emergency_stop
  /\ DecisionInfo.rule_applied decision <> Rule.name KnowledgeBase.slow_down.
Proof.
  intros Hs Ht Hsub Hd.
  destruct (throttle_rules_idle config facts Hs Ht) as [He Hl].
  destruct (find _ rules) as [rule|] eqn:Hfind.
  - destruct (find_some _ _ Hfind) as [Hin Hev]. subst decision.
    cbn [KnowledgeBase.apply_rule DecisionInfo.emergency
         DecisionInfo.rule_applied].
    repeat split.
    + destruct (Actions.emergency (Rule.actions rule)) eqn:E; [|reflexivity].
      rewrite (table_emergency_flag rule (Hsub rule Hin) E) in Hev; congruence.
    + intro Hn.
      rewrite (table_name_emergency_stop rule (Hsub rule Hin) Hn) in Hev;
        congruence.
    + intro Hn.
      rewrite (table_name_slow_down rule (Hsub rule Hin) Hn) in Hev;
        congruence.
  - subst decision; repeat split; discriminate.
Qed.

Lemma handle_phase_transitions_returns (self : ParkingSimulation.t) :
  (ParkingSimulation.current_phase self = APPROACH ->
   ParkingSimulation.selected_spot self <> None) ->
  exists self',
    ParkingSimulation.handle_phase_transitions self = Ok self'
    /\ ParkingSimulation.expert_system self' = ParkingSimulation.expert_system self
    /\ ParkingSimulation.decision_info self' = ParkingSimulation.decision_info self
    /\ ParkingSimulation.rules_applied_count self'
       = ParkingSimulation.rules_applied_count self
    /\ ParkingSimulation.player_car self' = ParkingSimulation.player_car self
    /\ (ParkingSimulation.current_phase self' = APPROACH ->
        ParkingSimulation.selected_spot self' <> None).
Proof.
  intro Hinv. unfold ParkingSimulation.handle_phase_transitions.
  destruct (ParkingSimulation.current_phase self) eqn:Hp;
    try destruct (ParkingSimulation.selected_spot self) eqn:Hspot;
    try (exfalso; apply Hinv; reflexivity);
    repeat match goal with
      | |- context [if ?c then _ else _] => destruct c
      end;
    eexists; (split; [reflexivity|]);
    cbn [ParkingSimulation.set_phase ParkingSimulation.expert_system
         ParkingSimulation.decision_info ParkingSimulation.rules_applied_count
         ParkingSimulation.current_phase ParkingSimulation.selected_spot
         ParkingSimulation.player_car];
    repeat split; try rewrite Hp; try rewrite Hspot; congruence.
Qed.

Section Passes.
Context {M : Math}.

Lemma tick_invariant (self : ParkingSimulation.t) (dt : Q) :
  loop_invariant self ->
  exists self' entry,
    ParkingSimulation.tick self dt = Ok self'
    /\ loop_invariant self'
    /\ dict_get k_throttle
         (KnowledgeBase.facts
            (ExpertSystem.knowledge_base (ParkingSimulation.expert_system self')))
       = Some (FNum 0)
    /\ ExpertSystem.decision_history (ParkingSimulation.expert_system self')
       = ExpertSystem.decision_history (ParkingSimulation.expert_system self)
         ++ [entry]
    /\ calm_entry entry
    /\ ParkingSimulation.decision_info self'
       = Some (ExpertSystem.log_decision entry)
    /\ total_count (ParkingSimulation.rules_applied_count self')
       = S (total_count (ParkingSimulation.rules_applied_count self))
    /\ Car.turning_radius (ParkingSimulation.player_car self')
       = Car.turning_radius (ParkingSimulation.player_car self).
Proof.
  intros (Hrules & Hnd & Hidle & Hspot).
  unfold ParkingSimulation.tick, Car.update_sensors.
  set (readings := map _ Car.sensor_angles).
  set (car1 := Car.Build _ _ _ _ _ _ _ _ readings _ _ _).
  set (spot := match ParkingSimulation.current_phase self,
                     ParkingSimulation.selected_spot self with
               | SEARCHING, None => _
               | _, s => s
               end).
  assert (Hspot' : ParkingSimulation.current_phase self = APPROACH ->
                   spot <> None).
  { intro Hp; unfold spot; rewrite Hp; apply Hspot; exact Hp. }
  clearbody spot.
  assert (Hlen : (8 <= List.length readings)%nat)
    by (unfold readings; rewrite length_map; simpl; lia).
  destruct (make_decision_returns (ParkingSimulation.expert_system self)
              (ParkingSimulation.current_phase self) readings
              (Car.x car1, Car.y car1) (Car.angle car1) spot Hlen)
    as (decision & es & Hmd).
  assert (Hth : dict_get k_throttle
                  (KnowledgeBase.facts
                     (ExpertSystem.knowledge_base
                        (ParkingSimulation.expert_system self))) = None
                \/ exists q,
                     dict_get k_throttle
                       (KnowledgeBase.facts
                          (ExpertSystem.knowledge_base
                             (ParkingSimulation.expert_system self)))
                     = Some (FNum q))
    by (destruct Hidle as [H|H]; [left; exact H|right; exists 0; exact H]).
  destruct (make_decision_store _ _ _ _ _ _ _ _ Hnd Hth Hmd)
    as (Hs & Hcfg & Hrules' & _ & _ & Hthrottle & _ & Hd).
  assert (Hzero : dict_get k_throttle
                    (KnowledgeBase.facts (ExpertSystem.knowledge_base es))
                  = Some (FNum 0))
    by (rewrite Hthrottle; destruct Hidle as [-> | ->]; reflexivity).
  assert (Hsub : forall rule,
             In rule (KnowledgeBase.sorted_rules
                        (ExpertSystem.knowledge_base
                           (ParkingSimulation.expert_system self))) ->
             In rule (map snd KnowledgeBase._build_rules)).
  { intros rule H; unfold KnowledgeBase.sorted_rules in H.
    apply sorted_reverse_In in H. rewrite Hrules in H; exact H. }
  destruct (decision_applies _ _ _ decision car1 Hs Hsub Hd)
    as (throttle & steering & Happ).
  destruct (decision_never_brakes _ _ _ decision Hs Hzero Hsub Hd)
    as (Hcalm1 & Hcalm2 & Hcalm3).
  pose proof (make_decision_history _ _ _ _ _ _ _ _ Hmd) as Hhist.
  rewrite Hmd; cbn [bind]. rewrite Happ; cbn [bind].
  match goal with
  | |- context [ParkingSimulation.handle_phase_transitions ?s] =>
      destruct (handle_phase_transitions_returns s Hspot')
        as (self' & Hret & Hes & Hdi & Hcount & Hcar & Hinv')
  end.
  exists self'; eexists. split; [exact Hret|].
  rewrite Hes, Hdi, Hcount, Hcar.
  cbn [ParkingSimulation.expert_system ParkingSimulation.decision_info
       ParkingSimulation.rules_applied_count ParkingSimulation.player_car].
  split; [|split; [exact Hzero|split; [exact Hhist|split;
    [repeat split; assumption|split; [reflexivity|split;
      [apply count_rule_total|reflexivity]]]]]].
  unfold loop_invariant; rewrite Hes.
  cbn [ParkingSimulation.expert_system].
  split; [congruence|]. split; [exact (store_keys _ _ Hs)|].
  split; [right; exact Hzero|exact Hinv'].
Qed.

Lemma run_ticks_invariant (self : ParkingSimulation.t) (dts : list Q) :
  loop_invariant self ->
  exists self' entries,
    run_ticks self dts = Ok self'
    /\ loop_invariant self'
    /\ ExpertSystem.decision_history (ParkingSimulation.expert_system self')
       = ExpertSystem.decision_history (ParkingSimulation.expert_system self)
         ++ entries
    /\ List.length entries = List.length dts
    /\ Forall calm_entry entries
    /\ total_count (ParkingSimulation.rules_applied_count self')
       = (total_count (ParkingSimulation.rules_applied_count self)
          + List.length dts)%nat
    /\ Car.turning_radius (ParkingSimulation.player_car self')
       = Car.turning_radius (ParkingSimulation.player_car self).
Proof.
  revert self; induction dts as [|dt dts IH]; intros self Hinv.
  - exists self, []; cbn [run_ticks List.length].
    rewrite app_nil_r, Nat.add_0_r.
    split; [reflexivity|]. split; [exact Hinv|]. split; [reflexivity|].
    split; [reflexivity|]. split; [constructor|split; reflexivity].
  - destruct (tick_invariant self dt Hinv)
      as (self1 & entry & Htick & Hinv1 & _ & Hhist1 & Hcalm & _ & Hcount1
          & Hcar1).
    destruct (IH self1 Hinv1)
      as (self' & entries & Hrun & Hinv' & Hhist & Hlen & Hall & Hcount & Hcar).
    exists self', (entry :: entries).
    cbn [run_ticks]; rewrite Htick; cbn [bind].
    split; [exact Hrun|]. split; [exact Hinv'|].
    split; [rewrite Hhist, Hhist1, <- app_assoc; reflexivity|].
    split; [simpl; rewrite Hlen; reflexivity|].
    split; [constructor; assumption|].
    split; [rewrite Hcount, Hcount1; simpl; lia|congruence].
Qed.

Lemma init_invariant (random_cars : list Car.t) :
  loop_invariant (ParkingSimulation.__init__ random_cars).
Proof.
  unfold loop_invariant; cbn.
  repeat split; [constructor|left; reflexivity|discriminate].
Qed.


(** X22.  In automatic operation the car never brakes for an obstacle.
    From the initial state, for any obstacle cars -- also one right in
    front of the car -- and any passes, no decision of the log has the
    emergency flag, and neither the emergency rule nor the slow-down rule
    is ever the rule applied: both test the throttle fact, which no pass
    writes, so that it stays 0. *)
Theorem control_loop_never_brakes (random_cars : list Car.t) (dts : list Q) :
  exists self',
    run_ticks (ParkingSimulation.__init__ random_cars) dts = Ok self'
    /\ Forall calm_entry
         (ExpertSystem.decision_history (ParkingSimulation.expert_system self'))
    /\ throttle_idle
         (KnowledgeBase.facts
            (ExpertSystem.knowledge_base (ParkingSimulation.expert_system self'))).
Proof.
  destruct (run_ticks_invariant (ParkingSimulation.__init__ random_cars) dts
              (init_invariant random_cars))
    as (self' & entries & Hrun & Hinv & Hhist & _ & Hall & _ & _).
  exists self'. split; [exact Hrun|].
  split; [rewrite Hhist; cbn; exact Hall|apply Hinv].
Qed.
End Passes.

(** ** The decision in each phase *)

Lemma sorted_table :
  sorted_reverse (fun r => priority_value (Rule.priority r))
    (map snd KnowledgeBase._build_rules)
  = [ KnowledgeBase.initial_start; KnowledgeBase.emergency_stop;
      KnowledgeBase.slow_down; KnowledgeBase.start_reverse;
      KnowledgeBase.transition_to_align; KnowledgeBase.straight_search;
      KnowledgeBase.center_correction; KnowledgeBase.spot_found;
      KnowledgeBase.approach_spot; KnowledgeBase.stop_for_maneuver;
      KnowledgeBase.align_parallel; KnowledgeBase.ready_for_reverse;
      KnowledgeBase.reverse_align; KnowledgeBase.parking_complete;
      KnowledgeBase.default_stop ].
Proof. vm_compute; reflexivity. Qed.

Lemma find_skip {A : Type} (f : A -> bool) (a : A) (l : list A) :
  f a = false -> find f (a :: l) = find f l.
Proof. intro H; simpl; rewrite H; reflexivity. Qed.

Lemma find_take {A : Type} (f : A -> bool) (a : A) (l : list A) :
  f a = true -> find f (a :: l) = Some a.
Proof. intro H; simpl; rewrite H; reflexivity. Qed.

Ltac store_side :=
  first [ eapply store_keys; eassumption | eapply store_length; eassumption
        | eapply store_width; eassumption | reflexivity ].

(** The value of a phase test on a store of the control loop. *)
Lemma phase_test (config : ParkingConfig.t) (facts : dict) (p : ParkingPhase)
    (s : string) :
  loop_store config facts ->
  dict_get k_phase facts = Some (FPhase p) ->
  eval true facts (Rule.prepare facts (ast (phase_is s)))
  = Ok (VBool (String.eqb (phase_value p) s)).
Proof.
  intros Hs Hp. rewrite prepare_transparent by store_side.
  cbn [ast phase_is eval lit]; lookup_facts. reflexivity.
Qed.

(** A rule guarded by another phase does not match. *)
Lemma phase_guard_mismatch (config : ParkingConfig.t) (facts : dict)
    (p : ParkingPhase) (s : string) (rule : Rule.t) :
  loop_store config facts ->
  dict_get k_phase facts = Some (FPhase p) ->
  In (phase_is s) (Rule.conditions rule) ->
  String.eqb (phase_value p) s = false ->
  Rule.evaluate rule facts = false.
Proof.
  intros Hs Hp Hin Hne.
  apply (evaluate_false_by rule facts (phase_is s)
           (VBool (String.eqb (phase_value p) s))); [exact Hin| |exact Hne].
  apply (phase_test config); assumption.
Qed.

Lemma default_stop_matches (config : ParkingConfig.t) (facts : dict)
    (p : ParkingPhase) :
  loop_store config facts ->
  dict_get k_phase facts = Some (FPhase p) ->
  p <> PARKED ->
  Rule.evaluate KnowledgeBase.default_stop facts = true.
Proof.
  intros Hs Hp Hne. unfold Rule.evaluate.
  change (Rule.conditions KnowledgeBase.default_stop)
    with [Source "phase != 'parked'"
            (Compare OpNotEq (Name "phase") (lit "parked"))].
  rewrite check_cons, prepare_transparent by store_side.
  cbn [ast eval lit]; lookup_facts.
  destruct p; try reflexivity. exfalso; apply Hne; reflexivity.
Qed.

Lemma parking_complete_matches (config : ParkingConfig.t) (facts : dict) :
  loop_store config facts ->
  dict_get k_phase facts = Some (FPhase PARKED) ->
  Rule.evaluate KnowledgeBase.parking_complete facts = true.
Proof.
  intros Hs Hp. unfold Rule.evaluate.
  change (Rule.conditions KnowledgeBase.parking_complete)
    with [phase_is "parked"].
  rewrite check_cons, (phase_test config facts PARKED) by assumption.
  reflexivity.
Qed.

(** Proves that a rule of the table does not match: by its phase guard,
    or by the throttle fact. *)
Ltac rule_off Hs Hp Ht :=
  first
    [ exact (proj1 (throttle_rules_idle _ _ Hs Ht))
    | exact (proj2 (throttle_rules_idle _ _ Hs Ht))
    | eapply (phase_guard_mismatch _ _ _ _ _ Hs Hp);
      [simpl; left; reflexivity|reflexivity] ].

Section PhaseDecisions.
Context {M : Math}.

(** X23.  The phases in which the car stands still.  For an expert system
    with the rule table of the program and a throttle fact that is missing
    or 0: in the phases PREPARE_REVERSE, FINAL_ADJUST and ABORTED, for any
    readings, pose and spot, the rule applied is the default stop, and in
    the phase PARKED it is the completion rule; in all four the decision
    commands throttle 0 and steering 0. *)
Theorem standstill_phases (self self' : ExpertSystem.t) (phase : ParkingPhase)
    (sensors : list Q) (car_pos : Q * Q) (car_angle : Q)
    (target_spot : option ParkingSpot.t) (decision : DecisionInfo.t) :
  let kb := ExpertSystem.knowledge_base self in
  KnowledgeBase.rules kb = KnowledgeBase._build_rules ->
  NoDup (map fst (KnowledgeBase.facts kb)) ->
  throttle_idle (KnowledgeBase.facts kb) ->
  In phase [PREPARE_REVERSE; FINAL_ADJUST; ABORTED; PARKED] ->
  ExpertSystem.make_decision self phase sensors car_pos car_angle target_spot
  = Ok (decision, self') ->
  DecisionInfo.rule_applied decision
  = (if phase_eqb phase PARKED then Rule.name KnowledgeBase.parking_complete
     else Rule.name KnowledgeBase.default_stop)
  /\ DecisionInfo.throttle decision = VNum 0
  /\ DecisionInfo.steering decision = VNum 0
  /\ DecisionInfo.emergency decision = false.
Proof.
  intros kb Hrules Hnd Hidle Hphase Hmd. subst kb.
  assert (Hth : dict_get k_throttle
                  (KnowledgeBase.facts (ExpertSystem.knowledge_base self))
                = None
                \/ exists q,
                     dict_get k_throttle
                       (KnowledgeBase.facts (ExpertSystem.knowledge_base self))
                     = Some (FNum q))
    by (destruct Hidle as [H|H]; [left; exact H|right; exists 0; exact H]).
  destruct (make_decision_store _ _ _ _ _ _ _ _ Hnd Hth Hmd)
    as (Hs & _ & _ & Hp & _ & Hthrottle & _ & Hd).
  assert (Ht : dict_get k_throttle
                 (KnowledgeBase.facts (ExpertSystem.knowledge_base self'))
               = Some (FNum 0))
    by (rewrite Hthrottle; destruct Hidle as [-> | ->]; reflexivity).
  unfold KnowledgeBase.sorted_rules in Hd.
  rewrite Hrules, sorted_table in Hd.
  simpl in Hphase.
  destruct Hphase as [<-|[<-|[<-|[<-|[]]]]];
    repeat (rewrite find_skip in Hd by rule_off Hs Hp Ht);
    first
      [ rewrite find_take in Hd
          by (apply (default_stop_matches _ _ _ Hs Hp); discriminate)
      | rewrite find_take in Hd
          by (apply (parking_complete_matches _ _ Hs Hp)) ];
    subst decision; repeat split.
Qed.
End PhaseDecisions.

Lemma standstill_phases_witness :
  exists decision self',
    ExpertSystem.make_decision (M := rational_math)
      (ExpertSystem.__init__ ParkingConfig.default) PREPARE_REVERSE
      [20; 20; 20; 20; 20; 20; 20; 20] (640, 390) 0
      (Some (ParkingSpot.Build 400 450 120 60 false true))
    = Ok (decision, self')
    /\ DecisionInfo.rule_applied decision = Rule.name KnowledgeBase.default_stop
    /\ DecisionInfo.throttle decision = VNum 0
    /\ DecisionInfo.steering decision = VNum 0
    /\ DecisionInfo.emergency decision = false.
Proof.
  do 2 eexists. split; [vm_compute; reflexivity|].
  eapply (standstill_phases (M := rational_math)
            (ExpertSystem.__init__ ParkingConfig.default) _ PREPARE_REVERSE
           [20; 20; 20; 20; 20; 20; 20; 20] (640, 390) 0
           (Some (ParkingSpot.Build 400 450 120 60 false true)) _).
  - reflexivity.
  - constructor.
  - left; reflexivity.
  - simpl; tauto.
  - vm_compute; reflexivity.
Defined.

Lemma start_reverse_test (config : ParkingConfig.t) (facts : dict)
    (car_angle : Q) :
  loop_store config facts ->
  dict_get k_phase facts = Some (FPhase REVERSE_RIGHT) ->
  dict_get k_car_angle facts = Some (FNum car_angle) ->
  Rule.evaluate KnowledgeBase.start_reverse facts = Qltb (- 35) car_angle.
Proof.
  intros Hs Hp Ha. unfold Rule.evaluate.
  change (Rule.conditions KnowledgeBase.start_reverse)
    with [phase_is "reverse_right";
          Source "car_angle > -35"
            (Compare OpGt (Name "car_angle") (USub (num 35)))].
  rewrite !check_cons, (phase_test config facts REVERSE_RIGHT) by assumption.
  rewrite prepare_transparent by store_side.
  cbn [ast eval num bind]; lookup_facts.
  change (String.eqb (phase_value REVERSE_RIGHT) "reverse_right") with true.
  cbn [bind truthy negb value_of py_neg py_compare py_order as_num Rule.check].
  change (- (35)) with (- 35).
  destruct (Qltb (- 35) car_angle); reflexivity.
Qed.

Lemma transition_to_align_test (config : ParkingConfig.t) (facts : dict)
    (car_angle : Q) :
  loop_store config facts ->
  dict_get k_phase facts = Some (FPhase REVERSE_RIGHT) ->
  dict_get k_car_angle facts = Some (FNum car_angle) ->
  Rule.evaluate KnowledgeBase.transition_to_align facts
  = Qle_bool car_angle (- 30).
Proof.
  intros Hs Hp Ha. unfold Rule.evaluate.
  change (Rule.conditions KnowledgeBase.transition_to_align)
    with [phase_is "reverse_right";
          Source "car_angle <= -30"
            (Compare OpLtE (Name "car_angle") (USub (num 30)))].
  rewrite !check_cons, (phase_test config facts REVERSE_RIGHT) by assumption.
  rewrite prepare_transparent by store_side.
  cbn [ast eval num bind]; lookup_facts.
  change (String.eqb (phase_value REVERSE_RIGHT) "reverse_right") with true.
  cbn [bind truthy negb value_of py_neg py_compare py_order as_num Rule.check].
  change (- (30)) with (- 30).
  destruct (Qle_bool car_angle (- 30)); reflexivity.
Qed.

Lemma reverse_align_test (config : ParkingConfig.t) (facts : dict)
    (car_angle : Q) :
  loop_store config facts ->
  dict_get k_phase facts = Some (FPhase REVERSE_LEFT) ->
  dict_get k_car_angle facts = Some (FNum car_angle) ->
  Rule.evaluate KnowledgeBase.reverse_align facts = Qltb 3 (Qabs car_angle).
Proof.
  intros Hs Hp Ha. unfold Rule.evaluate.
  change (Rule.conditions KnowledgeBase.reverse_align)
    with [phase_is "reverse_left";
          Source "abs(car_angle) > 3"
            (Compare OpGt (CallAbs (Name "car_angle")) (num 3))].
  rewrite !check_cons, (phase_test config facts REVERSE_LEFT) by assumption.
  rewrite prepare_transparent by store_side.
  cbn [ast eval num bind]; lookup_facts.
  change (String.eqb (phase_value REVERSE_LEFT) "reverse_left") with true.
  cbn [bind truthy negb value_of py_abs py_compare py_order as_num Rule.check].
  destruct (Qltb 3 (Qabs car_angle)); reflexivity.
Qed.

Section ReverseDecisions.
Context {M : Math}.

(** X24.  The decisions of the two reversing phases, for an expert system
    with the rule table of the program and a throttle fact that is missing
    or 0, whatever the readings, the position and the spot.  In
    REVERSE_RIGHT the car always reverses: above a heading of -35 the rule
    that starts the manoeuvre applies, with 0.3 of the reverse speed and
    the steering left as the string "20"; from -35 down the rule that
    passes to the alignment applies, with 0.2 of the reverse speed and the
    string "0" -- its own condition, a heading of at most -30, is
    shadowed between -35 and -30 by the rule declared before it.  In
    REVERSE_LEFT the alignment rule applies while the heading is more than
    3 degrees off, with 0.25 of the reverse speed and a steering of
    [-12 - car_angle * 0.1]; otherwise the car is stopped. *)
Theorem reverse_phases_decision (self self' : ExpertSystem.t)
    (phase : ParkingPhase) (sensors : list Q) (car_pos : Q * Q) (car_angle : Q)
    (target_spot : option ParkingSpot.t) (decision : DecisionInfo.t) :
  let kb := ExpertSystem.knowledge_base self in
  let reverse_speed := ParkingConfig.max_reverse_speed (KnowledgeBase.config kb) in
  KnowledgeBase.rules kb = KnowledgeBase._build_rules ->
  NoDup (map fst (KnowledgeBase.facts kb)) ->
  throttle_idle (KnowledgeBase.facts kb) ->
  ExpertSystem.make_decision self phase sensors car_pos car_angle target_spot
  = Ok (decision, self') ->
  match phase with
  | REVERSE_RIGHT =>
      if Qltb (- 35) car_angle then
        DecisionInfo.rule_applied decision
        = Rule.name KnowledgeBase.start_reverse
        /\ DecisionInfo.throttle decision = VNum (- reverse_speed * 0.3)
        /\ DecisionInfo.steering decision = VStr "20"
      else
        DecisionInfo.rule_applied decision
        = Rule.name KnowledgeBase.transition_to_align
        /\ DecisionInfo.throttle decision = VNum (- reverse_speed * 0.2)
        /\ DecisionInfo.steering decision = VStr "0"
  | REVERSE_LEFT =>
      if Qltb 3 (Qabs car_angle) then
        DecisionInfo.rule_applied decision
        = Rule.name KnowledgeBase.reverse_align
        /\ DecisionInfo.throttle decision = VNum (- reverse_speed * 0.25)
        /\ DecisionInfo.steering decision = VNum (- 12 - car_angle * 0.1)
      else
        DecisionInfo.rule_applied decision
        = Rule.name KnowledgeBase.default_stop
        /\ DecisionInfo.throttle decision = VNum 0
        /\ DecisionInfo.steering decision = VNum 0
  | _ => True
  end.
Proof.
  intros kb reverse_speed Hrules Hnd Hidle Hmd. subst kb reverse_speed.
  assert (Hth : dict_get k_throttle
                  (KnowledgeBase.facts (ExpertSystem.knowledge_base self))
                = None
                \/ exists q,
                     dict_get k_throttle
                       (KnowledgeBase.facts (ExpertSystem.knowledge_base self))
                     = Some (FNum q))
    by (destruct Hidle as [H|H]; [left; exact H|right; exists 0; exact H]).
  destruct (make_decision_store _ _ _ _ _ _ _ _ Hnd Hth Hmd)
    as (Hs & _ & _ & Hp & _ & Hthrottle & Ha & Hd).
  assert (Ht : dict_get k_throttle
                 (KnowledgeBase.facts (ExpertSystem.knowledge_base self'))
               = Some (FNum 0))
    by (rewrite Hthrottle; destruct Hidle as [-> | ->]; reflexivity).
  unfold KnowledgeBase.sorted_rules in Hd.
  rewrite Hrules, sorted_table in Hd.
  pose proof (store_keys _ _ Hs) as Hnd'.
  pose proof (eval_context_get
                (KnowledgeBase.config (ExpertSystem.knowledge_base self))
                _ _ _ Hnd' (store_config _ _ Hs)) as Hc.
  pose proof (eval_context_get
                (KnowledgeBase.config (ExpertSystem.knowledge_base self))
                _ _ _ Hnd' Ha) as Ha'.
  destruct phase; try exact I.
  - do 3 (rewrite find_skip in Hd by rule_off Hs Hp Ht).
    pose proof (start_reverse_test _ _ _ Hs Hp Ha) as Hstart.
    pose proof (transition_to_align_test _ _ _ Hs Hp Ha) as Htrans.
    destruct (Qltb (- 35) car_angle) eqn:Hcmp.
    + rewrite find_take in Hd by exact Hstart. subst decision.
      run_templates; repeat split.
    + rewrite find_skip in Hd by exact Hstart.
      assert (Hle : Qle_bool car_angle (- 30) = true).
      { apply Qle_bool_iff. apply Qltb_ge in Hcmp. lra. }
      rewrite Hle in Htrans.
      rewrite find_take in Hd by exact Htrans. subst decision.
      run_templates; repeat split.
  - do 12 (rewrite find_skip in Hd by rule_off Hs Hp Ht).
    pose proof (reverse_align_test _ _ _ Hs Hp Ha) as Halign.
    destruct (Qltb 3 (Qabs car_angle)) eqn:Hcmp.
    + rewrite find_take in Hd by exact Halign. subst decision.
      run_templates; repeat split.
    + rewrite find_skip in Hd by exact Halign.
      rewrite find_skip in Hd by rule_off Hs Hp Ht.
      rewrite find_take in Hd
        by (apply (default_stop_matches _ _ _ Hs Hp); discriminate).
      subst decision; repeat split.
Qed.
End ReverseDecisions.

Lemma reverse_phases_decision_witness :
  exists decision self',
    ExpertSystem.make_decision (M := rational_math)
      (ExpertSystem.__init__ ParkingConfig.default) REVERSE_RIGHT
      [400; 400; 400; 400; 400; 400; 400; 400] (640, 390) (- (32))
      (Some (ParkingSpot.Build 400 450 120 60 false true))
    = Ok (decision, self')
    /\ DecisionInfo.rule_applied decision = Rule.name KnowledgeBase.start_reverse
    /\ DecisionInfo.throttle decision
       = VNum (- ParkingConfig.max_reverse_speed ParkingConfig.default * 0.3)
    /\ DecisionInfo.steering decision = VStr "20".
Proof.
  do 2 eexists. split; [vm_compute; reflexivity|].
  eapply (reverse_phases_decision (M := rational_math)
            (ExpertSystem.__init__ ParkingConfig.default) _ REVERSE_RIGHT
            [400; 400; 400; 400; 400; 400; 400; 400] (640, 390) (- (32))
            (Some (ParkingSpot.Build 400 450 120 60 false true)) _).
  - reflexivity.
  - constructor.
  - left; reflexivity.
  - vm_compute; reflexivity.
Defined.
(** ** The decision while driving forward *)

Section Inputs.
Context {M : Math}.

(** The inputs of [make_decision], as the rules find them in the store. *)
Lemma make_decision_inputs (self self' : ExpertSystem.t) (phase : ParkingPhase)
    (sensors : list Q) (car_pos : Q * Q) (car_angle : Q)
    (target_spot : option ParkingSpot.t) (decision : DecisionInfo.t) :
  let facts' := KnowledgeBase.facts (ExpertSystem.knowledge_base self') in
  NoDup (map fst (KnowledgeBase.facts (ExpertSystem.knowledge_base self))) ->
  ExpertSystem.make_decision self phase sensors car_pos car_angle target_spot
  = Ok (decision, self') ->
  dict_get k_car_x facts' = Some (FNum (fst car_pos))
  /\ dict_get k_car_y facts' = Some (FNum (snd car_pos))
  /\ dict_get k_left_sensor facts' = Some (FNum (nth 1 sensors 0))
  /\ dict_get k_right_sensor facts' = Some (FNum (nth 5 sensors 0)).
Proof.
  intros facts' Hnd Hmd. subst facts'.
  do 8 (destruct sensors as [|? sensors]; [discriminate Hmd|]).
  unfold ExpertSystem.make_decision in Hmd.
  cbn [bind ExpertSystem.sensor_at nth_error] in Hmd.
  match type of Hmd with
  | context [KnowledgeBase.update_facts ?kb ?kwargs] =>
      set (items := kwargs) in Hmd;
      destruct (KnowledgeBase.update_facts kb items) as [kb1|] eqn:Hkb1;
      cbn [bind] in Hmd; [|discriminate Hmd]
  end.
  assert (Hitems : NoDup (map fst items)).
  { unfold items; simpl.
    repeat (constructor; [simpl; intuition discriminate|]). constructor. }
  pose proof (infer_facts kb1) as Hfacts.
  destruct (KnowledgeBase.infer kb1) as [d kb2].
  inversion Hmd; subst d self'; clear Hmd.
  cbn [ExpertSystem.knowledge_base fst snd] in *.
  assert (Hget : forall k v,
             dict_get k items = Some v ->
             dict_get k (KnowledgeBase.facts kb2) = Some v).
  { intros k v Hk. rewrite Hfacts.
    assert (Hne : k <> k_distance_to_spot /\ k <> k_config
                  /\ k <> k_CAR_LENGTH /\ k <> k_CAR_WIDTH)
      by (repeat split; intros ->; discriminate Hk).
    apply prologue_get_fact; try tauto.
    rewrite (update_facts_lookup _ kb1 items k Hkb1 Hitems) by tauto.
    rewrite Hk; reflexivity. }
  repeat split; apply Hget; reflexivity.
Qed.
End Inputs.

Lemma initial_start_test (config : ParkingConfig.t) (facts : dict) (car_x : Q) :
  loop_store config facts ->
  dict_get k_phase facts = Some (FPhase SEARCHING) ->
  dict_get k_car_x facts = Some (FNum car_x) ->
  Rule.evaluate KnowledgeBase.initial_start facts = Qltb car_x 300.
Proof.
  intros Hs Hp Hx. unfold Rule.evaluate.
  change (Rule.conditions KnowledgeBase.initial_start)
    with [phase_is "searching";
          Source "car_x < 300" (Compare OpLt (Name "car_x") (num 300))].
  rewrite !check_cons, (phase_test config facts SEARCHING) by assumption.
  rewrite prepare_transparent by store_side.
  cbn [ast eval num bind]; lookup_facts.
  change (String.eqb (phase_value SEARCHING) "searching") with true.
  cbn [bind truthy negb value_of py_compare py_order as_num Rule.check].
  destruct (Qltb car_x 300); reflexivity.
Qed.

Lemma straight_search_test (config : ParkingConfig.t) (facts : dict)
    (target_spot : option ParkingSpot.t) :
  loop_store config facts ->
  dict_get k_phase facts = Some (FPhase SEARCHING) ->
  dict_get k_selected_spot facts = Some (ExpertSystem.spot_fact target_spot) ->
  Rule.evaluate KnowledgeBase.straight_search facts
  = match target_spot with None => true | Some _ => false end.
Proof.
  intros Hs Hp Hspot. unfold Rule.evaluate.
  change (Rule.conditions KnowledgeBase.straight_search)
    with [phase_is "searching";
          Source "selected_spot is None" (IsNone (Name "selected_spot"))].
  rewrite !check_cons, (phase_test config facts SEARCHING) by assumption.
  rewrite prepare_transparent by store_side.
  cbn [ast eval num bind]; lookup_facts.
  change (String.eqb (phase_value SEARCHING) "searching") with true.
  destruct target_spot; reflexivity.
Qed.

Lemma center_correction_test (config : ParkingConfig.t) (facts : dict)
    (left right : Q) :
  loop_store config facts ->
  dict_get k_phase facts = Some (FPhase SEARCHING) ->
  dict_get k_left_sensor facts = Some (FNum left) ->
  dict_get k_right_sensor facts = Some (FNum right) ->
  Rule.evaluate KnowledgeBase.center_correction facts
  = Qltb 50 (Qabs (left - right)).
Proof.
  intros Hs Hp Hl Hr. unfold Rule.evaluate.
  change (Rule.conditions KnowledgeBase.center_correction)
    with [phase_is "searching";
          Source "abs(left_sensor - right_sensor) > 50"
            (Compare OpGt
               (CallAbs (BinOp OpSub (Name "left_sensor") (Name "right_sensor")))
               (num 50))].
  rewrite !check_cons, (phase_test config facts SEARCHING) by assumption.
  rewrite prepare_transparent by store_side.
  cbn [ast eval num bind]; lookup_facts.
  change (String.eqb (phase_value SEARCHING) "searching") with true.
  cbn [bind truthy negb value_of py_binop py_abs py_compare py_order as_num
       Rule.check].
  destruct (Qltb 50 (Qabs (left - right))); reflexivity.
Qed.

Lemma spot_found_test (config : ParkingConfig.t) (facts : dict) (car_x : Q)
    (spot : ParkingSpot.t) :
  loop_store config facts ->
  dict_get k_phase facts = Some (FPhase SEARCHING) ->
  dict_get k_car_x facts = Some (FNum car_x) ->
  dict_get k_selected_spot facts = Some (FSpot spot) ->
  Rule.evaluate KnowledgeBase.spot_found facts
  = Qltb car_x (ParkingSpot.x spot - 100).
Proof.
  intros Hs Hp Hx Hspot. unfold Rule.evaluate.
  change (Rule.conditions KnowledgeBase.spot_found)
    with [phase_is "searching";
          spot_chosen;
          Source "car_x < selected_spot.x - 100"
            (Compare OpLt (Name "car_x") (BinOp OpSub spot_x (num 100)))].
  rewrite !check_cons, (phase_test config facts SEARCHING) by assumption.
  rewrite !prepare_transparent by store_side.
  cbn [ast spot_chosen spot_x eval num bind]; lookup_facts.
  change (String.eqb (phase_value SEARCHING) "searching") with true.
  cbn [bind truthy negb value_of py_getattr String.eqb Ascii.eqb Bool.eqb
       py_binop py_compare py_order as_num Rule.check].
  destruct (Qltb car_x (ParkingSpot.x spot - 100)); reflexivity.
Qed.

Section SearchDecisions.
Context {M : Math}.

(** X25.  The decision of the search phase as a table of its inputs, for
    an expert system with the rule table of the program and a throttle
    fact that is missing or 0.  Left of x = 300 the start rule applies.
    From there on: without a spot the straight search applies, also when
    the side readings differ -- the centring rule is behind it in the
    order, so it only ever applies once a spot is selected; with a spot,
    the centring rule applies when the left and right readings differ by
    more than 50, else the car drives on at 0.6 of the top speed while it
    is more than 100 short of the spot, else it is stopped.  No front
    reading enters the decision. *)
Theorem searching_decision (self self' : ExpertSystem.t)
    (sensors : list Q) (car_x car_y car_angle : Q)
    (target_spot : option ParkingSpot.t) (decision : DecisionInfo.t) :
  let kb := ExpertSystem.knowledge_base self in
  let top := ParkingConfig.max_speed (KnowledgeBase.config kb) in
  let left := nth 1 sensors 0 in
  let right := nth 5 sensors 0 in
  KnowledgeBase.rules kb = KnowledgeBase._build_rules ->
  NoDup (map fst (KnowledgeBase.facts kb)) ->
  throttle_idle (KnowledgeBase.facts kb) ->
  ExpertSystem.make_decision self SEARCHING sensors (car_x, car_y) car_angle
    target_spot
  = Ok (decision, self') ->
  if Qltb car_x 300 then
    DecisionInfo.rule_applied decision = Rule.name KnowledgeBase.initial_start
    /\ DecisionInfo.throttle decision = VNum (top * 0.7)
    /\ DecisionInfo.steering decision = VNum 0
  else
    match target_spot with
    | None =>
        DecisionInfo.rule_applied decision
        = Rule.name KnowledgeBase.straight_search
        /\ DecisionInfo.throttle decision = VNum (top * 0.7)
        /\ DecisionInfo.steering decision = VNum 0
    | Some spot =>
        if Qltb 50 (Qabs (left - right)) then
          DecisionInfo.rule_applied decision
          = Rule.name KnowledgeBase.center_correction
          /\ DecisionInfo.throttle decision = VNum (top * 0.7)
          /\ DecisionInfo.steering decision = VNum ((right - left) * 0.01)
        else if Qltb car_x (ParkingSpot.x spot - 100) then
          DecisionInfo.rule_applied decision
          = Rule.name KnowledgeBase.spot_found
          /\ DecisionInfo.throttle decision = VNum (top * 0.6)
          /\ DecisionInfo.steering decision = VNum 0
        else
          DecisionInfo.rule_applied decision
          = Rule.name KnowledgeBase.default_stop
          /\ DecisionInfo.throttle decision = VNum 0
          /\ DecisionInfo.steering decision = VNum 0
    end.
Proof.
  intros kb top left right Hrules Hnd Hidle Hmd. subst kb top left right.
  assert (Hth : dict_get k_throttle
                  (KnowledgeBase.facts (ExpertSystem.knowledge_base self))
                = None
                \/ exists q,
                     dict_get k_throttle
                       (KnowledgeBase.facts (ExpertSystem.knowledge_base self))
                     = Some (FNum q))
    by (destruct Hidle as [H|H]; [left; exact H|right; exists 0; exact H]).
  destruct (make_decision_store _ _ _ _ _ _ _ _ Hnd Hth Hmd)
    as (Hs & _ & _ & Hp & Hspot & Hthrottle & _ & Hd).
  destruct (make_decision_inputs _ _ _ _ _ _ _ _ Hnd Hmd)
    as (Hx & _ & Hl & Hr).
  cbn [fst snd] in Hx.
  assert (Ht : dict_get k_throttle
                 (KnowledgeBase.facts (ExpertSystem.knowledge_base self'))
               = Some (FNum 0))
    by (rewrite Hthrottle; destruct Hidle as [-> | ->]; reflexivity).
  unfold KnowledgeBase.sorted_rules in Hd.
  rewrite Hrules, sorted_table in Hd.
  pose proof (store_keys _ _ Hs) as Hnd'.
  pose proof (eval_context_get
                (KnowledgeBase.config (ExpertSystem.knowledge_base self))
                _ _ _ Hnd' (store_config _ _ Hs)) as Hc.
  pose proof (eval_context_get
                (KnowledgeBase.config (ExpertSystem.knowledge_base self))
                _ _ _ Hnd' Hl) as Hl'.
  pose proof (eval_context_get
                (KnowledgeBase.config (ExpertSystem.knowledge_base self))
                _ _ _ Hnd' Hr) as Hr'.
  pose proof (initial_start_test _ _ _ Hs Hp Hx) as Hstart.
  destruct (Qltb car_x 300) eqn:Hcmp.
  { rewrite find_take in Hd by exact Hstart. subst decision.
    run_templates; repeat split. }
  rewrite find_skip in Hd by exact Hstart.
  do 4 (rewrite find_skip in Hd by rule_off Hs Hp Ht).
  pose proof (straight_search_test _ _ _ Hs Hp Hspot) as Hstraight.
  destruct target_spot as [spot|].
  2:{ rewrite find_take in Hd by exact Hstraight. subst decision.
      run_templates; repeat split. }
  rewrite find_skip in Hd by exact Hstraight.
  pose proof (center_correction_test _ _ _ _ Hs Hp Hl Hr) as Hcenter.
  destruct (Qltb 50 (Qabs (nth 1 sensors 0 - nth 5 sensors 0))) eqn:Hside.
  { rewrite find_take in Hd by exact Hcenter. subst decision.
    run_templates; repeat split. }
  rewrite find_skip in Hd by exact Hcenter.
  pose proof (spot_found_test _ _ _ _ Hs Hp Hx Hspot) as Hfound.
  destruct (Qltb car_x (ParkingSpot.x spot - 100)) eqn:Hshort.
  { rewrite find_take in Hd by exact Hfound. subst decision.
    run_templates; repeat split. }
  rewrite find_skip in Hd by exact Hfound.
  do 6 (rewrite find_skip in Hd by rule_off Hs Hp Ht).
  rewrite find_take in Hd
    by (apply (default_stop_matches _ _ _ Hs Hp); discriminate).
  subst decision; repeat split.
Qed.
End SearchDecisions.

Lemma searching_decision_witness :
  exists decision self',
    ExpertSystem.make_decision (M := rational_math)
      (ExpertSystem.__init__ ParkingConfig.default) SEARCHING
      [400; 100; 400; 20; 400; 400; 400; 400] (350, 500) 0 None
    = Ok (decision, self')
    /\ DecisionInfo.rule_applied decision
       = Rule.name KnowledgeBase.straight_search
    /\ DecisionInfo.throttle decision
       = VNum (ParkingConfig.max_speed ParkingConfig.default * 0.7)
    /\ DecisionInfo.steering decision = VNum 0.
Proof.
  do 2 eexists. split; [vm_compute; reflexivity|].
  eapply (searching_decision (M := rational_math)
            (ExpertSystem.__init__ ParkingConfig.default) _
            [400; 100; 400; 20; 400; 400; 400; 400] 350 500 0 None _).
  - reflexivity.
  - constructor.
  - left; reflexivity.
  - vm_compute; reflexivity.
Defined.
(** ** The decision while approaching and positioning *)

(** A rule that asks for a spot does not match without one. *)
Lemma spotless (config : ParkingConfig.t) (facts : dict) (rule : Rule.t) :
  loop_store config facts ->
  dict_get k_selected_spot facts = Some FNone ->
  In spot_chosen (Rule.conditions rule) ->
  Rule.evaluate rule facts = false.
Proof.
  intros Hs Hnone Hin.
  destruct (Rule.evaluate rule facts) eqn:E; [|reflexivity].
  destruct (spot_chosen_holds rule config facts Hs E Hin) as [s H].
  congruence.
Qed.

Lemma approach_spot_test (config : ParkingConfig.t) (facts : dict) (car_x : Q)
    (spot : ParkingSpot.t) :
  loop_store config facts ->
  dict_get k_phase facts = Some (FPhase APPROACH) ->
  dict_get k_car_x facts = Some (FNum car_x) ->
  dict_get k_selected_spot facts = Some (FSpot spot) ->
  Rule.evaluate KnowledgeBase.approach_spot facts
  = Qltb car_x (ParkingSpot.x spot + CAR_LENGTH * 1.5).
Proof.
  intros Hs Hp Hx Hspot.
  pose proof (store_length _ _ Hs) as Hlen.
  unfold Rule.evaluate.
  change (Rule.conditions KnowledgeBase.approach_spot)
    with [phase_is "approach";
          spot_chosen;
          Source "car_x < selected_spot.x + CAR_LENGTH * 1.5"
            (Compare OpLt (Name "car_x") stop_line)].
  rewrite !check_cons, (phase_test config facts APPROACH) by assumption.
  rewrite !prepare_transparent by store_side.
  cbn [ast spot_chosen stop_line spot_x eval num bind]; lookup_facts.
  change (String.eqb (phase_value APPROACH) "approach") with true.
  cbn [bind truthy negb value_of py_getattr String.eqb Ascii.eqb Bool.eqb
       py_binop py_compare py_order as_num Rule.check].
  destruct (Qltb car_x (ParkingSpot.x spot + CAR_LENGTH * 1.5)); reflexivity.
Qed.

Lemma stop_for_maneuver_test (config : ParkingConfig.t) (facts : dict)
    (car_x : Q) (spot : ParkingSpot.t) :
  loop_store config facts ->
  dict_get k_phase facts = Some (FPhase APPROACH) ->
  dict_get k_car_x facts = Some (FNum car_x) ->
  dict_get k_selected_spot facts = Some (FSpot spot) ->
  Rule.evaluate KnowledgeBase.stop_for_maneuver facts
  = Qle_bool (ParkingSpot.x spot + CAR_LENGTH * 1.5 - 40) car_x
    && Qle_bool car_x (ParkingSpot.x spot + CAR_LENGTH * 1.5 + 40).
Proof.
  intros Hs Hp Hx Hspot.
  pose proof (store_length _ _ Hs) as Hlen.
  unfold Rule.evaluate.
  change (Rule.conditions KnowledgeBase.stop_for_maneuver)
    with [phase_is "approach";
          spot_chosen;
          Source "car_x >= selected_spot.x + CAR_LENGTH * 1.5 - 40"
            (Compare OpGtE (Name "car_x") (BinOp OpSub stop_line (num 40)));
          Source "car_x <= selected_spot.x + CAR_LENGTH * 1.5 + 40"
            (Compare OpLtE (Name "car_x") (BinOp OpAdd stop_line (num 40)))].
  rewrite !check_cons, (phase_test config facts APPROACH) by assumption.
  rewrite !prepare_transparent by store_side.
  cbn [ast spot_chosen stop_line spot_x eval num bind]; lookup_facts.
  change (String.eqb (phase_value APPROACH) "approach") with true.
  cbn [bind truthy negb value_of py_getattr String.eqb Ascii.eqb Bool.eqb
       py_binop py_compare py_order as_num Rule.check].
  destruct (Qle_bool (ParkingSpot.x spot + CAR_LENGTH * 1.5 - 40) car_x);
    cbn [bind truthy negb andb]; [|reflexivity].
  destruct (Qle_bool car_x (ParkingSpot.x spot + CAR_LENGTH * 1.5 + 40));
    reflexivity.
Qed.

Lemma align_parallel_test (config : ParkingConfig.t) (facts : dict)
    (car_y car_angle : Q) (spot : ParkingSpot.t) :
  loop_store config facts ->
  dict_get k_phase facts = Some (FPhase POSITIONING) ->
  dict_get k_car_y facts = Some (FNum car_y) ->
  dict_get k_car_angle facts = Some (FNum car_angle) ->
  dict_get k_selected_spot facts = Some (FSpot spot) ->
  Rule.evaluate KnowledgeBase.align_parallel facts
  = Qltb 2 (Qabs car_angle)
    || Qltb 15 (Qabs (car_y - (ParkingSpot.y spot - CAR_WIDTH * 1.5))).
Proof.
  intros Hs Hp Hy Ha Hspot.
  pose proof (store_width _ _ Hs) as Hwid.
  unfold Rule.evaluate.
  change (Rule.conditions KnowledgeBase.align_parallel)
    with [phase_is "positioning";
          spot_chosen;
          Source
            "abs(car_angle) > 2 or abs(car_y - (selected_spot.y - CAR_WIDTH * 1.5)) > 15"
            (BoolOr
               (Compare OpGt (CallAbs (Name "car_angle")) (num 2))
               (Compare OpGt (CallAbs lateral_offset) (num 15)))].
  rewrite !check_cons, (phase_test config facts POSITIONING) by assumption.
  rewrite !prepare_transparent by store_side.
  cbn [ast spot_chosen lateral_offset spot_y eval num bind]; lookup_facts.
  change (String.eqb (phase_value POSITIONING) "positioning") with true.
  cbn [bind truthy negb value_of py_getattr String.eqb Ascii.eqb Bool.eqb
       py_binop py_abs py_compare py_order as_num Rule.check].
  destruct (Qltb 2 (Qabs car_angle));
    cbn [bind truthy negb orb Rule.check]; [reflexivity|].
  destruct (Qltb 15 (Qabs (car_y - (ParkingSpot.y spot - CAR_WIDTH * 1.5))));
    reflexivity.
Qed.

Section ForwardDecisions.
Context {M : Math}.

(** X26.  The decisions of the approach and positioning phases as tables
    of their inputs, under the same assumptions.  Without a spot the car
    is stopped in both.  In APPROACH, with the stop line 1.5 car lengths
    past the spot's x: short of the line the approach rule applies, at
    half the top speed, steering against the lateral offset; from the line
    to 40 past it the stop rule applies -- the 40 before the line that its
    condition also allows belong to the approach rule, declared first;
    further on the default stop applies.  In POSITIONING the alignment rule
    applies while the heading is off by more than 2 or the lateral offset
    by more than 15; otherwise throttle and steering are 0, by the rule
    that announces the reverse manoeuvre or by the default stop. *)
Theorem forward_phases_decision (self self' : ExpertSystem.t)
    (phase : ParkingPhase) (sensors : list Q) (car_x car_y car_angle : Q)
    (target_spot : option ParkingSpot.t) (decision : DecisionInfo.t) :
  let kb := ExpertSystem.knowledge_base self in
  let top := ParkingConfig.max_speed (KnowledgeBase.config kb) in
  KnowledgeBase.rules kb = KnowledgeBase._build_rules ->
  NoDup (map fst (KnowledgeBase.facts kb)) ->
  throttle_idle (KnowledgeBase.facts kb) ->
  ExpertSystem.make_decision self phase sensors (car_x, car_y) car_angle
    target_spot
  = Ok (decision, self') ->
  match phase, target_spot with
  | APPROACH, None | POSITIONING, None =>
      DecisionInfo.rule_applied decision = Rule.name KnowledgeBase.default_stop
      /\ DecisionInfo.throttle decision = VNum 0
      /\ DecisionInfo.steering decision = VNum 0
  | APPROACH, Some spot =>
      let line := ParkingSpot.x spot + CAR_LENGTH * 1.5 in
      let lateral := car_y - (ParkingSpot.y spot - CAR_WIDTH * 1.5) in
      if Qltb car_x line then
        DecisionInfo.rule_applied decision
        = Rule.name KnowledgeBase.approach_spot
        /\ DecisionInfo.throttle decision = VNum (top * 0.5)
        /\ DecisionInfo.steering decision = VNum (- lateral * 0.008)
      else if Qle_bool car_x (line + 40) then
        DecisionInfo.rule_applied decision
        = Rule.name KnowledgeBase.stop_for_maneuver
        /\ DecisionInfo.throttle decision = VNum 0
        /\ DecisionInfo.steering decision = VNum 0
      else
        DecisionInfo.rule_applied decision
        = Rule.name KnowledgeBase.default_stop
        /\ DecisionInfo.throttle decision = VNum 0
        /\ DecisionInfo.steering decision = VNum 0
  | POSITIONING, Some spot =>
      let lateral := car_y - (ParkingSpot.y spot - CAR_WIDTH * 1.5) in
      if Qltb 2 (Qabs car_angle) || Qltb 15 (Qabs lateral) then
        DecisionInfo.rule_applied decision
        = Rule.name KnowledgeBase.align_parallel
        /\ DecisionInfo.throttle decision = VNum (top * 0.3)
        /\ DecisionInfo.steering decision
           = VNum (- car_angle * 0.15 - lateral * 0.01)
      else
        (DecisionInfo.rule_applied decision
         = Rule.name KnowledgeBase.ready_for_reverse
         \/ DecisionInfo.rule_applied decision
            = Rule.name KnowledgeBase.default_stop)
        /\ DecisionInfo.throttle decision = VNum 0
        /\ DecisionInfo.steering decision = VNum 0
  | _, _ => True
  end.
Proof.
  intros kb top Hrules Hnd Hidle Hmd. subst kb top.
  assert (Hth : dict_get k_throttle
                  (KnowledgeBase.facts (ExpertSystem.knowledge_base self))
                = None
                \/ exists q,
                     dict_get k_throttle
                       (KnowledgeBase.facts (ExpertSystem.knowledge_base self))
                     = Some (FNum q))
    by (destruct Hidle as [H|H]; [left; exact H|right; exists 0; exact H]).
  destruct (make_decision_store _ _ _ _ _ _ _ _ Hnd Hth Hmd)
    as (Hs & _ & _ & Hp & Hspot & Hthrottle & Ha & Hd).
  destruct (make_decision_inputs _ _ _ _ _ _ _ _ Hnd Hmd)
    as (Hx & Hy & _ & _).
  cbn [fst snd] in Hx, Hy.
  assert (Ht : dict_get k_throttle
                 (KnowledgeBase.facts (ExpertSystem.knowledge_base self'))
               = Some (FNum 0))
    by (rewrite Hthrottle; destruct Hidle as [-> | ->]; reflexivity).
  unfold KnowledgeBase.sorted_rules in Hd.
  rewrite Hrules, sorted_table in Hd.
  pose proof (store_keys _ _ Hs) as Hnd'.
  pose proof (eval_context_get
                (KnowledgeBase.config (ExpertSystem.knowledge_base self))
                _ _ _ Hnd' (store_config _ _ Hs)) as Hc.
  pose proof (eval_context_get
                (KnowledgeBase.config (ExpertSystem.knowledge_base self))
                _ _ _ Hnd' (store_width _ _ Hs)) as Hw.
  pose proof (eval_context_get
                (KnowledgeBase.config (ExpertSystem.knowledge_base self))
                _ _ _ Hnd' Hy) as Hy'.
  pose proof (eval_context_get
                (KnowledgeBase.config (ExpertSystem.knowledge_base self))
                _ _ _ Hnd' Ha) as Ha'.
  pose proof (eval_context_get
                (KnowledgeBase.config (ExpertSystem.knowledge_base self))
                _ _ _ Hnd' Hspot) as Hspot'.
  destruct phase; try exact I; destruct target_spot as [spot|];
    cbn [ExpertSystem.spot_fact] in Hspot, Hspot'.
  - (* APPROACH, with a spot *)
    do 8 (rewrite find_skip in Hd by rule_off Hs Hp Ht).
    pose proof (approach_spot_test _ _ _ _ Hs Hp Hx Hspot) as Happroach.
    pose proof (stop_for_maneuver_test _ _ _ _ Hs Hp Hx Hspot) as Hstop.
    cbv zeta.
    destruct (Qltb car_x (ParkingSpot.x spot + CAR_LENGTH * 1.5)) eqn:Hshort.
    { rewrite find_take in Hd by exact Happroach. subst decision.
      run_templates; repeat split. }
    rewrite find_skip in Hd by exact Happroach.
    assert (Hpast : Qle_bool (ParkingSpot.x spot + CAR_LENGTH * 1.5 - 40) car_x
                    = true).
    { apply Qle_bool_iff. apply Qltb_ge in Hshort. lra. }
    rewrite Hpast in Hstop; cbn [andb] in Hstop.
    destruct (Qle_bool car_x (ParkingSpot.x spot + CAR_LENGTH * 1.5 + 40))
      eqn:Hnear.
    { rewrite find_take in Hd by exact Hstop. subst decision.
      repeat split. }
    rewrite find_skip in Hd by exact Hstop.
    do 4 (rewrite find_skip in Hd by rule_off Hs Hp Ht).
    rewrite find_take in Hd
      by (apply (default_stop_matches _ _ _ Hs Hp); discriminate).
    subst decision; repeat split.
  - (* APPROACH, without a spot *)
    do 8 (rewrite find_skip in Hd by rule_off Hs Hp Ht).
    do 2 (rewrite find_skip in Hd
            by (apply (spotless _ _ _ Hs Hspot); simpl; tauto)).
    do 4 (rewrite find_skip in Hd by rule_off Hs Hp Ht).
    rewrite find_take in Hd
      by (apply (default_stop_matches _ _ _ Hs Hp); discriminate).
    subst decision; repeat split.
  - (* POSITIONING, with a spot *)
    do 10 (rewrite find_skip in Hd by rule_off Hs Hp Ht).
    pose proof (align_parallel_test _ _ _ _ _ Hs Hp Hy Ha Hspot) as Halign.
    cbv zeta.
    destruct (Qltb 2 (Qabs car_angle)
              || Qltb 15
                   (Qabs (car_y - (ParkingSpot.y spot - CAR_WIDTH * 1.5))))
      eqn:Hoff.
    { rewrite find_take in Hd by exact Halign. subst decision.
      run_templates; repeat split. }
    rewrite find_skip in Hd by exact Halign.
    destruct (Rule.evaluate KnowledgeBase.ready_for_reverse
                (KnowledgeBase.facts (ExpertSystem.knowledge_base self')))
      eqn:Hready.
    { rewrite find_take in Hd by exact Hready. subst decision.
      split; [left; reflexivity|split; reflexivity]. }
    rewrite find_skip in Hd by exact Hready.
    do 2 (rewrite find_skip in Hd by rule_off Hs Hp Ht).
    rewrite find_take in Hd
      by (apply (default_stop_matches _ _ _ Hs Hp); discriminate).
    subst decision; split; [right; reflexivity|split; reflexivity].
  - (* POSITIONING, without a spot *)
    do 10 (rewrite find_skip in Hd by rule_off Hs Hp Ht).
    do 2 (rewrite find_skip in Hd
            by (apply (spotless _ _ _ Hs Hspot); simpl; tauto)).
    do 2 (rewrite find_skip in Hd by rule_off Hs Hp Ht).
    rewrite find_take in Hd
      by (apply (default_stop_matches _ _ _ Hs Hp); discriminate).
    subst decision; repeat split.
Qed.
End ForwardDecisions.

Lemma forward_phases_decision_witness :
  exists decision self',
    ExpertSystem.make_decision (M := rational_math)
      (ExpertSystem.__init__ ParkingConfig.default) APPROACH
      [400; 400; 400; 400; 400; 400; 400; 400] (500, 500) 0
      (Some (ParkingSpot.Build 400 550 100 120 false true))
    = Ok (decision, self')
    /\ DecisionInfo.rule_applied decision = Rule.name KnowledgeBase.approach_spot
    /\ DecisionInfo.throttle decision
       = VNum (ParkingConfig.max_speed ParkingConfig.default * 0.5)
    /\ DecisionInfo.steering decision
       = VNum (- (500 - (550 - CAR_WIDTH * 1.5)) * 0.008).
Proof.
  do 2 eexists. split; [vm_compute; reflexivity|].
  eapply (forward_phases_decision (M := rational_math)
            (ExpertSystem.__init__ ParkingConfig.default) _ APPROACH
            [400; 400; 400; 400; 400; 400; 400; 400] 500 500 0
            (Some (ParkingSpot.Build 400 550 100 120 false true)) _).
  - reflexivity.
  - constructor.
  - left; reflexivity.
  - vm_compute; reflexivity.
Defined.
(** ** Key presses *)

Section Keys.
Context {M : Math}.

Lemma pass_from_tick (self : ParkingSimulation.t) (dt : Q) :
  ParkingSimulation.tick self dt
  = pass_from self dt (ParkingSimulation.phase_timer self + dt).
Proof. reflexivity. Qed.

(** X27.  A press of the space bar before a spot is selected ends the
    program.  In the search phase with no spot, the manual transition
    enters the approach phase; the pass goes on -- the decision is taken
    and applied -- and the automatic transitions then read the x of a spot
    that is not there: the pass raises [AttributeError], for any time step
    and any obstacles.  A pass without a press is the pass of the control
    loop. *)
Theorem space_before_spot_raises (self : ParkingSimulation.t) (dt : Q) :
  let kb := ExpertSystem.knowledge_base (ParkingSimulation.expert_system self) in
  KnowledgeBase.rules kb = KnowledgeBase._build_rules ->
  NoDup (map fst (KnowledgeBase.facts kb)) ->
  throttle_idle (KnowledgeBase.facts kb) ->
  ParkingSimulation.current_phase self = SEARCHING ->
  ParkingSimulation.selected_spot self = None ->
  pass self dt 1 = Raise AttributeError
  /\ pass self dt 0 = ParkingSimulation.tick self dt.
Proof.
  intros kb Hrules Hnd Hidle Hphase Hspot. subst kb.
  split; [|reflexivity].
  unfold pass. rewrite Hphase.
  match goal with
  | |- context [Nat.iter 1 _ ?s] =>
      change (Nat.iter 1 ParkingSimulation.manual_phase_transition s)
        with (ParkingSimulation.set_phase s APPROACH 0
                (ParkingSimulation.parked s))
  end.
  unfold pass_from, Car.update_sensors.
  cbn [ParkingSimulation.set_phase ParkingSimulation.phase_timer
       ParkingSimulation.player_car ParkingSimulation.obstacle_cars
       ParkingSimulation.current_phase ParkingSimulation.selected_spot
       ParkingSimulation.expert_system ParkingSimulation.parking_spots
       ParkingSimulation.parked ParkingSimulation.rules_applied_count].
  rewrite Hspot.
  set (readings := map _ Car.sensor_angles).
  set (car1 := Car.Build _ _ _ _ _ _ _ _ readings _ _ _).
  assert (Hlen : (8 <= List.length readings)%nat)
    by (unfold readings; rewrite length_map; simpl; lia).
  destruct (make_decision_returns (ParkingSimulation.expert_system self)
              APPROACH readings (Car.x car1, Car.y car1) (Car.angle car1) None
              Hlen)
    as (decision & es & Hmd).
  assert (Hth : dict_get k_throttle
                  (KnowledgeBase.facts
                     (ExpertSystem.knowledge_base
                        (ParkingSimulation.expert_system self))) = None
                \/ exists q,
                     dict_get k_throttle
                       (KnowledgeBase.facts
                          (ExpertSystem.knowledge_base
                             (ParkingSimulation.expert_system self)))
                     = Some (FNum q))
    by (destruct Hidle as [H|H]; [left; exact H|right; exists 0; exact H]).
  destruct (make_decision_store _ _ _ _ _ _ _ _ Hnd Hth Hmd)
    as (Hs & _ & _ & _ & _ & _ & _ & Hd).
  assert (Hsub : forall rule,
             In rule (KnowledgeBase.sorted_rules
                        (ExpertSystem.knowledge_base
                           (ParkingSimulation.expert_system self))) ->
             In rule (map snd KnowledgeBase._build_rules)).
  { intros rule H; unfold KnowledgeBase.sorted_rules in H.
    apply sorted_reverse_In in H. rewrite Hrules in H; exact H. }
  destruct (decision_applies _ _ _ decision car1 Hs Hsub Hd)
    as (throttle & steering & Happ).
  rewrite Hmd; cbn [bind]. rewrite Happ; cbn [bind].
  reflexivity.
Qed.
End Keys.

Lemma space_before_spot_raises_witness :
  pass (M := rational_math) (ParkingSimulation.__init__ []) 0.016 1
  = Raise AttributeError
  /\ pass (M := rational_math) (ParkingSimulation.__init__ []) 0.016 0
     = ParkingSimulation.tick (M := rational_math)
         (ParkingSimulation.__init__ []) 0.016.
Proof.
  apply (space_before_spot_raises (M := rational_math)
           (ParkingSimulation.__init__ []) 0.016).
  - reflexivity.
  - constructor.
  - left; reflexivity.
  - reflexivity.
  - reflexivity.
Defined.
(** ** Rounding to the nearest double *)

Lemma pow2_pos (e : Z) : 0 < 2 ^ e.
Proof. apply Qpower_0_lt; reflexivity. Qed.

Lemma pow2_le (a b : Z) : (a <= b)%Z -> 2 ^ a <= 2 ^ b.
Proof. intro H; apply Qpower_le_compat_l; [exact H|discriminate]. Qed.

Lemma pow2_lt (a b : Z) : (a < b)%Z -> 2 ^ a < 2 ^ b.
Proof. intro H; apply Qpower_lt_compat_l; [exact H|reflexivity]. Qed.

Lemma pow2_add (a b : Z) : 2 ^ (a + b) == 2 ^ a * 2 ^ b.
Proof. apply Qpower_plus; discriminate. Qed.

Lemma pow2_Z (k : Z) : (0 <= k)%Z -> 2 ^ k == inject_Z (2 ^ k).
Proof. intro H; symmetry; apply (Zpower_Qpower 2 k H). Qed.

Lemma pow2_succ (a : Z) : 2 ^ (a + 1) == 2 * 2 ^ a.
Proof. rewrite pow2_add; change (2 ^ 1) with 2; ring. Qed.

Lemma Qfloor_eq (x y : Q) : x == y -> Qfloor x = Qfloor y.
Proof.
  intro H; apply Z.le_antisymm; apply Qfloor_resp_le; rewrite H; apply Qle_refl.
Qed.

Lemma ilog2_spec (x : Q) :
  0 < x -> 2 ^ ilog2 x <= x /\ x < 2 ^ (ilog2 x + 1).
Proof.
  intro Hx. unfold ilog2.
  destruct x as [n d]; cbn [Qnum Qden].
  assert (Hn : (0 < n)%Z) by (unfold Qlt in Hx; simpl in Hx; lia).
  destruct (Z.log2_spec n Hn) as [Ha1 Ha2].
  destruct (Z.log2_spec (Zpos d) (Pos2Z.is_pos d)) as [Hb1 Hb2].
  pose proof (Z.log2_nonneg n) as Ha0.
  pose proof (Z.log2_nonneg (Zpos d)) as Hb0.
  set (a := Z.log2 n) in *. set (b := Z.log2 (Zpos d)) in *.
  set (x := n # d) in *.
  assert (HxD : x * inject_Z (Zpos d) == inject_Z n).
  { unfold x. rewrite Qmake_Qdiv. field. discriminate. }
  assert (HD : 0 < inject_Z (Zpos d)) by reflexivity.
  assert (Hup : x < 2 ^ (a - b + 1)).
  { apply (Qmult_lt_r _ _ (2 ^ b) (pow2_pos b)).
    rewrite <- pow2_add. replace (a - b + 1 + b)%Z with (Z.succ a) by lia.
    apply Qle_lt_trans with (x * inject_Z (Zpos d)).
    - apply Qmult_le_l; [exact Hx|]. rewrite pow2_Z by exact Hb0.
      rewrite <- Zle_Qle; exact Hb1.
    - rewrite HxD, pow2_Z by lia. rewrite <- Zlt_Qlt; exact Ha2. }
  assert (Hlow : 2 ^ (a - b - 1) < x).
  { apply (Qmult_lt_r _ _ (2 ^ Z.succ b) (pow2_pos _)).
    rewrite <- pow2_add. replace (a - b - 1 + Z.succ b)%Z with a by lia.
    apply Qle_lt_trans with (x * inject_Z (Zpos d)).
    - rewrite HxD, pow2_Z by lia. rewrite <- Zle_Qle; exact Ha1.
    - apply Qmult_lt_l; [exact Hx|]. rewrite pow2_Z by lia.
      rewrite <- Zlt_Qlt; exact Hb2. }
  destruct (Qle_bool (2 ^ (a - b)) x) eqn:E.
  - apply Qle_bool_iff in E; split; assumption.
  - split; [apply Qlt_le_weak; exact Hlow|].
    replace (a - b - 1 + 1)%Z with (a - b)%Z by lia.
    apply Qnot_le_lt; intro H; apply Qle_bool_iff in H; congruence.
Qed.

Lemma ilog2_unique (x : Q) (a : Z) :
  0 < x -> 2 ^ a <= x -> x < 2 ^ (a + 1) -> ilog2 x = a.
Proof.
  intros Hx H1 H2. destruct (ilog2_spec x Hx) as [H3 H4].
  destruct (Z.lt_trichotomy (ilog2 x) a) as [H|[H|H]]; [exfalso|exact H|exfalso].
  - assert (H5 : 2 ^ (ilog2 x + 1) <= 2 ^ a) by (apply pow2_le; lia).
    apply (Qlt_irrefl x). eapply Qlt_le_trans; [exact H4|].
    eapply Qle_trans; eassumption.
  - assert (H5 : 2 ^ (a + 1) <= 2 ^ ilog2 x) by (apply pow2_le; lia).
    apply (Qlt_irrefl x). eapply Qlt_le_trans; [exact H2|].
    eapply Qle_trans; eassumption.
Qed.

Lemma ilog2_le (x y : Q) : 0 < x -> x <= y -> (ilog2 x <= ilog2 y)%Z.
Proof.
  intros Hx Hxy.
  assert (Hy : 0 < y) by (eapply Qlt_le_trans; eassumption).
  destruct (ilog2_spec x Hx) as [H1 _]. destruct (ilog2_spec y Hy) as [_ H2].
  destruct (Z_le_gt_dec (ilog2 x) (ilog2 y)) as [H|H]; [exact H|exfalso].
  assert (H5 : 2 ^ (ilog2 y + 1) <= 2 ^ ilog2 x) by (apply pow2_le; lia).
  apply (Qlt_irrefl y). eapply Qlt_le_trans; [exact H2|].
  eapply Qle_trans; [exact H5|]. eapply Qle_trans; eassumption.
Qed.

Lemma ilog2_eq (x y : Q) : 0 < x -> x == y -> ilog2 x = ilog2 y.
Proof.
  intros Hx Hxy.
  assert (Hy : 0 < y) by (rewrite <- Hxy; exact Hx).
  apply Z.le_antisymm; apply ilog2_le; try assumption;
    rewrite Hxy; apply Qle_refl.
Qed.

Lemma rne_cases (t : Q) :
  let f := Qfloor t in
  (rne t = f /\ t - inject_Z f <= 1 # 2)
  \/ (rne t = (f + 1)%Z /\ 1 # 2 <= t - inject_Z f).
Proof.
  intro f; unfold rne; fold f.
  destruct (Qcompare (t - inject_Z f) (1 # 2)) eqn:E.
  - apply Qeq_alt in E.
    destruct (Z.even f); [left|right]; split; try reflexivity;
      rewrite E; apply Qle_refl.
  - apply Qlt_alt in E; left; split; [reflexivity|apply Qlt_le_weak; exact E].
  - apply Qgt_alt in E; right; split; [reflexivity|apply Qlt_le_weak; exact E].
Qed.

Lemma rne_eq (t u : Q) : t == u -> rne t = rne u.
Proof.
  intro H; unfold rne. rewrite (Qfloor_eq t u H).
  assert (E : t - inject_Z (Qfloor u) == u - inject_Z (Qfloor u))
    by (rewrite H; reflexivity).
  rewrite (Qcompare_comp _ _ E (1 # 2) (1 # 2) (Qeq_refl _)). reflexivity.
Qed.

Lemma rne_Z (n : Z) : rne (inject_Z n) = n.
Proof.
  unfold rne. rewrite Qfloor_Z.
  assert (E : (Qcompare (inject_Z n - inject_Z n) (1 # 2)) = Lt).
  { apply Qlt_alt. setoid_replace (inject_Z n - inject_Z n) with 0 by ring.
    reflexivity. }
  rewrite E; reflexivity.
Qed.

Lemma rne_le (t u : Q) : t <= u -> (rne t <= rne u)%Z.
Proof.
  intro H. pose proof (Qfloor_resp_le t u H) as Hf.
  pose proof (Qfloor_le t) as Ht1. pose proof (Qlt_floor t) as Ht2.
  pose proof (Qfloor_le u) as Hu1. pose proof (Qlt_floor u) as Hu2.
  destruct (Z_le_lt_eq_dec _ _ Hf) as [Hlt|Heq].
  - destruct (rne_cases t) as [[-> _]|[-> _]];
      destruct (rne_cases u) as [[-> _]|[-> _]]; lia.
  - unfold rne. rewrite <- Heq.
    set (f := Qfloor t) in *.
    destruct (Qcompare (t - inject_Z f) (1 # 2)) eqn:Et;
      destruct (Qcompare (u - inject_Z f) (1 # 2)) eqn:Eu;
      try (destruct (Z.even f)); try lia; exfalso;
      repeat match goal with
        | H : (_ ?= _) = Eq |- _ => apply Qeq_alt in H
        | H : (_ ?= _) = Lt |- _ => apply Qlt_alt in H
        | H : (_ ?= _) = Gt |- _ => apply Qgt_alt in H
        end; lra.
Qed.

Lemma rne_error (t : Q) : Qabs (inject_Z (rne t) - t) <= 1 # 2.
Proof.
  pose proof (Qfloor_le t) as H1. pose proof (Qlt_floor t) as H2.
  rewrite inject_Z_plus in H2. change (inject_Z 1) with 1 in H2.
  apply Qabs_Qle_condition.
  destruct (rne_cases t) as [[-> H]|[-> H]]; cbv zeta in H.
  - split; lra.
  - rewrite inject_Z_plus; change (inject_Z 1) with 1. split; lra.
Qed.

Lemma exponent64_upper (x : Q) : 0 < x -> x < 2 ^ (exponent64 x + 1).
Proof.
  intro Hx. destruct (ilog2_spec x Hx) as [_ H].
  eapply Qlt_le_trans; [exact H|]. apply pow2_le. unfold exponent64; lia.
Qed.

Lemma exponent64_lower (x : Q) :
  0 < x -> (-1022 < exponent64 x)%Z -> 2 ^ exponent64 x <= x.
Proof.
  intros Hx He. destruct (ilog2_spec x Hx) as [H _].
  replace (exponent64 x) with (ilog2 x) by (unfold exponent64 in *; lia).
  exact H.
Qed.

Lemma exponent64_le (x y : Q) :
  0 < x -> x <= y -> (exponent64 x <= exponent64 y)%Z.
Proof.
  intros Hx Hxy. pose proof (ilog2_le x y Hx Hxy). unfold exponent64; lia.
Qed.

Lemma exponent64_eq (x y : Q) : 0 < x -> x == y -> exponent64 x = exponent64 y.
Proof.
  intros Hx Hxy. unfold exponent64. rewrite (ilog2_eq x y Hx Hxy); reflexivity.
Qed.

Lemma ulp64_pos (x : Q) : 0 < ulp64 x.
Proof. apply pow2_pos. Qed.

Lemma ulp64_scale (x : Q) (k : Z) :
  2 ^ (exponent64 x + k) == 2 ^ (52 + k) * ulp64 x.
Proof.
  unfold ulp64. rewrite <- pow2_add.
  replace (52 + k + (exponent64 x - 52))%Z with (exponent64 x + k)%Z by lia.
  reflexivity.
Qed.

Lemma quotient_ulp (x : Q) : x / ulp64 x * ulp64 x == x.
Proof.
  field. intro H. pose proof (ulp64_pos x) as Hp. rewrite H in Hp.
  exact (Qlt_irrefl 0 Hp).
Qed.

Lemma round64_pos_eq (x y : Q) :
  0 < x -> x == y -> round64_pos x == round64_pos y.
Proof.
  intros Hx Hxy. unfold round64_pos, ulp64.
  rewrite <- (exponent64_eq x y Hx Hxy).
  assert (E : x / 2 ^ (exponent64 x - 52) == y / 2 ^ (exponent64 x - 52))
    by (unfold Qdiv; apply Qmult_comp; [exact Hxy|reflexivity]).
  rewrite (rne_eq _ _ E). reflexivity.
Qed.

(** A multiple of the spacing of its binade is a double. *)
Lemma round64_pos_fix (x : Q) (n : Z) :
  x == inject_Z n * ulp64 x -> round64_pos x == x.
Proof.
  intro H. unfold round64_pos.
  assert (E : x / ulp64 x == inject_Z n).
  { rewrite H at 1. field. intro H0. pose proof (ulp64_pos x) as Hp.
    rewrite H0 in Hp. exact (Qlt_irrefl 0 Hp). }
  rewrite (rne_eq _ _ E), rne_Z. symmetry; exact H.
Qed.

Lemma round64_pos_between (x : Q) (lo hi : Z) :
  inject_Z lo * ulp64 x <= x -> x <= inject_Z hi * ulp64 x ->
  inject_Z lo * ulp64 x <= round64_pos x
  /\ round64_pos x <= inject_Z hi * ulp64 x.
Proof.
  intros Hlo Hhi. pose proof (ulp64_pos x) as Hp. unfold round64_pos.
  assert (H1 : inject_Z lo <= x / ulp64 x)
    by (apply Qle_shift_div_l; assumption).
  assert (H2 : x / ulp64 x <= inject_Z hi)
    by (apply Qle_shift_div_r; assumption).
  apply rne_le in H1. apply rne_le in H2. rewrite rne_Z in H1, H2.
  split; (apply Qmult_le_r; [exact Hp|]); rewrite <- Zle_Qle; assumption.
Qed.

Lemma round64_pos_nonneg (x : Q) : 0 < x -> 0 <= round64_pos x.
Proof.
  intro Hx.
  destruct (round64_pos_between x 0 (Qceiling (x / ulp64 x))) as [H _].
  - rewrite Qmult_0_l; apply Qlt_le_weak; exact Hx.
  - rewrite <- (quotient_ulp x) at 1.
    apply Qmult_le_r; [apply ulp64_pos|apply Qle_ceiling].
  - rewrite Qmult_0_l in H; exact H.
Qed.

Lemma round64_pos_upper (x : Q) :
  0 < x -> round64_pos x <= 2 ^ (exponent64 x + 1).
Proof.
  intro Hx.
  destruct (round64_pos_between x 0 (2 ^ 53)) as [_ H].
  - rewrite Qmult_0_l; apply Qlt_le_weak; exact Hx.
  - rewrite <- pow2_Z by lia. rewrite <- (ulp64_scale x 1).
    apply Qlt_le_weak, exponent64_upper; exact Hx.
  - rewrite <- pow2_Z in H by lia. rewrite <- (ulp64_scale x 1) in H. exact H.
Qed.

Lemma round64_pos_lower (x : Q) :
  0 < x -> 2 ^ exponent64 x <= x -> 2 ^ exponent64 x <= round64_pos x.
Proof.
  intros Hx Hlow.
  assert (E : 2 ^ exponent64 x == inject_Z (2 ^ 52) * ulp64 x).
  { rewrite <- pow2_Z by lia. rewrite <- (ulp64_scale x 0).
    rewrite Z.add_0_r; reflexivity. }
  destruct (round64_pos_between x (2 ^ 52) (Qceiling (x / ulp64 x))) as [H _].
  - rewrite <- E; exact Hlow.
  - rewrite <- (quotient_ulp x) at 1.
    apply Qmult_le_r; [apply ulp64_pos|apply Qle_ceiling].
  - rewrite E; exact H.
Qed.

Lemma round64_pos_le (x y : Q) :
  0 < x -> x <= y -> round64_pos x <= round64_pos y.
Proof.
  intros Hx Hxy.
  assert (Hy : 0 < y) by (eapply Qlt_le_trans; eassumption).
  pose proof (exponent64_le x y Hx Hxy) as He.
  destruct (Z_le_lt_eq_dec _ _ He) as [Hlt|Heq].
  - eapply Qle_trans; [apply round64_pos_upper; exact Hx|].
    eapply Qle_trans; [apply (pow2_le _ (exponent64 y)); lia|].
    apply round64_pos_lower; [exact Hy|].
    apply exponent64_lower; [exact Hy|]. unfold exponent64 in *; lia.
  - unfold round64_pos, ulp64. rewrite <- Heq.
    apply Qmult_le_r; [apply pow2_pos|]. rewrite <- Zle_Qle. apply rne_le.
    apply Qmult_le_r; [apply Qinv_lt_0_compat, pow2_pos|exact Hxy].
Qed.

Lemma round64_pos_error (x : Q) :
  Qabs (round64_pos x - x) <= 2 ^ (exponent64 x - 53).
Proof.
  unfold round64_pos.
  assert (E : inject_Z (rne (x / ulp64 x)) * ulp64 x - x
              == (inject_Z (rne (x / ulp64 x)) - x / ulp64 x) * ulp64 x).
  { pose proof (quotient_ulp x) as Hq.
    set (u := ulp64 x) in *. set (t := x / u) in *.
    transitivity (inject_Z (rne t) * u - t * u); [|ring].
    apply Qplus_comp; [reflexivity|apply Qopp_comp; symmetry; exact Hq]. }
  rewrite E, Qabs_Qmult, (Qabs_pos (ulp64 x))
    by (apply Qlt_le_weak, ulp64_pos).
  assert (H2 : ulp64 x == 2 * 2 ^ (exponent64 x - 53)).
  { unfold ulp64. rewrite <- pow2_succ.
    replace (exponent64 x - 53 + 1)%Z with (exponent64 x - 52)%Z by lia.
    reflexivity. }
  pose proof (rne_error (x / ulp64 x)) as H.
  pose proof (pow2_pos (exponent64 x - 53)) as Hp.
  pose proof (Qabs_nonneg (inject_Z (rne (x / ulp64 x)) - x / ulp64 x)) as Ha.
  set (p := 2 ^ (exponent64 x - 53)) in *.
  set (a := Qabs _) in *. set (u := ulp64 x) in *.
  apply Qle_trans with ((1 # 2) * u); [|lra].
  apply Qmult_le_r; [lra|exact H].
Qed.

(** The result of rounding is a double. *)
Lemma round64_pos_idem (x : Q) :
  0 < x -> 0 < round64_pos x -> round64_pos (round64_pos x) == round64_pos x.
Proof.
  intros Hx Hy. set (y := round64_pos x) in *.
  pose proof (round64_pos_upper x Hx) as Hup. fold y in Hup.
  destruct (Z_le_gt_dec (exponent64 y) (exponent64 x)) as [Hle|Hgt].
  - apply (round64_pos_fix y
             (rne (x / ulp64 x) * 2 ^ (exponent64 x - exponent64 y))).
    assert (Hs : ulp64 x
                 == inject_Z (2 ^ (exponent64 x - exponent64 y)) * ulp64 y).
    { unfold ulp64. rewrite <- pow2_Z by lia. rewrite <- pow2_add.
      replace (exponent64 x - exponent64 y + (exponent64 y - 52))%Z
        with (exponent64 x - 52)%Z by lia.
      reflexivity. }
    transitivity (inject_Z (rne (x / ulp64 x)) * ulp64 x); [reflexivity|].
    rewrite inject_Z_mult.
    set (m := inject_Z (rne (x / ulp64 x))). set (uy := ulp64 y) in *.
    set (ux := ulp64 x) in *. rewrite Hs; ring.
  - assert (Hlow : 2 ^ exponent64 y <= y)
      by (apply exponent64_lower; [exact Hy|unfold exponent64 in *; lia]).
    assert (Hey : y == 2 ^ (exponent64 x + 1)).
    { apply Qle_antisym; [exact Hup|].
      eapply Qle_trans; [apply (pow2_le _ (exponent64 y)); lia|exact Hlow]. }
    assert (Hil : ilog2 y = (exponent64 x + 1)%Z).
    { apply ilog2_unique; [exact Hy|rewrite Hey; apply Qle_refl|].
      rewrite Hey; apply pow2_lt; lia. }
    assert (Hexp : exponent64 y = (exponent64 x + 1)%Z)
      by (unfold exponent64 in *; lia).
    apply (round64_pos_fix y (2 ^ 52)).
    rewrite <- pow2_Z by lia. unfold ulp64. rewrite <- pow2_add, Hexp.
    replace (52 + (exponent64 x + 1 - 52))%Z with (exponent64 x + 1)%Z by lia.
    exact Hey.
Qed.

Lemma round64_cases (x : Q) :
  (x == 0 /\ round64 x = 0)
  \/ (0 < x /\ round64 x = round64_pos x)
  \/ (x < 0 /\ round64 x = - round64_pos (- x)).
Proof.
  destruct x as [[|p|p] d]; unfold round64; cbn [Qnum].
  - left; split; reflexivity.
  - right; left; split; reflexivity.
  - right; right; split; reflexivity.
Qed.

Lemma round64_eq (x y : Q) : x == y -> round64 x == round64 y.
Proof.
  intro H.
  destruct (round64_cases x) as [[Hx ->]|[[Hx ->]|[Hx ->]]];
    destruct (round64_cases y) as [[Hy ->]|[[Hy ->]|[Hy ->]]];
    try reflexivity; try (exfalso; lra).
  - apply round64_pos_eq; assumption.
  - apply Qopp_comp. apply round64_pos_eq; [lra|rewrite H; reflexivity].
Qed.

Lemma round64_zero : round64 0 == 0.
Proof. reflexivity. Qed.

Lemma round64_opp (x : Q) : round64 (- x) == - round64 x.
Proof.
  destruct (round64_cases x) as [[Hx ->]|[[Hx ->]|[Hx ->]]];
    destruct (round64_cases (- x)) as [[Hy ->]|[[Hy ->]|[Hy ->]]];
    try reflexivity; try (exfalso; lra).
  - apply Qopp_comp. apply round64_pos_eq; [lra|ring].
  - rewrite Qopp_involutive; reflexivity.
Qed.

Lemma round64_nonneg (x : Q) : 0 <= x -> 0 <= round64 x.
Proof.
  intro H.
  destruct (round64_cases x) as [[Hx ->]|[[Hx ->]|[Hx ->]]];
    [apply Qle_refl|apply round64_pos_nonneg; exact Hx|exfalso; lra].
Qed.

Lemma round64_le (x y : Q) : x <= y -> round64 x <= round64 y.
Proof.
  intro H.
  destruct (Qlt_le_dec 0 x) as [Hx|Hx].
  - destruct (round64_cases x) as [[Hx' _]|[[_ ->]|[Hx' _]]];
      try (exfalso; lra).
    destruct (round64_cases y) as [[Hy' _]|[[_ ->]|[Hy' _]]];
      try (exfalso; lra).
    apply round64_pos_le; assumption.
  - destruct (Qlt_le_dec y 0) as [Hy|Hy].
    + destruct (round64_cases x) as [[Hx' _]|[[Hx' _]|[_ ->]]];
        try (exfalso; lra).
      destruct (round64_cases y) as [[Hy' _]|[[Hy' _]|[_ ->]]];
        try (exfalso; lra).
      apply Qopp_le_compat. apply round64_pos_le; lra.
    + apply Qle_trans with 0; [|apply round64_nonneg; exact Hy].
      assert (H0 : 0 <= round64 (- x)) by (apply round64_nonneg; lra).
      rewrite round64_opp in H0. lra.
Qed.

(** The result of rounding is a double: rounding it again changes
    nothing. *)
Lemma round64_idem (x : Q) : round64 (round64 x) == round64 x.
Proof.
  assert (Hpos : forall z, 0 < z -> round64 (round64 z) == round64 z).
  { intros z Hz.
    destruct (round64_cases z) as [[Hz' _]|[[_ E]|[Hz' _]]];
      try (exfalso; lra).
    rewrite E. pose proof (round64_pos_nonneg z Hz) as Hy.
    destruct (round64_cases (round64_pos z)) as [[Hy' ->]|[[Hy' ->]|[Hy' _]]];
      [symmetry; exact Hy'|apply round64_pos_idem; assumption|exfalso; lra]. }
  destruct (Qlt_le_dec 0 x) as [Hx|Hx]; [apply Hpos; exact Hx|].
  destruct (Qle_lt_or_eq _ _ Hx) as [Hlt|Heq].
  - assert (E : round64 x == - round64 (- x))
      by (rewrite round64_opp; ring).
    rewrite (round64_eq _ _ E), round64_opp, Hpos by lra.
    symmetry; exact E.
  - rewrite (round64_eq (round64 x) 0);
      rewrite (round64_eq x 0 Heq); reflexivity.
Qed.

Lemma round64_pos_error_rel (x : Q) :
  0 < x ->
  Qabs (round64_pos x - x) <= rounding_error x
  /\ Qabs (round64_pos x - x) <= rounding_error (round64_pos x).
Proof.
  intro Hx. pose proof (round64_pos_error x) as H.
  pose proof (round64_pos_nonneg x Hx) as Hy.
  pose proof (pow2_pos (-53)) as Hp. pose proof (pow2_pos (-1075)) as Hq.
  unfold rounding_error.
  destruct (Z_le_gt_dec (exponent64 x) (-1022)) as [He|He].
  - assert (E : exponent64 x = (-1022)%Z) by (unfold exponent64 in *; lia).
    rewrite E in H. change (-1022 - 53)%Z with (-1075)%Z in H.
    set (a := Qabs _) in *. set (y := round64_pos x) in *.
    set (p := 2 ^ (-53)) in *. set (q := 2 ^ (-1075)) in *.
    split; nra.
  - assert (Hlow : 2 ^ exponent64 x <= x)
      by (apply exponent64_lower; [exact Hx|lia]).
    pose proof (round64_pos_lower x Hx Hlow) as Hlow'.
    assert (E : 2 ^ (exponent64 x - 53) == 2 ^ exponent64 x * 2 ^ (-53))
      by (rewrite <- pow2_add; reflexivity).
    rewrite E in H.
    set (a := Qabs _) in *. set (y := round64_pos x) in *.
    set (p := 2 ^ (-53)) in *. set (q := 2 ^ (-1075)) in *.
    set (b := 2 ^ exponent64 x) in *.
    split; nra.
Qed.

(** The error of one rounding is at most half the spacing of the doubles,
    at the value rounded and at the result. *)
Lemma round64_error (x : Q) :
  Qabs (round64 x - x) <= rounding_error (Qabs x)
  /\ Qabs (round64 x - x) <= rounding_error (Qabs (round64 x)).
Proof.
  destruct (round64_cases x) as [[Hx ->]|[[Hx ->]|[Hx ->]]].
  - pose proof (pow2_pos (-53)) as Hp. pose proof (pow2_pos (-1075)) as Hq.
    assert (E : Qabs (0 - x) == 0) by (rewrite Hx; reflexivity).
    assert (E' : Qabs x == 0) by (rewrite Hx; reflexivity).
    unfold rounding_error. rewrite E, E'. change (Qabs 0) with 0.
    split; lra.
  - destruct (round64_pos_error_rel x Hx) as [H1 H2].
    unfold rounding_error in *.
    rewrite (Qabs_pos x) by lra.
    rewrite (Qabs_pos (round64_pos x)) by (apply round64_pos_nonneg; exact Hx).
    split; assumption.
  - assert (Hx' : 0 < - x) by lra.
    destruct (round64_pos_error_rel (- x) Hx') as [H1 H2].
    assert (E : Qabs (- round64_pos (- x) - x)
                == Qabs (round64_pos (- x) - - x)).
    { rewrite <- (Qabs_opp (round64_pos (- x) - - x)).
      apply Qabs_wd; ring. }
    unfold rounding_error in *.
    rewrite E, (Qabs_neg x) by lra.
    rewrite Qabs_opp,
      (Qabs_pos (round64_pos (- x))) by (apply round64_pos_nonneg; exact Hx').
    split; assumption.
Qed.

Lemma rounding_error_le (m m' : Q) :
  m <= m' -> rounding_error m <= rounding_error m'.
Proof.
  intro H. unfold rounding_error. pose proof (pow2_pos (-53)) as Hp.
  set (p := 2 ^ (-53)) in *. set (q := 2 ^ (-1075)). nra.
Qed.

Lemma rounding_error_pos (m : Q) : 0 <= m -> 0 < rounding_error m.
Proof.
  intro H. unfold rounding_error. pose proof (pow2_pos (-53)) as Hp.
  pose proof (pow2_pos (-1075)) as Hq.
  set (p := 2 ^ (-53)) in *. set (q := 2 ^ (-1075)) in *. nra.
Qed.

(** ** The speed limiter in double precision *)

(** The limiter on plain doubles, for a cap that is a double. *)
Lemma limiter64 (prev commanded cap : Q) :
  round64 prev == prev -> round64 commanded == commanded ->
  round64 cap == cap -> 0 <= cap ->
  let speed_diff := fsub commanded prev in
  let new :=
    if negb (Qeq_bool speed_diff 0) then
      if Qltb cap (Qabs speed_diff) then
        if Qltb 0 speed_diff then fadd prev cap else fsub prev cap
      else commanded
    else commanded in
  ((prev <= new /\ new <= commanded) \/ (commanded <= new /\ new <= prev))
  /\ Qabs (new - prev) <= cap + rounding_error (Qabs prev + cap).
Proof.
  intros Hp Hc Hcap H0; cbv zeta. unfold fsub, fadd.
  pose proof (round64_error (commanded - prev)) as [_ Hd].
  pose proof (Qabs_nonneg prev) as Hprev.
  assert (Hre : rounding_error (Qabs (round64 (commanded - prev)))
                <= rounding_error (Qabs prev + cap)
                \/ cap < Qabs (round64 (commanded - prev)))
    by (destruct (Qlt_le_dec cap (Qabs (round64 (commanded - prev))));
        [right; assumption|left; apply rounding_error_le; lra]).
  pose proof (rounding_error_pos (Qabs prev + cap)) as Hpos.
  set (d := round64 (commanded - prev)) in *.
  assert (Hsame : Qabs d <= cap ->
            ((prev <= commanded /\ commanded <= commanded)
             \/ (commanded <= commanded /\ commanded <= prev))
            /\ Qabs (commanded - prev) <= cap + rounding_error (Qabs prev + cap)).
  { intro Hle. split; [destruct (Qlt_le_dec prev commanded); lra|].
    destruct Hre as [Hre|Hre]; [|lra].
    revert Hd Hle Hre. generalize (rounding_error (Qabs d)).
    generalize (rounding_error (Qabs prev + cap)). intros r r' Hd Hle Hre.
    name_abs; lra. }
  destruct (Qeq_bool d 0) eqn:Hz; simpl negb; cbv iota.
  - apply Hsame. apply Qeq_bool_iff in Hz.
    assert (E : Qabs d == 0) by (rewrite Hz; reflexivity). lra.
  - destruct (Qltb cap (Qabs d)) eqn:Hlim;
      [|apply Hsame; apply Qltb_ge; exact Hlim].
    apply Qltb_lt in Hlim.
    destruct (Qltb 0 d) eqn:Hs.
    + apply Qltb_lt in Hs.
      assert (Hroom : prev + cap <= commanded).
      { destruct (Qlt_le_dec (commanded - prev) cap) as [Hlt|Hge]; [|lra].
        exfalso. assert (Hm : d <= round64 cap)
          by (apply round64_le; lra).
        rewrite (Qabs_pos d) in Hlim by lra. lra. }
      assert (H1 : prev <= round64 (prev + cap)).
      { rewrite <- Hp at 1. apply round64_le; lra. }
      assert (H2 : round64 (prev + cap) <= commanded).
      { rewrite <- Hc. apply round64_le; exact Hroom. }
      split; [left; split; assumption|].
      pose proof (round64_error (prev + cap)) as [He _].
      pose proof (rounding_error_le (Qabs (prev + cap)) (Qabs prev + cap)) as Hr.
      assert (Ht : Qabs (prev + cap) <= Qabs prev + cap).
      { eapply Qle_trans; [apply Qabs_triangle|].
        rewrite (Qabs_pos cap) by exact H0. apply Qle_refl. }
      specialize (Hr Ht).
      revert He Hr. generalize (rounding_error (Qabs (prev + cap))).
      generalize (rounding_error (Qabs prev + cap)). intros r r' He Hr.
      clear Hd Hre Hsame Hpos. name_abs; lra.
    + apply Qltb_ge in Hs. apply Qeq_bool_false in Hz.
      assert (Hneg : d < 0).
      { destruct (Qle_lt_or_eq _ _ Hs) as [H|H]; [exact H|contradiction]. }
      assert (Hroom : commanded <= prev - cap).
      { destruct (Qlt_le_dec (- cap) (commanded - prev)) as [Hlt|Hge]; [|lra].
        exfalso. assert (Hm : round64 (- cap) <= d)
          by (apply round64_le; lra).
        rewrite round64_opp in Hm.
        rewrite (Qabs_neg d) in Hlim by lra. lra. }
      assert (H1 : round64 (prev - cap) <= prev).
      { rewrite <- Hp at 2. apply round64_le; lra. }
      assert (H2 : commanded <= round64 (prev - cap)).
      { rewrite <- Hc at 1. apply round64_le; exact Hroom. }
      split; [right; split; assumption|].
      pose proof (round64_error (prev - cap)) as [He _].
      pose proof (rounding_error_le (Qabs (prev - cap)) (Qabs prev + cap)) as Hr.
      assert (Ht : Qabs (prev - cap) <= Qabs prev + cap).
      { eapply Qle_trans; [apply Qabs_triangle|].
        rewrite Qabs_opp, (Qabs_pos cap) by exact H0. apply Qle_refl. }
      specialize (Hr Ht).
      revert He Hr. generalize (rounding_error (Qabs (prev - cap))).
      generalize (rounding_error (Qabs prev + cap)). intros r r' He Hr.
      clear Hd Hre Hsame Hpos. name_abs; lra.
Qed.

(** ** The range of the limiter *)

Lemma round64_pow2 (k : Z) : (-1022 <= k)%Z -> round64 (2 ^ k) == 2 ^ k.
Proof.
  intro Hk. pose proof (pow2_pos k) as Hp.
  destruct (round64_cases (2 ^ k)) as [[H _]|[[_ ->]|[H _]]];
    try (exfalso; lra).
  assert (Hil : ilog2 (2 ^ k) = k)
    by (apply ilog2_unique; [exact Hp|apply Qle_refl|apply pow2_lt; lia]).
  apply (round64_pos_fix _ (2 ^ 52)).
  unfold ulp64, exponent64. rewrite Hil.
  rewrite <- pow2_Z, <- pow2_add by lia.
  replace (52 + (Z.max (-1022) k - 52))%Z with k by lia. reflexivity.
Qed.

Lemma round64_abs_le (x : Q) (k : Z) :
  (-1022 <= k)%Z -> Qabs x <= 2 ^ k -> Qabs (round64 x) <= 2 ^ k.
Proof.
  intros Hk H. apply Qabs_Qle_condition in H. destruct H as [H1 H2].
  pose proof (round64_le _ _ H1) as A1. pose proof (round64_le _ _ H2) as A2.
  rewrite round64_opp in A1. rewrite (round64_pow2 k Hk) in A1, A2.
  apply Qabs_Qle_condition. split; assumption.
Qed.

Lemma Qabs_mult_le (a b : Q) (i j : Z) :
  Qabs a <= 2 ^ i -> Qabs b <= 2 ^ j -> Qabs (a * b) <= 2 ^ (i + j).
Proof.
  intros Ha Hb. rewrite Qabs_Qmult, pow2_add.
  pose proof (Qabs_nonneg a). pose proof (Qabs_nonneg b).
  apply Qle_trans with (2 ^ i * Qabs b).
  - apply Qmult_le_compat_r; assumption.
  - apply Qmult_le_l; [apply pow2_pos|exact Hb].
Qed.

Lemma Qabs_plus_le (a b : Q) (k : Z) :
  Qabs a <= 2 ^ k -> Qabs b <= 2 ^ k -> Qabs (a + b) <= 2 ^ (k + 1).
Proof.
  intros Ha Hb. rewrite pow2_succ.
  eapply Qle_trans; [apply Qabs_triangle|]. lra.
Qed.

Lemma Qabs_wider (a : Q) (i j : Z) :
  (i <= j)%Z -> Qabs a <= 2 ^ i -> Qabs a <= 2 ^ j.
Proof.
  intros Hij H. eapply Qle_trans; [exact H|apply pow2_le; exact Hij].
Qed.

(** For doubles of moderate size no operation of the limiter comes near
    the largest double: every exact result, and so every rounded one, is
    at most [2 ^ 1007] in absolute value. *)
Lemma limiter64_in_range (self : Car.t) (dt rate : Q) :
  is_double (Car.speed self) -> is_double (Car.previous_speed self) ->
  is_double rate -> is_double dt ->
  let prev := Car.previous_speed self in
  let cap := fmul (fmul rate dt) 60 in
  Qabs (Car.speed self - prev) <= 2 ^ 1007
  /\ Qabs (rate * dt) <= 2 ^ 1007
  /\ Qabs (fmul rate dt * 60) <= 2 ^ 1007
  /\ Qabs (prev + cap) <= 2 ^ 1007
  /\ Qabs (prev - cap) <= 2 ^ 1007.
Proof.
  intros [_ Hs] [_ Hp] [_ Hr] [_ Hdt] prev cap. fold prev in Hp.
  assert (H60 : Qabs 60 <= 2 ^ 6) by (vm_compute; discriminate).
  assert (H1 : Qabs (rate * dt) <= 2 ^ 1000)
    by (apply (Qabs_mult_le rate dt 500 500); assumption).
  assert (H2 : Qabs (fmul rate dt) <= 2 ^ 1000)
    by (apply round64_abs_le; [lia|exact H1]).
  assert (H3 : Qabs (fmul rate dt * 60) <= 2 ^ 1006)
    by (apply (Qabs_mult_le _ 60 1000 6); assumption).
  assert (H4 : Qabs cap <= 2 ^ 1006)
    by (apply round64_abs_le; [lia|exact H3]).
  assert (Hp' : Qabs prev <= 2 ^ 1006)
    by (apply (Qabs_wider prev 500); [lia|exact Hp]).
  assert (H5 : Qabs (- cap) <= 2 ^ 1006) by (rewrite Qabs_opp; exact H4).
  assert (H6 : Qabs (- prev) <= 2 ^ 500) by (rewrite Qabs_opp; exact Hp).
  split; [apply (Qabs_wider _ 501); [lia|];
          apply (Qabs_plus_le (Car.speed self) (- prev) 500); assumption|].
  split; [apply (Qabs_wider _ 1000); [lia|exact H1]|].
  split; [apply (Qabs_wider _ 1006); [lia|exact H3]|].
  split.
  - apply (Qabs_plus_le prev cap 1006); assumption.
  - apply (Qabs_plus_le prev (- cap) 1006); assumption.
Qed.

Lemma is_double_round (x : Q) : is_double x -> round64 x == x.
Proof. intros [H _]; exact H. Qed.

Lemma cap64_double (rate dt : Q) :
  0 <= rate -> 0 <= dt ->
  round64 (fmul (fmul rate dt) 60) == fmul (fmul rate dt) 60
  /\ 0 <= fmul (fmul rate dt) 60.
Proof.
  intros Hr Hdt. unfold fmul. split; [apply round64_idem|].
  apply round64_nonneg. apply Qmult_le_0_compat; [|discriminate].
  apply round64_nonneg. apply Qmult_le_0_compat; assumption.
Qed.

Lemma cap64_le (rate rate' dt : Q) :
  rate <= rate' -> 0 <= dt ->
  fmul (fmul rate dt) 60 <= fmul (fmul rate' dt) 60.
Proof.
  intros Hr Hdt. unfold fmul. apply round64_le.
  apply Qmult_le_compat_r; [|discriminate].
  apply round64_le. apply Qmult_le_compat_r; assumption.
Qed.

Lemma limited_speed64_cases (self : Car.t) (dt : Q) :
  is_double (Car.speed self) -> is_double (Car.previous_speed self) ->
  0 <= dt -> 0 <= Car.acceleration self -> 0 <= Car.deceleration self ->
  let prev := Car.previous_speed self in
  let commanded := Car.speed self in
  let new := limited_speed64 self dt in
  let cap :=
    if Qltb (Qabs prev) (Qabs commanded)
    then fmul (fmul (Car.acceleration self) dt) 60
    else fmul (fmul (Car.deceleration self) dt) 60 in
  ((prev <= new /\ new <= commanded) \/ (commanded <= new /\ new <= prev))
  /\ Qabs (new - prev) <= cap + rounding_error (Qabs prev + cap).
Proof.
  intros Hs Hp Hdt Ha Hd prev commanded new cap.
  assert (Hcap : round64 cap == cap /\ 0 <= cap)
    by (unfold cap; destruct (Qltb _ _); apply cap64_double; assumption).
  exact (limiter64 prev commanded cap (is_double_round _ Hp)
           (is_double_round _ Hs) (proj1 Hcap) (proj2 Hcap)).
Qed.

Lemma bound_le (m c c' : Q) :
  c <= c' -> c + rounding_error (m + c) <= c' + rounding_error (m + c').
Proof.
  intro H. pose proof (rounding_error_le (m + c) (m + c')) as Hr. lra.
Qed.

(** C7 (amended).  In the double arithmetic of the program the cap is
    kept up to one rounding.  For doubles of moderate size, a time step
    [dt >= 0] and rates with [0 <= acceleration <= deceleration], the
    speed the first block of [update] leaves differs from the previous-tick
    speed by at most the cap as the program computes it
    ([acceleration * dt * 60] when the car accelerates,
    [deceleration * dt * 60] when it does not, each product rounded), plus
    the error of rounding one sum of the size of the previous speed plus
    the cap -- whether "accelerates" is read on the commanded speed, as the
    code does, or on the speed left. *)
Theorem update_speed_change_bounded (self : Car.t) (dt : Q) :
  is_double (Car.speed self) -> is_double (Car.previous_speed self) ->
  is_double (Car.acceleration self) -> is_double (Car.deceleration self) ->
  is_double dt ->
  0 <= dt ->
  0 <= Car.acceleration self ->
  Car.acceleration self <= Car.deceleration self ->
  let prev := Car.previous_speed self in
  let commanded := Car.speed self in
  let new := limited_speed64 self dt in
  let acc_cap := fmul (fmul (Car.acceleration self) dt) 60 in
  let dec_cap := fmul (fmul (Car.deceleration self) dt) 60 in
  (Qabs prev < Qabs commanded ->
   Qabs (new - prev) <= acc_cap + rounding_error (Qabs prev + acc_cap))
  /\ (Qabs commanded <= Qabs prev ->
      Qabs (new - prev) <= dec_cap + rounding_error (Qabs prev + dec_cap))
  /\ (Qabs prev < Qabs new ->
      Qabs (new - prev) <= acc_cap + rounding_error (Qabs prev + acc_cap))
  /\ (Qabs new <= Qabs prev ->
      Qabs (new - prev) <= dec_cap + rounding_error (Qabs prev + dec_cap)).
Proof.
  intros Hs Hp _ _ _ Hdt Ha Had prev commanded new acc_cap dec_cap.
  assert (Hd : 0 <= Car.deceleration self) by lra.
  destruct (limited_speed64_cases self dt Hs Hp Hdt Ha Hd) as [Hbetween Hbound].
  fold prev commanded new acc_cap dec_cap in Hbetween, Hbound.
  pose proof (cap64_le _ _ dt Had Hdt) as Hcaps. fold acc_cap dec_cap in Hcaps.
  pose proof (bound_le (Qabs prev) acc_cap dec_cap Hcaps) as Hmono.
  destruct (Qltb (Qabs prev) (Qabs commanded)) eqn:Hacc.
  - apply Qltb_lt in Hacc. repeat split; intro H; lra.
  - apply Qltb_ge in Hacc. repeat split; intro H; try lra.
    exfalso. clear Hbound Hmono.
    destruct Hbetween as [[H1 H2]|[H1 H2]]; name_abs; lra.
Qed.

(** A car at rest that is commanded the search speed, over a 16 ms step,
    with the rates and the step as the doubles the program holds. *)
Lemma update_speed_change_bounded_witness :
  let self :=
    Car.Build 200 500 0 1.75 2.5 0 (0, 100, 255)%Z 200 (repeat SENSOR_RANGE 8)
      0 (round64 0.01) (round64 0.02) in
  let dt := round64 0.016 in
  let prev := Car.previous_speed self in
  let commanded := Car.speed self in
  let new := limited_speed64 self dt in
  let acc_cap := fmul (fmul (Car.acceleration self) dt) 60 in
  let dec_cap := fmul (fmul (Car.deceleration self) dt) 60 in
  (Qabs prev < Qabs commanded ->
   Qabs (new - prev) <= acc_cap + rounding_error (Qabs prev + acc_cap))
  /\ (Qabs commanded <= Qabs prev ->
      Qabs (new - prev) <= dec_cap + rounding_error (Qabs prev + dec_cap))
  /\ (Qabs prev < Qabs new ->
      Qabs (new - prev) <= acc_cap + rounding_error (Qabs prev + acc_cap))
  /\ (Qabs new <= Qabs prev ->
      Qabs (new - prev) <= dec_cap + rounding_error (Qabs prev + dec_cap)).
Proof.
  apply (update_speed_change_bounded
           (Car.Build 200 500 0 1.75 2.5 0 (0, 100, 255)%Z 200
              (repeat SENSOR_RANGE 8) 0 (round64 0.01) (round64 0.02))
           (round64 0.016));
    try (split; [vm_compute; reflexivity|vm_compute; discriminate]);
    vm_compute; discriminate.
Defined.

(** C7, as stated, fails.  The car starts at rest with the rates of the
    constructor and is commanded 1.75, the speed of the search, in passes
    of 16 ms.  After thirteen passes its speed is 0.12479999999999998; the
    fourteenth, still accelerating, leaves 0.1344, across a power of two:
    the step is larger than [acceleration * dt * 60], both as the program
    computes it and as the exact product.  So it is not the case that the
    speed never changes by more than the cap. *)
Lemma speed_change_exceeds_cap :
  let dt := round64 0.016 in
  let car0 :=
    Car.Build 200 500 0 0 2.5 0 (0, 100, 255)%Z 200 (repeat SENSOR_RANGE 8)
      0 (round64 0.01) (round64 0.02) in
  let self :=
    Car.set_controls (Nat.iter 13 (limited_pass 1.75 dt) car0) 1.75 0 in
  let prev := Car.previous_speed self in
  let new := limited_speed64 self dt in
  let acc_cap := fmul (fmul (Car.acceleration self) dt) 60 in
  (is_double (Car.speed self) /\ is_double prev
   /\ is_double (Car.acceleration self) /\ is_double (Car.deceleration self)
   /\ is_double dt
   /\ 0 <= dt /\ 0 <= Car.acceleration self
   /\ Car.acceleration self <= Car.deceleration self
   /\ prev == round64 0.12479999999999998
   /\ new == round64 0.1344
   /\ Qabs prev < Qabs new
   /\ Car.acceleration self * dt * 60 < acc_cap
   /\ acc_cap < Qabs (new - prev))
  /\ ~ (forall (car : Car.t) (step : Q),
          is_double (Car.speed car) -> is_double (Car.previous_speed car) ->
          is_double (Car.acceleration car) -> is_double (Car.deceleration car) ->
          is_double step ->
          0 <= step -> 0 <= Car.acceleration car ->
          Car.acceleration car <= Car.deceleration car ->
          Qabs (Car.previous_speed car) < Qabs (limited_speed64 car step) ->
          Qabs (limited_speed64 car step - Car.previous_speed car)
          <= Car.acceleration car * step * 60
          \/ Qabs (limited_speed64 car step - Car.previous_speed car)
             <= fmul (fmul (Car.acceleration car) step) 60).
Proof.
  intros dt car0 self prev new acc_cap.
  assert (D1 : is_double (Car.speed self))
    by (split; [vm_compute; reflexivity|vm_compute; discriminate]).
  assert (D2 : is_double prev)
    by (split; [vm_compute; reflexivity|vm_compute; discriminate]).
  assert (D3 : is_double (Car.acceleration self))
    by (split; [vm_compute; reflexivity|vm_compute; discriminate]).
  assert (D4 : is_double (Car.deceleration self))
    by (split; [vm_compute; reflexivity|vm_compute; discriminate]).
  assert (D5 : is_double dt)
    by (split; [vm_compute; reflexivity|vm_compute; discriminate]).
  assert (H1 : 0 <= dt) by (vm_compute; discriminate).
  assert (H2 : 0 <= Car.acceleration self) by (vm_compute; discriminate).
  assert (H3 : Car.acceleration self <= Car.deceleration self)
    by (vm_compute; discriminate).
  assert (H4 : Qabs prev < Qabs new) by (vm_compute; reflexivity).
  assert (H5 : Car.acceleration self * dt * 60 < acc_cap)
    by (vm_compute; reflexivity).
  assert (H6 : acc_cap < Qabs (new - prev)) by (vm_compute; reflexivity).
  split.
  - repeat split; try assumption; vm_compute; reflexivity.
  - intro Hall.
    destruct (Hall self dt D1 D2 D3 D4 D5 H1 H2 H3 H4) as [H|H];
      fold prev new acc_cap in H; lra.
Qed.

(** X16.  The speed limiter never overshoots, also with rounding.  For
    doubles of moderate size, a time step [dt >= 0] and rates that are not
    negative, the speed the first block of [update] leaves lies between the
    previous-tick speed and the commanded speed (the ends included), and it
    is again a double of moderate size. *)
Theorem update_speed_no_overshoot (self : Car.t) (dt : Q) :
  is_double (Car.speed self) -> is_double (Car.previous_speed self) ->
  is_double (Car.acceleration self) -> is_double (Car.deceleration self) ->
  is_double dt ->
  0 <= dt ->
  0 <= Car.acceleration self ->
  0 <= Car.deceleration self ->
  let prev := Car.previous_speed self in
  let commanded := Car.speed self in
  let new := limited_speed64 self dt in
  ((prev <= new /\ new <= commanded) \/ (commanded <= new /\ new <= prev))
  /\ is_double new.
Proof.
  intros Hs Hp _ _ _ Hdt Ha Hd prev commanded new.
  destruct (limited_speed64_cases self dt Hs Hp Hdt Ha Hd) as [Hbetween _].
  fold prev commanded new in Hbetween.
  split; [exact Hbetween|]. split.
  - unfold new, limited_speed64, fadd, fsub.
    destruct (negb _); [|apply (is_double_round _ Hs)].
    destruct (Qltb _ (Qabs _)); [|apply (is_double_round _ Hs)].
    destruct (Qltb 0 _); apply round64_idem.
  - destruct Hs as [_ Hs]; destruct Hp as [_ Hp].
    fold commanded in Hs; fold prev in Hp.
    revert Hs Hp; generalize (2 ^ 500); intros big Hs Hp.
    destruct Hbetween as [[H1 H2]|[H1 H2]]; name_abs; lra.
Qed.

Lemma update_speed_no_overshoot_witness :
  let self :=
    Car.Build 200 500 0 1.75 2.5 0 (0, 100, 255)%Z 200 (repeat SENSOR_RANGE 8)
      0 (round64 0.01) (round64 0.02) in
  let dt := round64 0.016 in
  let prev := Car.previous_speed self in
  let commanded := Car.speed self in
  let new := limited_speed64 self dt in
  ((prev <= new /\ new <= commanded) \/ (commanded <= new /\ new <= prev))
  /\ is_double new.
Proof.
  apply (update_speed_no_overshoot
           (Car.Build 200 500 0 1.75 2.5 0 (0, 100, 255)%Z 200
              (repeat SENSOR_RANGE 8) 0 (round64 0.01) (round64 0.02))
           (round64 0.016));
    try (split; [vm_compute; reflexivity|vm_compute; discriminate]);
    vm_compute; discriminate.
Defined.
